(** * Worker-pool orchestration of ml-agents: a shallow embedding

    The development follows two source files:
    - [ml-agents-envs/mlagents/envs/subprocess_env_manager.py]
      (module [SubprocessEnv] below): the worker command loop, the
      supervisor-side worker handles, and [SubprocessEnvManager] with its
      [step], [reset], [_queue_steps], [_postprocess_steps] and [_take_step];
    - [ml-agents/mlagents/trainers/trainer_controller.py]
      (module [TrainerCtl] below): [_not_done_training], [advance] and the
      loop of [start_learning]; and [initialize_trainers] (module
      [TrainerInit]).

    Python objects that are mutated in place are threaded through the
    functions as explicit state.  Calls that can raise return an [outcome];
    loops that poll another process take the sequence of what they will
    observe as an explicit argument and answer [Pending] when that sequence
    is used up before the loop exits. *)

From stdpp Require Import base option list gmap strings sorting.
From Stdlib Require Import ZArith Lia.

Local Open Scope string_scope.
Local Open Scope list_scope.
Local Open Scope nat_scope.

(** ** Outcomes of Python calls *)

Inductive exn : Set := KeyError | IndexError | TypeError | ZeroDivisionError.

(** [Return a]: the call returned [a].  [Raise e]: the call raised [e].
    [Pending]: the call is still inside a polling loop (or blocked in a
    [recv]) once everything the other processes were said to deliver has
    been consumed. *)
Inductive outcome (A : Type) : Type :=
| Return (a : A)
| Raise (e : exn)
| Pending.
Arguments Return {A} a.
Arguments Raise {A} e.
Arguments Pending {A}.

#[global] Instance outcome_ret : MRet outcome := @Return.
#[global] Instance outcome_bind : MBind outcome := λ A B f mx,
  match mx with
  | Return a => f a
  | Raise e => Raise e
  | Pending => Pending
  end.

#[global] Instance outcome_fmap : FMap outcome := λ A B f mx,
  match mx with
  | Return a => Return (f a)
  | Raise e => Raise e
  | Pending => Pending
  end.

Definition returned {A} (o : outcome A) : Prop := ∃ a, o = Return a.

(** ** Python dictionaries

    A [dict] keeps its keys unique and iterates in insertion order;
    assigning to a key that is present replaces the value in place. *)
Module PyDict.
Section dict.
Context {V : Type}.

Definition t := list (string * V).

Fixpoint get (k : string) (d : t) : option V :=
  match d with
  | [] => None
  | (k', v) :: d' => if decide (k = k') then Some v else get k d'
  end.

Fixpoint set (k : string) (v : V) (d : t) : t :=
  match d with
  | [] => [(k, v)]
  | (k', v') :: d' =>
      if decide (k = k') then (k, v) :: d' else (k', v') :: set k v d'
  end.

Definition keys (d : t) : list string := d.*1.
Definition values (d : t) : list V := d.*2.

End dict.
Arguments t : clear implicits.
End PyDict.

(** ** Values exchanged with the policy

    The arrays and nested dictionaries inside an [ActionInfo] are untyped
    Python values.  Only their shape matters to the manager, which indexes
    them per agent. *)
#[local] Set Warnings "-register-all".
Inductive pyval : Type :=
| PyNone
| PyNum (z : Z)
| PySeq (l : list pyval)
| PyDict (d : list (string * pyval)).

(** [v[idx]] for a Python value. *)
Definition py_index (v : pyval) (idx : nat) : outcome pyval :=
  match v with
  | PySeq l => match l !! idx with
               | Some x => Return x
               | None => Raise IndexError
               end
  | PyDict _ => Raise KeyError
  | PyNone | PyNum _ => Raise TypeError
  end.

(** [v[idx] if v is not None else None] *)
Definition py_index_opt (v : pyval) (idx : nat) : outcome pyval :=
  match v with
  | PyNone => Return PyNone
  | _ => py_index v idx
  end.

Module SubprocessEnv.

(** Modelled from the spec: [AgentInfo] (the spec's AgentObservation) is
    imported from [mlagents.envs] and is not part of the sources at hand.
    The manager reads its [id] (here [agent_id]) and its [brain_name]; the
    rest of the snapshot is the opaque [observation]. *)
Record AgentInfo : Type := {
  agent_id : string;
  brain_name : string;
  observation : Z;
}.

(** Modelled from the spec: [ActionInfo] (the spec's ActionDecision) is
    imported from [mlagents.envs]; the fields are the five the manager reads
    and passes, in the constructor's positional order. *)
Record ActionInfo : Type := {
  action : pyval;
  memory : pyval;
  text : pyval;
  value : pyval;
  outputs : list (string * pyval);
}.

(** Modelled from the spec: [AgentStep] (the spec's StepRecord) is imported
    from [mlagents.envs.env_manager]; a triple built positionally as
    [AgentStep(previous, current, action)], of which the manager reads
    [current_agent_info]. *)
Record AgentStep : Type := {
  previous_agent_info : option AgentInfo;
  current_agent_info : AgentInfo;
  previous_action : option ActionInfo;
}.

(** The policy capability held in [EnvManager.policies]. *)
Record Policy : Type := { get_action : list AgentInfo → ActionInfo }.

(** A [TimerNode] of [mlagents.envs.timers], kept as an opaque number. *)
Definition TimerNode : Type := Z.

(** [StepResponse] *)
Record StepResponse : Type := {
  all_agent_info : list AgentInfo;
  timer_root : option TimerNode;
}.

(** The [payload: Any] of commands and responses. *)
Inductive Payload : Type :=
| NoPayload
| ActionPayload (all_action_info : PyDict.t ActionInfo)
| ResetPayload (config : option Z) (train_mode : bool) (custom : option Z)
| InfoPayload (infos : list AgentInfo)
| StepPayload (r : StepResponse)
| BoolPayload (b : bool)
| OtherPayload (v : pyval).

(** [EnvironmentCommand] *)
Record EnvironmentCommand : Type := {
  cmd_name : string;
  cmd_payload : Payload;
}.

(** [EnvironmentResponse]; [step_worker_id] is its [worker_id] field and
    [payload] the [StepResponse] carried on the shared step queue. *)
Record EnvironmentResponse : Type := {
  resp_name : string;
  step_worker_id : nat;
  payload : StepResponse;
}.

(** [UnityEnvWorker]: the supervisor-side handle.  The process and the pipe
    are operating-system handles; what is sent on the pipe is returned by
    the functions that send. *)
Record UnityEnvWorker : Type := {
  worker_id : nat;
  previous_agent_steps : PyDict.t AgentStep;
  waiting : bool;
}.

Definition set_waiting (b : bool) (w : UnityEnvWorker) : UnityEnvWorker :=
  {| worker_id := worker_id w;
     previous_agent_steps := previous_agent_steps w;
     waiting := b |}.

Definition set_previous_agent_steps (d : PyDict.t AgentStep)
    (w : UnityEnvWorker) : UnityEnvWorker :=
  {| worker_id := worker_id w;
     previous_agent_steps := d;
     waiting := waiting w |}.

(** [SubprocessEnvManager]; [policies] is inherited from [EnvManager]. *)
Record SubprocessEnvManager : Type := {
  env_workers : list UnityEnvWorker;
  previous_agent_action_infos : gmap string ActionInfo;
  policies : gmap string Policy;
}.

Definition set_env_workers (ws : list UnityEnvWorker)
    (self : SubprocessEnvManager) : SubprocessEnvManager :=
  {| env_workers := ws;
     previous_agent_action_infos := previous_agent_action_infos self;
     policies := policies self |}.

Definition set_previous_agent_action_infos (a : gmap string ActionInfo)
    (self : SubprocessEnvManager) : SubprocessEnvManager :=
  {| env_workers := env_workers self;
     previous_agent_action_infos := a;
     policies := policies self |}.

(** [SubprocessEnvManager.__init__]: handles [0 .. n_env-1], nothing stored,
    nobody waiting. *)
Definition create_worker (worker_idx : nat) : UnityEnvWorker :=
  {| worker_id := worker_idx; previous_agent_steps := []; waiting := false |}.

Definition init (n_env : nat) (pol : gmap string Policy) : SubprocessEnvManager :=
  {| env_workers := create_worker <$> seq 0 n_env;
     previous_agent_action_infos := ∅;
     policies := pol |}.

(** *** [get_per_agent_outputs]

    [per_agent_output] is the body of the loop for one [output_val]: a
    nested dict is sliced recursively, a value with a length is indexed, any
    other value is kept. *)
Fixpoint per_agent_output (agent_idx : nat) (output_val : pyval) : outcome pyval :=
  match output_val with
  | PyDict d =>
      PyDict <$>
        (fix items (d : list (string * pyval)) (outputs_for_agent : PyDict.t pyval)
            : outcome (PyDict.t pyval) :=
           match d with
           | [] => Return outputs_for_agent
           | (output_key, v) :: d' =>
               v' ← per_agent_output agent_idx v;
               items d' (PyDict.set output_key v' outputs_for_agent)
           end) d []
  | PySeq _ => py_index output_val agent_idx
  | PyNone | PyNum _ => Return output_val
  end.

Fixpoint get_per_agent_outputs_items (items : list (string * pyval))
    (agent_idx : nat) (outputs_for_agent : PyDict.t pyval)
    : outcome (PyDict.t pyval) :=
  match items with
  | [] => Return outputs_for_agent
  | (output_key, output_val) :: rest =>
      v ← per_agent_output agent_idx output_val;
      get_per_agent_outputs_items rest agent_idx
        (PyDict.set output_key v outputs_for_agent)
  end.

Definition get_per_agent_outputs (outputs_dict : list (string * pyval))
    (agent_idx : nat) : outcome (PyDict.t pyval) :=
  get_per_agent_outputs_items outputs_dict agent_idx [].

(** *** [_take_step] *)

(** First loop: [previous_steps_by_brain]. *)
Fixpoint group_by_brain (items : list (string * AgentStep))
    (previous_steps_by_brain : PyDict.t (list AgentStep))
    : PyDict.t (list AgentStep) :=
  match items with
  | [] => previous_steps_by_brain
  | (_, agent_step) :: rest =>
      let b := brain_name (current_agent_info agent_step) in
      group_by_brain rest
        match PyDict.get b previous_steps_by_brain with
        | Some l => PyDict.set b (l ++ [agent_step]) previous_steps_by_brain
        | None => PyDict.set b [agent_step] previous_steps_by_brain
        end
  end.

(** The [ActionInfo] stored for the agent at [agent_idx] of a brain's batch:
    the per-agent slice of the batch that [get_action] returned. *)
Definition slice_action_info (action_info : ActionInfo) (agent_idx : nat)
    : outcome ActionInfo :=
  outputs_for_agent ← get_per_agent_outputs (outputs action_info) agent_idx;
  a ← py_index (action action_info) agent_idx;
  m ← py_index_opt (memory action_info) agent_idx;
  v ← py_index_opt (value action_info) agent_idx;
  Return {| action := a; memory := m; text := PyNone; value := v;
            outputs := outputs_for_agent |}.

(** [for agent_idx, agent_info in enumerate(agent_infos)] *)
Fixpoint record_agent_actions (action_info : ActionInfo) (agent_idx : nat)
    (agent_infos : list AgentInfo) (acts : gmap string ActionInfo)
    : outcome (gmap string ActionInfo) :=
  match agent_infos with
  | [] => Return acts
  | agent_info :: rest =>
      s ← slice_action_info action_info agent_idx;
      record_agent_actions action_info (S agent_idx) rest
        (<[agent_id agent_info := s]> acts)
  end.

(** [for brain_name, agent_steps in previous_steps_by_brain.items()] *)
Fixpoint take_step_brains (pol : gmap string Policy)
    (items : list (string * list AgentStep))
    (acts : gmap string ActionInfo) (all_action_info : PyDict.t ActionInfo)
    : outcome (gmap string ActionInfo * PyDict.t ActionInfo) :=
  match items with
  | [] => Return (acts, all_action_info)
  | (b, agent_steps) :: rest =>
      let agent_infos := current_agent_info <$> agent_steps in
      match pol !! b with
      | None => Raise KeyError
      | Some p =>
          let action_info := get_action p agent_infos in
          acts' ← record_agent_actions action_info 0 agent_infos acts;
          take_step_brains pol rest acts' (PyDict.set b action_info all_action_info)
      end
  end.

Definition _take_step (self : SubprocessEnvManager)
    (previous_steps : PyDict.t AgentStep)
    : outcome (SubprocessEnvManager * PyDict.t ActionInfo) :=
  let previous_steps_by_brain := group_by_brain previous_steps [] in
  '(acts, all_action_info) ←
    take_step_brains (policies self) previous_steps_by_brain
      (previous_agent_action_infos self) [];
  Return (set_previous_agent_action_infos acts self, all_action_info).

(** *** [_queue_steps]

    The loop over [self.env_workers]; [visited] are the handles already
    visited.  Besides the manager it returns what was sent, as pairs of the
    receiving worker and the command. *)
Fixpoint queue_steps_loop (self : SubprocessEnvManager)
    (visited todo : list UnityEnvWorker) (sent : list (nat * EnvironmentCommand))
    : outcome (SubprocessEnvManager * list (nat * EnvironmentCommand)) :=
  match todo with
  | [] => Return (set_env_workers visited self, sent)
  | env_worker :: rest =>
      if negb (waiting env_worker) then
        '(self', env_action_info) ←
          _take_step self (previous_agent_steps env_worker);
        queue_steps_loop self' (visited ++ [set_waiting true env_worker]) rest
          (sent ++ [(worker_id env_worker,
                     {| cmd_name := "step";
                        cmd_payload := ActionPayload env_action_info |})])
      else queue_steps_loop self (visited ++ [env_worker]) rest sent
  end.

Definition _queue_steps (self : SubprocessEnvManager)
    : outcome (SubprocessEnvManager * list (nat * EnvironmentCommand)) :=
  queue_steps_loop self [] (env_workers self) [].

(** *** [_postprocess_steps] *)

(** [for agent_info in payload.all_agent_info], on the history of the
    worker the batch came from.  The stored step is read by plain indexing,
    the recorded action by [.get]. *)
Fixpoint postprocess_infos (acts : gmap string ActionInfo)
    (infos : list AgentInfo) (hist : PyDict.t AgentStep)
    (agent_steps : list AgentStep)
    : outcome (PyDict.t AgentStep * list AgentStep) :=
  match infos with
  | [] => Return (hist, agent_steps)
  | agent_info :: rest =>
      match PyDict.get (agent_id agent_info) hist with
      | None => Raise KeyError
      | Some prev =>
          let new_step :=
            {| previous_agent_info := Some (current_agent_info prev);
               current_agent_info := agent_info;
               previous_action := acts !! agent_id agent_info |} in
          postprocess_infos acts rest
            (PyDict.set (agent_id agent_info) new_step hist)
            (agent_steps ++ [new_step])
      end
  end.

(** [for step in env_steps]; [timer_nodes] are the roots later merged under
    the "workers" timer. *)
Fixpoint postprocess_loop (acts : gmap string ActionInfo)
    (env_steps : list EnvironmentResponse) (ws : list UnityEnvWorker)
    (agent_steps : list AgentStep) (timer_nodes : list TimerNode)
    : outcome (list UnityEnvWorker * list AgentStep * list TimerNode) :=
  match env_steps with
  | [] => Return (ws, agent_steps, timer_nodes)
  | step :: rest =>
      match ws !! step_worker_id step with
      | None => Raise IndexError
      | Some env_worker =>
          '(hist, agent_steps') ←
            postprocess_infos acts (all_agent_info (payload step))
              (previous_agent_steps env_worker) agent_steps;
          postprocess_loop acts rest
            (<[step_worker_id step := set_previous_agent_steps hist env_worker]> ws)
            agent_steps'
            match timer_root (payload step) with
            | Some t => timer_nodes ++ [t]
            | None => timer_nodes
            end
      end
  end.

Definition _postprocess_steps (self : SubprocessEnvManager)
    (env_steps : list EnvironmentResponse)
    : outcome (SubprocessEnvManager * list AgentStep) :=
  '(ws, agent_steps, _) ←
    postprocess_loop (previous_agent_action_infos self) env_steps
      (env_workers self) [] [];
  Return (set_env_workers ws self, agent_steps).

(** *** [step]

    One pass of the inner [while True] loop: [items] is what [get_nowait]
    hands out before it raises [Empty]. *)
Fixpoint drain_step_queue (items : list EnvironmentResponse)
    (ws : list UnityEnvWorker) (worker_steps : list EnvironmentResponse)
    (step_workers : gset nat)
    : outcome (list UnityEnvWorker * list EnvironmentResponse * gset nat) :=
  match items with
  | [] => Return (ws, worker_steps, step_workers)
  | step :: rest =>
      match ws !! step_worker_id step with
      | None => Raise IndexError
      | Some env_worker =>
          let ws' := <[step_worker_id step := set_waiting false env_worker]> ws in
          if decide (step_worker_id step ∈ step_workers)
          then drain_step_queue rest ws' worker_steps step_workers
          else drain_step_queue rest ws' (worker_steps ++ [step])
                 ({[step_worker_id step]} ∪ step_workers)
      end
  end.

(** [while len(worker_steps) < 1]: [polls] lists, pass after pass, what the
    shared queue holds when the manager drains it. *)
Fixpoint poll_step_queue (polls : list (list EnvironmentResponse))
    (ws : list UnityEnvWorker) (worker_steps : list EnvironmentResponse)
    (step_workers : gset nat)
    : outcome (list UnityEnvWorker * list EnvironmentResponse) :=
  if bool_decide (length worker_steps < 1)%nat then
    match polls with
    | [] => Pending
    | items :: polls' =>
        '(ws', worker_steps', step_workers') ←
          drain_step_queue items ws worker_steps step_workers;
        poll_step_queue polls' ws' worker_steps' step_workers'
    end
  else Return (ws, worker_steps).

(** The result of [step] together with the commands sent and the batches
    kept in [worker_steps]. *)
Record StepResult : Type := {
  step_self : SubprocessEnvManager;
  step_sent : list (nat * EnvironmentCommand);
  step_worker_steps : list EnvironmentResponse;
  step_agent_steps : list AgentStep;
}.

Definition step (self : SubprocessEnvManager)
    (polls : list (list EnvironmentResponse)) : outcome StepResult :=
  '(self1, sent) ← _queue_steps self;
  '(ws, worker_steps) ← poll_step_queue polls (env_workers self1) [] ∅;
  '(self2, agent_steps) ← _postprocess_steps (set_env_workers ws self1) worker_steps;
  Return {| step_self := self2; step_sent := sent;
            step_worker_steps := worker_steps;
            step_agent_steps := agent_steps |}.

(** *** [reset] *)

(** [while any([ew.waiting ...])]: each element of [polls] is one look at
    the queue, [None] when [empty()] holds. *)
Fixpoint reset_drain (polls : list (option EnvironmentResponse))
    (ws : list UnityEnvWorker) : outcome (list UnityEnvWorker) :=
  if existsb waiting ws then
    match polls with
    | [] => Pending
    | None :: polls' => reset_drain polls' ws
    | Some step :: polls' =>
        match ws !! step_worker_id step with
        | None => Raise IndexError
        | Some env_worker =>
            reset_drain polls'
              (<[step_worker_id step := set_waiting false env_worker]> ws)
        end
    end
  else Return ws.

(** [for agent_info in all_agent_infos] *)
Fixpoint reset_infos (all_agent_infos : list AgentInfo)
    (hist : PyDict.t AgentStep) (reset_steps : list AgentStep)
    : PyDict.t AgentStep * list AgentStep :=
  match all_agent_infos with
  | [] => (hist, reset_steps)
  | agent_info :: rest =>
      let reset_step :=
        {| previous_agent_info := None;
           current_agent_info := agent_info;
           previous_action := None |} in
      reset_infos rest (PyDict.set (agent_id agent_info) reset_step hist)
        (reset_steps ++ [reset_step])
  end.

(** The second [for ew in self.env_workers]: [replies] are the payloads the
    workers put on their pipes, in worker order; a worker without a reply
    keeps the manager in [recv]. *)
Fixpoint reset_collect (visited todo : list UnityEnvWorker)
    (replies : list (list AgentInfo)) (reset_steps : list AgentStep)
    : outcome (list UnityEnvWorker * list AgentStep) :=
  match todo with
  | [] => Return (visited, reset_steps)
  | ew :: rest =>
      match replies with
      | [] => Pending
      | all_agent_infos :: replies' =>
          let '(hist, reset_steps') :=
            reset_infos all_agent_infos (previous_agent_steps ew) reset_steps in
          reset_collect (visited ++ [set_previous_agent_steps hist ew]) rest
            replies' reset_steps'
      end
  end.

(** [ew.send(name, payload)] for each handle of [ws]. *)
Definition commands_to (ws : list UnityEnvWorker) (name : string)
    (payload : Payload) : list (nat * EnvironmentCommand) :=
  (λ ew, (worker_id ew, {| cmd_name := name; cmd_payload := payload |})) <$> ws.

Record ResetResult : Type := {
  reset_self : SubprocessEnvManager;
  reset_sent : list (nat * EnvironmentCommand);
  reset_agent_steps : list AgentStep;
}.

Definition reset (self : SubprocessEnvManager)
    (config : option Z) (train_mode : bool) (custom_reset_parameters : option Z)
    (polls : list (option EnvironmentResponse))
    (replies : list (list AgentInfo)) : outcome ResetResult :=
  ws ← reset_drain polls (env_workers self);
  let sent :=
    commands_to ws "reset" (ResetPayload config train_mode custom_reset_parameters) in
  '(ws', reset_steps) ← reset_collect [] ws replies [];
  Return {| reset_self := set_env_workers ws' self; reset_sent := sent;
            reset_agent_steps := reset_steps |}.

(** *** The worker process

    [UnityEnvironment] is the environment a worker drives; it is imported
    from [mlagents.envs], so its operations are an interface here.
    [env_reset e None true None] is [env.reset()] with the defaults of its
    parameters. *)
Class UnityEnvironment (E : Type) : Type := {
  global_done : E → bool;
  env_reset : E → option Z → bool → option Z → E * list AgentInfo;
  env_step : E → PyDict.t pyval → PyDict.t pyval → PyDict.t pyval →
             PyDict.t pyval → E * list AgentInfo;
  external_brains : E → pyval;
  reset_parameters : E → pyval;
}.

(** What a worker writes: replies on its own pipe ([_send_response]) and
    results on the shared step queue. *)
Record WorkerOutput : Type := {
  to_parent : list (string * nat * Payload);
  to_step_queue : list EnvironmentResponse;
}.

Section worker.
Context {E : Type} `{UnityEnvironment E}.

(** The state of one worker process: its environment, its id, its timers,
    and whether its command loop is still running. *)
Record WorkerProc : Type := {
  proc_env : E;
  proc_worker_id : nat;
  proc_timers : TimerNode;
  proc_running : bool;
}.

Definition _send_response (p : WorkerProc) (cmd_name : string)
    (payload : Payload) : WorkerOutput :=
  {| to_parent := [(cmd_name, proc_worker_id p, payload)]; to_step_queue := [] |}.

Definition no_output : WorkerOutput := {| to_parent := []; to_step_queue := [] |}.

(** The end of the ["step"] branch: put the [StepResponse] on the step
    queue and reset the timers. *)
Definition put_step (p : WorkerProc) (env' : E) (all_agent_info : list AgentInfo)
    : WorkerProc * WorkerOutput :=
  ({| proc_env := env'; proc_worker_id := proc_worker_id p;
      proc_timers := 0%Z; proc_running := true |},
   {| to_parent := [];
      to_step_queue :=
        [{| resp_name := "step"; step_worker_id := proc_worker_id p;
            payload := {| all_agent_info := all_agent_info;
                          timer_root := Some (proc_timers p) |} |}] |}).

Definition with_env (p : WorkerProc) (env' : E) : WorkerProc :=
  {| proc_env := env'; proc_worker_id := proc_worker_id p;
     proc_timers := proc_timers p; proc_running := proc_running p |}.

Definition stopped (p : WorkerProc) : WorkerProc :=
  {| proc_env := proc_env p; proc_worker_id := proc_worker_id p;
     proc_timers := proc_timers p; proc_running := false |}.

(** One turn of the [while True] loop of [worker] on the command read from
    the pipe.  A payload of the wrong shape raises inside the loop, which
    ends the process without an answer; an unknown name is skipped. *)
Definition worker_command (p : WorkerProc) (cmd : EnvironmentCommand)
    : WorkerProc * WorkerOutput :=
  let env := proc_env p in
  if decide (cmd_name cmd = "step") then
    if global_done env then
      let '(env', all_agent_info) := env_reset env None true None in
      put_step p env' all_agent_info
    else
      match cmd_payload cmd with
      | ActionPayload all_action_info =>
          let actions := prod_map id action <$> all_action_info in
          let memories := prod_map id memory <$> all_action_info in
          let texts := prod_map id text <$> all_action_info in
          let values := prod_map id value <$> all_action_info in
          let '(env', all_agent_info) := env_step env actions memories texts values in
          put_step p env' all_agent_info
      | _ => (stopped p, no_output)
      end
  else if decide (cmd_name cmd = "external_brains") then
    (p, _send_response p "external_brains" (OtherPayload (external_brains env)))
  else if decide (cmd_name cmd = "reset_parameters") then
    (p, _send_response p "reset_parameters" (OtherPayload (reset_parameters env)))
  else if decide (cmd_name cmd = "reset") then
    match cmd_payload cmd with
    | ResetPayload config train_mode custom =>
        let '(env', all_agent_info) := env_reset env config train_mode custom in
        (with_env p env', _send_response p "reset" (InfoPayload all_agent_info))
    | _ => (stopped p, no_output)
    end
  else if decide (cmd_name cmd = "global_done") then
    (p, _send_response p "global_done" (BoolPayload (global_done env)))
  else if decide (cmd_name cmd = "close") then
    (stopped p, no_output)
  else (p, no_output).

End worker.
Arguments WorkerProc E : clear implicits.

(** *** The pool of processes as a transition system

    The manager, the workers, the pipes between them and the shared step
    queue, with one transition for each thing one of the processes does on
    its own.  [step] is [pool_queue_steps], then [pool_get_nowait] as often
    as the queue hands out a result, then [pool_postprocess]; [reset] is
    [pool_get_nowait] until nobody waits, [pool_send_reset] and
    [pool_reset_collect]; the two properties are [pool_send_query], [close]
    is [pool_send_close] and [set_policy] is [pool_set_policy]; the workers
    take their turns ([pool_worker]) at any moment in between.

    [steps_sent] and [steps_consumed] are not in the program: they count,
    per worker, the ["step"] commands the manager has written and the step
    results it has taken off the queue. *)
Section pool.
Context {E : Type} `{UnityEnvironment E}.

Record Pool : Type := {
  manager : SubprocessEnvManager;
  pipes : list (list EnvironmentCommand);
  procs : list (WorkerProc E);
  step_queue : list EnvironmentResponse;
  steps_sent : nat → nat;
  steps_consumed : nat → nat;
}.

Definition bump (i : nat) (f : nat → nat) : nat → nat :=
  λ j, if decide (j = i) then S (f j) else f j.

(** [env_worker.send]: the command goes to the end of that worker's pipe. *)
Definition deliver (sent : list (nat * EnvironmentCommand))
    (ps : list (list EnvironmentCommand)) : list (list EnvironmentCommand) :=
  foldl (λ ps '(i, cmd), alter (λ q, q ++ [cmd]) i ps) ps sent.

Definition is_step_command (cmd : EnvironmentCommand) : bool :=
  bool_decide (cmd_name cmd = "step").




(** [step = self.step_queue.get_nowait();
     self.env_workers[step.worker_id].waiting = False],
    the two lines shared by the loops of [step] and [reset]. *)
Definition get_nowait_update (step : EnvironmentResponse)
    (ws : list UnityEnvWorker) : option (list UnityEnvWorker) :=
  env_worker ← ws !! step_worker_id step;
  Some (<[step_worker_id step := set_waiting false env_worker]> ws).

Inductive pool_step : Pool → Pool → Prop :=
| pool_queue_steps σ self' sent :
    _queue_steps (manager σ) = Return (self', sent) →
    pool_step σ
      {| manager := self'; pipes := deliver sent (pipes σ); procs := procs σ;
         step_queue := step_queue σ;
         steps_sent := foldr bump (steps_sent σ) sent.*1;
         steps_consumed := steps_consumed σ |}
| pool_get_nowait σ step q ws' :
    step_queue σ = step :: q →
    get_nowait_update step (env_workers (manager σ)) = Some ws' →
    pool_step σ
      {| manager := set_env_workers ws' (manager σ); pipes := pipes σ;
         procs := procs σ; step_queue := q;
         steps_sent := steps_sent σ;
         steps_consumed := bump (step_worker_id step) (steps_consumed σ) |}
| pool_postprocess σ env_steps self' agent_steps :
    _postprocess_steps (manager σ) env_steps = Return (self', agent_steps) →
    pool_step σ
      {| manager := self'; pipes := pipes σ; procs := procs σ;
         step_queue := step_queue σ; steps_sent := steps_sent σ;
         steps_consumed := steps_consumed σ |}
| pool_send_reset σ config train_mode custom :
    existsb waiting (env_workers (manager σ)) = false →
    pool_step σ
      {| manager := manager σ;
         pipes := deliver (commands_to (env_workers (manager σ)) "reset"
                             (ResetPayload config train_mode custom)) (pipes σ);
         procs := procs σ; step_queue := step_queue σ;
         steps_sent := steps_sent σ; steps_consumed := steps_consumed σ |}
| pool_send_query σ name ew :
    name = "external_brains" ∨ name = "reset_parameters" →
    env_workers (manager σ) !! 0 = Some ew →
    pool_step σ
      {| manager := manager σ;
         pipes := deliver (commands_to [ew] name NoPayload) (pipes σ);
         procs := procs σ; step_queue := step_queue σ;
         steps_sent := steps_sent σ; steps_consumed := steps_consumed σ |}
| pool_send_close σ :
    pool_step σ
      {| manager := manager σ;
         pipes := deliver (commands_to (env_workers (manager σ)) "close" NoPayload)
                    (pipes σ);
         procs := procs σ; step_queue := step_queue σ;
         steps_sent := steps_sent σ; steps_consumed := steps_consumed σ |}
| pool_reset_collect σ replies ws' reset_steps :
    reset_collect [] (env_workers (manager σ)) replies [] = Return (ws', reset_steps) →
    pool_step σ
      {| manager := set_env_workers ws' (manager σ); pipes := pipes σ;
         procs := procs σ; step_queue := step_queue σ;
         steps_sent := steps_sent σ; steps_consumed := steps_consumed σ |}
| pool_set_policy σ b p :
    pool_step σ
      {| manager := {| env_workers := env_workers (manager σ);
                       previous_agent_action_infos :=
                         previous_agent_action_infos (manager σ);
                       policies := <[b := p]> (policies (manager σ)) |};
         pipes := pipes σ; procs := procs σ; step_queue := step_queue σ;
         steps_sent := steps_sent σ; steps_consumed := steps_consumed σ |}
| pool_worker σ i cmd rest p p' out :
    pipes σ !! i = Some (cmd :: rest) →
    procs σ !! i = Some p →
    proc_running p = true →
    worker_command p cmd = (p', out) →
    pool_step σ
      {| manager := manager σ; pipes := <[i := rest]> (pipes σ);
         procs := <[i := p']> (procs σ);
         step_queue := step_queue σ ++ to_step_queue out;
         steps_sent := steps_sent σ; steps_consumed := steps_consumed σ |}.


(** The pool after the manager has taken [items] off the queue, leaving
    [q] and the handles [ws']. *)
Definition pool_consumed (σ : Pool) (ws' : list UnityEnvWorker)
    (q items : list EnvironmentResponse) : Pool :=
  {| manager := set_env_workers ws' (manager σ); pipes := pipes σ;
     procs := procs σ; step_queue := q; steps_sent := steps_sent σ;
     steps_consumed :=
       foldl (λ f r, bump (step_worker_id r) f) (steps_consumed σ) items |}.

End pool.
Arguments Pool E : clear implicits.

(** *** Properties of handles and batches used in the statements *)

(** [step_workers] is the set of worker ids of [worker_steps], which holds
    each id once. *)
Definition seen_ok (worker_steps : list EnvironmentResponse)
    (step_workers : gset nat) : Prop :=
  NoDup (step_worker_id <$> worker_steps) ∧
  ∀ x, x ∈ step_workers ↔ x ∈ step_worker_id <$> worker_steps.

(** The flags are the only thing the drain changes in the handles. *)
Definition same_but_waiting (ws ws' : list UnityEnvWorker) : Prop :=
  worker_id <$> ws' = worker_id <$> ws ∧
  previous_agent_steps <$> ws' = previous_agent_steps <$> ws.

(** What [postprocess_infos] appends for one observation, given the record
    stored for its agent. *)
Definition new_step (acts : gmap string ActionInfo) (prev : AgentStep)
    (agent_info : AgentInfo) : AgentStep :=
  {| previous_agent_info := Some (current_agent_info prev);
     current_agent_info := agent_info;
     previous_action := acts !! agent_id agent_info |}.

(** Post-processing replaces stored records but neither adds an agent id to
    a history nor touches ids and flags. *)
Definition same_but_history (ws ws' : list UnityEnvWorker) : Prop :=
  length ws' = length ws ∧
  ∀ i w, ws !! i = Some w →
    ∃ w', ws' !! i = Some w' ∧ worker_id w' = worker_id w ∧
          waiting w' = waiting w ∧
          PyDict.keys (previous_agent_steps w') = PyDict.keys (previous_agent_steps w).

(** A batch holding an observation of an agent the worker has no record of. *)
Definition unseen (ws : list UnityEnvWorker) (step : EnvironmentResponse) : Prop :=
  ∃ w, ws !! step_worker_id step = Some w ∧
       Exists (λ i, PyDict.get (agent_id i) (previous_agent_steps w) = None)
         (all_agent_info (payload step)).


(** The results kept from one pass over the queue, as a function of what
    arrived: the first result of each worker not in [seen], in the order of
    arrival. *)
Fixpoint first_results (seen : gset nat) (items : list EnvironmentResponse)
    : list EnvironmentResponse :=
  match items with
  | [] => []
  | step :: rest =>
      if decide (step_worker_id step ∈ seen) then first_results seen rest
      else step :: first_results ({[step_worker_id step]} ∪ seen) rest
  end.

(** The observations of a list of batches, batch after batch. *)
Definition observations (env_steps : list EnvironmentResponse) : list AgentInfo :=
  concat ((all_agent_info ∘ payload) <$> env_steps).

(** The order the spec words for the records [step] returns: the batches
    taken by ascending worker id, each batch in the order of its
    observations. *)
Definition ascending_worker_order (r : StepResult) : Prop :=
  ∃ batches,
    batches ≡ₚ step_worker_steps r ∧
    StronglySorted (λ x y, step_worker_id x < step_worker_id y) batches ∧
    current_agent_info <$> step_agent_steps r = observations batches.

(** The record [reset] builds for an observation. *)
Definition reset_step (agent_info : AgentInfo) : AgentStep :=
  {| previous_agent_info := None;
     current_agent_info := agent_info;
     previous_action := None |}.

(** A record as [reset] stores it under agent id [k]. *)
Definition is_reset_record (k : string) (s : AgentStep) : Prop :=
  previous_agent_info s = None ∧ previous_action s = None ∧
  agent_id (current_agent_info s) = k.

Definition flags (w : UnityEnvWorker) : nat * bool := (worker_id w, waiting w).

(** Handles that agree on ids and flags. *)
Definition same_flags (ws ws' : list UnityEnvWorker) : Prop :=
  length ws' = length ws ∧
  ∀ i w, ws !! i = Some w →
    ∃ w', ws' !! i = Some w' ∧ worker_id w' = worker_id w ∧ waiting w' = waiting w.


(** The brain and the agent id of a stored record. *)
Definition step_brain (s : AgentStep) : string := brain_name (current_agent_info s).
Definition step_agent (s : AgentStep) : string := agent_id (current_agent_info s).

(** The agent ids a history holds records of. *)
Definition agent_ids (hist : PyDict.t AgentStep) : list string :=
  step_agent <$> PyDict.values hist.

(** The observations [_take_step] hands to the policy of brain [b]: those
    of the stored records of that brain, in the order of the history. *)
Definition brain_batch (hist : PyDict.t AgentStep) (b : string) : list AgentInfo :=
  current_agent_info <$> filter (λ s, step_brain s = b) (PyDict.values hist).

(** A history as the manager builds it: one entry per key, each record
    stored under the id of its agent. *)
Definition history_ok (hist : PyDict.t AgentStep) : Prop :=
  NoDup (PyDict.keys hist) ∧ Forall (λ kv, step_agent kv.2 = kv.1) hist.

(** The results the first loop of [reset] takes off the queue. *)
Fixpoint reset_consumed (polls : list (option EnvironmentResponse))
    (ws : list UnityEnvWorker) : list EnvironmentResponse :=
  if existsb waiting ws then
    match polls with
    | [] => []
    | None :: polls' => reset_consumed polls' ws
    | Some step :: polls' =>
        match ws !! step_worker_id step with
        | None => []
        | Some env_worker =>
            step :: reset_consumed polls'
                      (<[step_worker_id step := set_waiting false env_worker]> ws)
        end
    end
  else [].

(** *** The manager states a program can reach

    A fresh manager, and what [reset], [step] and [set_policy] make of a
    manager that was reached, whatever the workers deliver. *)
Inductive reachable : SubprocessEnvManager → Prop :=
| reachable_init n_env pol : reachable (init n_env pol)
| reachable_reset self config train_mode custom polls replies r :
    reachable self →
    reset self config train_mode custom polls replies = Return r →
    reachable (reset_self r)
| reachable_step self polls r :
    reachable self →
    step self polls = Return r →
    reachable (step_self r)
| reachable_set_policy self b p :
    reachable self →
    reachable {| env_workers := env_workers self;
                 previous_agent_action_infos := previous_agent_action_infos self;
                 policies := <[b := p]> (policies self) |}.

(** *** The command loop of [worker]

    [worker_loop p cmds] runs the [while True] loop on the commands [cmds]
    arriving on the pipe, until one ends the loop; it returns the process
    and everything written to the two channels, in order. *)
Definition join_output (o1 o2 : WorkerOutput) : WorkerOutput :=
  {| to_parent := to_parent o1 ++ to_parent o2;
     to_step_queue := to_step_queue o1 ++ to_step_queue o2 |}.

Fixpoint worker_loop `{UnityEnvironment E} (p : WorkerProc E)
    (cmds : list EnvironmentCommand) : WorkerProc E * WorkerOutput :=
  match cmds with
  | [] => (p, no_output)
  | cmd :: rest =>
      if proc_running p then
        let '(p', out) := worker_command p cmd in
        let '(p'', out') := worker_loop p' rest in
        (p'', join_output out out')
      else (p, no_output)
  end.

(** A command as the manager sends it: the payload has the shape its name
    calls for, and the name is not ["close"]. *)
Definition served (cmd : EnvironmentCommand) : Prop :=
  match cmd_payload cmd with
  | ActionPayload _ => cmd_name cmd = "step"
  | ResetPayload _ _ _ => cmd_name cmd = "reset"
  | NoPayload => cmd_name cmd = "external_brains" ∨
                 cmd_name cmd = "reset_parameters" ∨
                 cmd_name cmd = "global_done"
  | _ => False
  end.

(** [sliced idx v v']: [v'] is what the loop of [get_per_agent_outputs]
    stores for the value [v] and the agent at [idx]. *)
Definition sliced (idx : nat) (v v' : pyval) : Prop :=
  match v with
  | PySeq l => l !! idx = Some v'
  | PyDict d => ∃ r, v' = PyDict r ∧ get_per_agent_outputs d idx = Return r
  | PyNone | PyNum _ => v' = v
  end.

(** *** Concrete pools for the examples *)

(** A policy whose action for an agent is the number the agent observed. *)
Definition echo_policy : Policy :=
  {| get_action := λ agent_infos,
       {| action := PySeq ((PyNum ∘ observation) <$> agent_infos);
          memory := PyNone; text := PyNone; value := PyNone; outputs := [] |} |}.

Definition agent (i : string) (o : Z) : AgentInfo :=
  {| agent_id := i; brain_name := "Brain"; observation := o |}.

Definition batch (w : nat) (infos : list AgentInfo) : EnvironmentResponse :=
  {| resp_name := "step"; step_worker_id := w;
     payload := {| all_agent_info := infos; timer_root := None |} |}.

(** The manager after a [reset] answered with [replies]. *)
Definition after_reset (self : SubprocessEnvManager)
    (replies : list (list AgentInfo)) : SubprocessEnvManager :=
  match reset self None true None [] replies with
  | Return r => reset_self r
  | _ => self
  end.

(** Two workers, with agents "a0" and "b0" in the first and "a1" in the
    second. *)
Definition two_workers : SubprocessEnvManager :=
  after_reset (init 2 {["Brain" := echo_policy]})
    [[agent "a0" 10; agent "b0" 11]; [agent "a1" 20]].

(** Two workers whose environments both call their agent "a". *)
Definition same_agent_ids : SubprocessEnvManager :=
  after_reset (init 2 {["Brain" := echo_policy]})
    [[agent "a" 10]; [agent "a" 20]].

(** One worker with one agent. *)
Definition one_worker : SubprocessEnvManager :=
  after_reset (init 1 {["Brain" := echo_policy]}) [[agent "a0" 10]].

(** An environment that reports [global_done] and whose reset shows
    observation 0 for agent "a0". *)
Definition finished_env : UnityEnvironment unit :=
  {| global_done := λ _, true;
     env_reset := λ e _ _ _, (e, [agent "a0" 0]);
     env_step := λ e _ _ _ _, (e, [agent "a0" 11]);
     external_brains := λ _, PyNone;
     reset_parameters := λ _, PyNone |}.

Definition finished_worker : WorkerProc unit :=
  {| proc_env := (); proc_worker_id := 0; proc_timers := 0%Z; proc_running := true |}.

(** The batch a worker answers a ["step"] command with when its
    environment reports [global_done]: the observations of [env.reset()]. *)
Definition reset_batch {E} `{UnityEnvironment E} (p : WorkerProc E)
    : EnvironmentResponse :=
  {| resp_name := "step"; step_worker_id := proc_worker_id p;
     payload := {| all_agent_info := (env_reset (proc_env p) None true None).2;
                   timer_root := Some (proc_timers p) |} |}.

(** The ["step"] command [echo_policy] produces for one agent "a" that
    observed [o]. *)
Definition step_command (o : Z) : EnvironmentCommand :=
  {| cmd_name := "step";
     cmd_payload := ActionPayload [("Brain", get_action echo_policy [agent "a" o])] |}.

(** The per-agent slice of an action batch of [echo_policy] that is the
    number [o]. *)
Definition echo_slice (o : Z) : ActionInfo :=
  {| action := PyNum o; memory := PyNone; text := PyNone; value := PyNone;
     outputs := [] |}.


(** *** More concrete data for the examples *)

(** The handle of worker 0 of [two_workers]. *)
Definition first_worker : UnityEnvWorker :=
  {| worker_id := 0;
     previous_agent_steps := [("a0", reset_step (agent "a0" 10));
                              ("b0", reset_step (agent "b0" 11))];
     waiting := false |}.

(** The [outputs] of a policy for a batch of two agents. *)
Definition example_outputs : list (string * pyval) :=
  [("probs", PySeq [PyNum 1; PyNum 2]);
   ("learning_rate", PyNum 3);
   ("heads", PyDict [("entropy", PySeq [PyNum 5; PyNum 6])])].

Definition close_command : EnvironmentCommand :=
  {| cmd_name := "close"; cmd_payload := NoPayload |}.

Definition global_done_query : EnvironmentCommand :=
  {| cmd_name := "global_done"; cmd_payload := NoPayload |}.

End SubprocessEnv.

(** * The control loop: [trainer_controller.py] *)
Module TrainerCtl.
Import SubprocessEnv.

Local Open Scope Z_scope.

(** The learner capability.  [Trainer] is imported from
    [mlagents.trainers]; these are the attributes and methods the
    controller uses, each method as the change it makes to the trainer. *)
Class Trainer (T : Type) : Type := {
  get_step : T → Z;
  get_max_steps : T → Z;
  add_experiences : AgentStep → T → T;
  process_experiences : AgentStep → T → T;
  end_episode : T → T;
  increment_step : Z → T → T;
  is_ready_update : T → bool;
  update_policy : T → T;
  policy : T → Policy;
  clear_reward_buffer : T → T;
  save_model : T → T;
  write_summary : Z → T → T;
}.

(** The [EnvManager] the controller drives; [SubprocessEnvManager] is one.
    What the workers will deliver is part of the manager's state [M]. *)
Class EnvManager (M : Type) : Type := {
  env_step : M → outcome (M * list AgentStep);
  env_reset : option Z → bool → M → outcome (M * list AgentStep);
  num_env_steps_returned : M → Z;
  set_policy : string → Policy → M → M;
}.

(** [MetaCurriculum], imported from [mlagents.trainers.meta_curriculum].
    [increment_lessons] stands for the call together with the measures
    [_get_measure_vals] and the buffer sizes computed from the trainers,
    which are floating-point means and ratios. *)
Class MetaCurriculum (C T : Type) : Type := {
  increment_lessons : C → PyDict.t T → C * PyDict.t bool;
  get_config : C → option Z;
}.

Section controller.
Context {T M C : Type} `{Trainer T} `{EnvManager M} `{MetaCurriculum C T}.

(** The fields of [TrainerController] the loop reads and writes. *)
Record TrainerController : Type := {
  trainers : PyDict.t T;
  meta_curriculum : option C;
  train_model : bool;
  save_freq : Z;
  fast_simulation : bool;
}.

Definition set_trainers (ts : PyDict.t T) (self : TrainerController)
    : TrainerController :=
  {| trainers := ts; meta_curriculum := meta_curriculum self;
     train_model := train_model self; save_freq := save_freq self;
     fast_simulation := fast_simulation self |}.

Definition set_meta_curriculum (c : option C) (self : TrainerController)
    : TrainerController :=
  {| trainers := trainers self; meta_curriculum := c;
     train_model := train_model self; save_freq := save_freq self;
     fast_simulation := fast_simulation self |}.

(** [for brain_name, trainer in self.trainers.items(): f(trainer)] *)
Definition each_trainer (f : T → T) (ts : PyDict.t T) : PyDict.t T :=
  prod_map id f <$> ts.

(** [_save_model] *)
Definition _save_model (self : TrainerController) : TrainerController :=
  set_trainers (each_trainer save_model (trainers self)) self.

(** [_reset_env] *)
Definition _reset_env (self : TrainerController) (env : M)
    : outcome (M * list AgentStep) :=
  match meta_curriculum self with
  | Some c => env_reset (get_config c) (fast_simulation self) env
  | None => env_reset None (fast_simulation self) env
  end.

(** [_should_save_model] *)
Definition _should_save_model (self : TrainerController) (global_step : Z)
    : outcome bool :=
  if decide (save_freq self = 0) then Raise ZeroDivisionError
  else Return (bool_decide (global_step mod save_freq self = 0)
               && negb (bool_decide (global_step = 0))
               && train_model self).

(** [_not_done_training] *)
Definition _not_done_training (self : TrainerController) : bool :=
  existsb (λ kt, bool_decide (get_step kt.2 ≤ get_max_steps kt.2)) (trainers self)
  || negb (train_model self).

(** [write_to_tensorboard] *)
Definition write_to_tensorboard (self : TrainerController) (global_step : Z)
    : TrainerController :=
  set_trainers (each_trainer (write_summary global_step) (trainers self)) self.

(** *** [advance] *)

(** [for brain_name, changed in lessons_incremented.items()] *)
Fixpoint clear_changed (lessons_incremented : list (string * bool))
    (ts : PyDict.t T) : outcome (PyDict.t T) :=
  match lessons_incremented with
  | [] => Return ts
  | (b, changed) :: rest =>
      if changed then
        match PyDict.get b ts with
        | Some t => clear_changed rest (PyDict.set b (clear_reward_buffer t) ts)
        | None => Raise KeyError
        end
      else clear_changed rest ts
  end.

(** The [if self.meta_curriculum:] block. *)
Definition advance_curriculum (self : TrainerController) (env : M)
    : outcome (TrainerController * M) :=
  match meta_curriculum self with
  | None => Return (self, env)
  | Some c =>
      let '(c', lessons_incremented) := increment_lessons c (trainers self) in
      let self := set_meta_curriculum (Some c') self in
      if existsb snd lessons_incremented then
        '(env', _) ← _reset_env self env;
        ts ← clear_changed lessons_incremented
                (each_trainer end_episode (trainers self));
        Return (set_trainers ts self, env')
      else Return (self, env)
  end.

(** The inner loop of the dispatch, for one [agent_step]:
    [for brain_name, trainer in self.trainers.items()]. *)
Definition dispatch_step (agent_step : AgentStep) (ts : PyDict.t T) : PyDict.t T :=
  each_trainer (λ trainer, process_experiences agent_step
                             (add_experiences agent_step trainer)) ts.

(** [for agent_step in new_agent_steps] *)
Definition dispatch_experiences (new_agent_steps : list AgentStep)
    (ts : PyDict.t T) : PyDict.t T :=
  foldl (λ ts agent_step, dispatch_step agent_step ts) ts new_agent_steps.

(** The last loop of [advance]: step counters and policy updates. *)
Fixpoint update_trainers (train : bool) (new_env_steps : Z)
    (items : list (string * T)) (env : M) : list (string * T) * M :=
  match items with
  | [] => ([], env)
  | (b, trainer) :: rest =>
      let '(trainer', env') :=
        if train && bool_decide (get_step trainer ≤ get_max_steps trainer) then
          let trainer := increment_step new_env_steps trainer in
          if is_ready_update trainer then
            let trainer := update_policy trainer in
            (trainer, set_policy b (policy trainer) env)
          else (trainer, env)
        else (trainer, env) in
      let '(rest', env'') := update_trainers train new_env_steps rest env' in
      ((b, trainer') :: rest', env'')
  end.

Definition advance (self : TrainerController) (env : M)
    : outcome (TrainerController * M * Z) :=
  '(self, env) ← advance_curriculum self env;
  '(env, new_agent_steps) ← env_step env;
  let new_env_steps := num_env_steps_returned env in
  let ts := dispatch_experiences new_agent_steps (trainers self) in
  let '(ts, env) := update_trainers (train_model self) new_env_steps ts env in
  Return (set_trainers ts self, env, new_env_steps).

(** *** The loop of [start_learning] *)

(** [for i in range(n_steps)] *)
Fixpoint count_steps (n : nat) (self : TrainerController) (global_step : Z)
    : outcome (TrainerController * Z) :=
  match n with
  | O => Return (self, global_step)
  | S n' =>
      let global_step := global_step + 1 in
      save ← _should_save_model self global_step;
      let self := if (save : bool) then _save_model self else self in
      count_steps n' (write_to_tensorboard self global_step) global_step
  end.

(** [while self._not_done_training()]; [fuel] bounds the number of turns
    looked at, and the answer is [Pending] when the loop is still running
    after that many. *)
Fixpoint learning_loop (fuel : nat) (self : TrainerController) (env : M)
    (global_step : Z) : outcome (TrainerController * M * Z) :=
  if _not_done_training self then
    match fuel with
    | O => Pending
    | S fuel' =>
        '(self, env, n_steps) ← advance self env;
        '(self, global_step) ← count_steps (Z.to_nat n_steps) self global_step;
        learning_loop fuel' self env global_step
    end
  else Return (self, env, global_step).

(** The body of the [try] of [start_learning], from [_reset_env] on. *)
Definition learn (fuel : nat) (self : TrainerController) (env : M)
    : outcome (TrainerController * M * Z) :=
  '(env, _) ← _reset_env self env;
  '(self, env, global_step) ← learning_loop fuel self env 0;
  if negb (bool_decide (global_step = 0)) && train_model self
  then Return (_save_model self, env, global_step)
  else Return (self, env, global_step).

End controller.
Arguments TrainerController T C : clear implicits.

(** *** Concrete learners and environments for the examples *)

Inductive Call : Type :=
| AddExperiences (s : AgentStep)
| ProcessExperiences (s : AgentStep)
| EndEpisode
| IncrementStep (n : Z)
| UpdatePolicy
| ClearRewardBuffer
| SaveModel
| WriteSummary (global_step : Z).

(** A learner that writes down the calls it receives and counts its
    steps. *)
Record Recorder : Type := {
  calls : list Call;
  step_count : Z;
  max_steps : Z;
}.

Definition record_call (c : Call) (t : Recorder) : Recorder :=
  {| calls := calls t ++ [c]; step_count := step_count t; max_steps := max_steps t |}.

#[export] Instance recorder_trainer : Trainer Recorder :=
  {| get_step := step_count;
     get_max_steps := max_steps;
     add_experiences := λ s, record_call (AddExperiences s);
     process_experiences := λ s, record_call (ProcessExperiences s);
     end_episode := record_call EndEpisode;
     increment_step := λ n t,
       {| calls := calls t ++ [IncrementStep n]; step_count := step_count t + n;
          max_steps := max_steps t |};
     is_ready_update := λ _, false;
     update_policy := record_call UpdatePolicy;
     policy := λ _, echo_policy;
     clear_reward_buffer := record_call ClearRewardBuffer;
     save_model := record_call SaveModel;
     write_summary := λ g, record_call (WriteSummary g) |}.

(** An environment manager that returns the batches of a script, one per
    call of [step], and counts one environment step per call. *)
#[export] Instance scripted_env : EnvManager (list (list AgentStep)) :=
  {| env_step := λ m, match m with
                      | [] => Return ([], [])
                      | steps :: rest => Return (rest, steps)
                      end;
     env_reset := λ _ _ m, Return (m, []);
     num_env_steps_returned := λ _, 1;
     set_policy := λ _ _ m, m |}.

#[export] Instance no_curriculum : MetaCurriculum unit Recorder :=
  {| increment_lessons := λ c _, (c, []); get_config := λ _, None |}.

Definition new_recorder (step max : Z) : Recorder :=
  {| calls := []; step_count := step; max_steps := max |}.

(** A record of an agent of brain "A". *)
Definition record_of_A : AgentStep :=
  {| previous_agent_info := None;
     current_agent_info := {| agent_id := "a"; brain_name := "A"; observation := 1 |};
     previous_action := None |}.

(** A controller with a learner for brain "A" and one for brain "B". *)
Definition two_brains (train : bool) : TrainerController Recorder unit :=
  {| trainers := [("A", new_recorder 0 5); ("B", new_recorder 0 5)];
     meta_curriculum := None; train_model := train; save_freq := 100;
     fast_simulation := true |}.



End TrainerCtl.


(** * Construction of the trainers: [initialize_trainers] *)
Module TrainerInit.

(** The exceptions [initialize_trainers] can raise: [KeyError] from a
    subscript, [AttributeError] from [.copy()] on a value that is not a
    dict, and the [UnityEnvironmentException] of its last branch. *)
Inductive init_exn : Set :=
| ConfigKeyError
| ConfigAttributeError
| UnityEnvironmentException (brain_name : string).

(** [Done a]: the call returned [a].  [Fails e]: it raised [e].
    [Unfinished]: the [while] loop over the aliases is still running after
    the number of turns looked at. *)
Inductive attempt (A : Type) : Type :=
| Done (a : A)
| Fails (e : init_exn)
| Unfinished.
Arguments Done {A} a.
Arguments Fails {A} e.
Arguments Unfinished {A}.

#[export] Instance attempt_ret : MRet attempt := @Done.
#[export] Instance attempt_bind : MBind attempt := λ A B f mx,
  match mx with
  | Done a => f a
  | Fails e => Fails e
  | Unfinished => Unfinished
  end.

(** A hyperparameter value: a string, or a number standing for every
    value that is not a string. *)
Inductive param : Set :=
| PStr (s : string)
| PNum (z : Z).

#[export] Instance param_eq_dec : EqDecision param.
Proof. solve_decision. Defined.

(** A value of [trainer_config]: a section of hyperparameters, the name of
    another entry, or a number standing for the values that are neither;
    the keys of [trainer_config] are strings. *)
Inductive config_value : Type :=
| CfgDict (d : PyDict.t param)
| CfgStr (s : string)
| CfgNum (z : Z).

(** [BrainParameters] is opaque to the controller. *)
Definition BrainParameters : Type := Z.

Inductive trainer_kind : Set := OfflineBCTrainer | OnlineBCTrainer | PPOTrainer.

#[export] Instance trainer_kind_eq_dec : EqDecision trainer_kind.
Proof. solve_decision. Defined.

(** A trainer, as the constructor call that made it. *)
Record NewTrainer : Type := {
  kind : trainer_kind;
  arg_brain : BrainParameters;
  arg_reward_buff_cap : option Z;
  arg_trainer_parameters : PyDict.t param;
  arg_training : bool;
  arg_load : bool;
  arg_seed : Z;
  arg_run_id : string;
}.

(** The fields of [TrainerController] that [initialize_trainers] reads and
    writes; [meta_curriculum] as the [min_lesson_length] of the curriculum
    of each brain. *)
Record TrainerController : Type := {
  model_path : string;
  summaries_dir : string;
  run_id : string;
  load_model : bool;
  train_model : bool;
  keep_checkpoints : Z;
  trainers : PyDict.t NewTrainer;
  trainer_metrics : PyDict.t NewTrainer;
  meta_curriculum : option (PyDict.t Z);
  seed : Z;
}.

Definition set_trainer (brain_name : string) (t : NewTrainer)
    (self : TrainerController) : TrainerController :=
  {| model_path := model_path self; summaries_dir := summaries_dir self;
     run_id := run_id self; load_model := load_model self;
     train_model := train_model self; keep_checkpoints := keep_checkpoints self;
     trainers := PyDict.set brain_name t (trainers self);
     trainer_metrics := trainer_metrics self;
     meta_curriculum := meta_curriculum self; seed := seed self |}.

Definition set_trainer_metrics (brain_name : string) (t : NewTrainer)
    (self : TrainerController) : TrainerController :=
  {| model_path := model_path self; summaries_dir := summaries_dir self;
     run_id := run_id self; load_model := load_model self;
     train_model := train_model self; keep_checkpoints := keep_checkpoints self;
     trainers := trainers self;
     trainer_metrics := PyDict.set brain_name t (trainer_metrics self);
     meta_curriculum := meta_curriculum self; seed := seed self |}.

(** [d[k]] *)
Definition getitem {V} (k : string) (d : PyDict.t V) : attempt V :=
  match PyDict.get k d with
  | Some v => Done v
  | None => Fails ConfigKeyError
  end.

(** [d.update(other)] *)
Definition update {V} (d other : PyDict.t V) : PyDict.t V :=
  foldl (λ d kv, PyDict.set kv.1 kv.2 d) d other.

(** ["{basedir}/{name}".format(basedir=basedir, name=name)] *)
Definition format_path (basedir name : string) : string :=
  basedir +:+ "/" +:+ name.

(** [while not isinstance(trainer_config[_brain_key], dict):
       _brain_key = trainer_config[_brain_key]]
    followed by [trainer_config[_brain_key]].  A number taken as the next
    key is the key of no entry. *)
Fixpoint resolve_alias (fuel : nat) (trainer_config : PyDict.t config_value)
    (_brain_key : string) : attempt (PyDict.t param) :=
  match PyDict.get _brain_key trainer_config with
  | None => Fails ConfigKeyError
  | Some (CfgDict d) => Done d
  | Some (CfgNum _) => Fails ConfigKeyError
  | Some (CfgStr s) =>
      match fuel with
      | O => Unfinished
      | S fuel' => resolve_alias fuel' trainer_config s
      end
  end.

(** The body of the first loop: the parameters of one brain. *)
Definition brain_parameters (fuel : nat) (self : TrainerController)
    (trainer_config : PyDict.t config_value) (brain_name : string)
    : attempt (PyDict.t param) :=
  default ← getitem "default" trainer_config;
  match default with
  | CfgDict trainer_parameters =>
      let trainer_parameters :=
        PyDict.set "summary_path"
          (PStr (format_path (summaries_dir self) (run_id self +:+ "_" +:+ brain_name)))
          trainer_parameters in
      let trainer_parameters :=
        PyDict.set "model_path" (PStr (format_path (model_path self) brain_name))
          trainer_parameters in
      let trainer_parameters :=
        PyDict.set "keep_checkpoints" (PNum (keep_checkpoints self))
          trainer_parameters in
      match PyDict.get brain_name trainer_config with
      | Some _ =>
          section ← resolve_alias fuel trainer_config brain_name;
          Done (update trainer_parameters section)
      | None => Done trainer_parameters
      end
  | CfgStr _ | CfgNum _ => Fails ConfigAttributeError
  end.

(** The first loop: [trainer_parameters_dict]. *)
Fixpoint parameters_loop (fuel : nat) (self : TrainerController)
    (trainer_config : PyDict.t config_value) (brain_names : list string)
    (trainer_parameters_dict : PyDict.t (PyDict.t param))
    : attempt (PyDict.t (PyDict.t param)) :=
  match brain_names with
  | [] => Done trainer_parameters_dict
  | brain_name :: rest =>
      trainer_parameters ← brain_parameters fuel self trainer_config brain_name;
      parameters_loop fuel self trainer_config rest
        (PyDict.set brain_name trainer_parameters trainer_parameters_dict)
  end.

(** The arguments every constructor call shares. *)
Definition new_trainer (self : TrainerController) (k : trainer_kind)
    (brain : BrainParameters) (reward_buff_cap : option Z)
    (trainer_parameters : PyDict.t param) : NewTrainer :=
  {| kind := k; arg_brain := brain; arg_reward_buff_cap := reward_buff_cap;
     arg_trainer_parameters := trainer_parameters;
     arg_training := train_model self; arg_load := load_model self;
     arg_seed := seed self; arg_run_id := run_id self |}.

(** [self.meta_curriculum.brains_to_curriculums[brain_name].min_lesson_length
     if self.meta_curriculum else 1] *)
Definition reward_buff_cap_of (self : TrainerController) (brain_name : string)
    : attempt Z :=
  match meta_curriculum self with
  | Some brains_to_curriculums => getitem brain_name brains_to_curriculums
  | None => Done 1%Z
  end.

(** The body of the second loop: the trainer of one brain. *)
Definition create_trainer (self : TrainerController)
    (external_brains : PyDict.t BrainParameters)
    (trainer_parameters_dict : PyDict.t (PyDict.t param)) (brain_name : string)
    : attempt TrainerController :=
  trainer_parameters ← getitem brain_name trainer_parameters_dict;
  trainer ← getitem "trainer" trainer_parameters;
  if decide (trainer = PStr "offline_bc") then
    brain ← getitem brain_name external_brains;
    Done (set_trainer brain_name
            (new_trainer self OfflineBCTrainer brain None trainer_parameters) self)
  else if decide (trainer = PStr "online_bc") then
    brain ← getitem brain_name external_brains;
    Done (set_trainer brain_name
            (new_trainer self OnlineBCTrainer brain None trainer_parameters) self)
  else if decide (trainer = PStr "ppo") then
    brain ← getitem brain_name external_brains;
    reward_buff_cap ← reward_buff_cap_of self brain_name;
    let t := new_trainer self PPOTrainer brain (Some reward_buff_cap)
               trainer_parameters in
    Done (set_trainer_metrics brain_name t (set_trainer brain_name t self))
  else Fails (UnityEnvironmentException brain_name).

(** The second loop. *)
Fixpoint trainers_loop (self : TrainerController)
    (external_brains : PyDict.t BrainParameters)
    (trainer_parameters_dict : PyDict.t (PyDict.t param))
    (brain_names : list string) : attempt TrainerController :=
  match brain_names with
  | [] => Done self
  | brain_name :: rest =>
      self ← create_trainer self external_brains trainer_parameters_dict brain_name;
      trainers_loop self external_brains trainer_parameters_dict rest
  end.

(** [initialize_trainers] *)
Definition initialize_trainers (fuel : nat) (self : TrainerController)
    (trainer_config : PyDict.t config_value)
    (external_brains : PyDict.t BrainParameters) : attempt TrainerController :=
  trainer_parameters_dict ←
    parameters_loop fuel self trainer_config (PyDict.keys external_brains) [];
  trainers_loop self external_brains trainer_parameters_dict
    (PyDict.keys external_brains).

(** *** What the functions are compared with *)

(** One turn of the [while] loop: the entry under [k] names [k']. *)
Definition alias_of (trainer_config : PyDict.t config_value) (k k' : string) : Prop :=
  PyDict.get k trainer_config = Some (CfgStr k').

(** The name of a trainer type in the configuration. *)
Definition kind_name (k : trainer_kind) : string :=
  match k with
  | OfflineBCTrainer => "offline_bc"
  | OnlineBCTrainer => "online_bc"
  | PPOTrainer => "ppo"
  end.

(** The [reward_buff_cap] argument of a trainer of kind [k]. *)
Definition reward_buff_cap_arg (self : TrainerController) (brain_name : string)
    (k : trainer_kind) (cap : option Z) : Prop :=
  match k with
  | PPOTrainer => ∃ c, reward_buff_cap_of self brain_name = Done c ∧ cap = Some c
  | OfflineBCTrainer | OnlineBCTrainer => cap = None
  end.

(** What [create_trainer] leaves of the controller. *)
Definition same_settings (self self' : TrainerController) : Prop :=
  model_path self' = model_path self ∧ summaries_dir self' = summaries_dir self ∧
  run_id self' = run_id self ∧ load_model self' = load_model self ∧
  train_model self' = train_model self ∧
  keep_checkpoints self' = keep_checkpoints self ∧
  meta_curriculum self' = meta_curriculum self ∧ seed self' = seed self.

(** The three entries computed for a brain. *)
Definition computed_parameter (self : TrainerController) (brain_name k : string)
    : option param :=
  if decide (k = "keep_checkpoints") then Some (PNum (keep_checkpoints self))
  else if decide (k = "model_path")
  then Some (PStr (format_path (model_path self) brain_name))
  else if decide (k = "summary_path")
  then Some (PStr (format_path (summaries_dir self)
                     (run_id self +:+ "_" +:+ brain_name)))
  else None.

(** *** A configuration for the examples *)

Definition example_config : PyDict.t config_value :=
  [("default", CfgDict [("trainer", PStr "ppo"); ("batch_size", PNum 1024);
                        ("model_path", PStr "elsewhere")]);
   ("Striker", CfgDict [("trainer", PStr "online_bc"); ("batch_size", PNum 64);
                        ("summary_path", PStr "custom")]);
   ("Goalie", CfgStr "Keeper");
   ("Keeper", CfgStr "Striker");
   ("Ping", CfgStr "Pong");
   ("Pong", CfgStr "Ping");
   ("Odd", CfgDict [("trainer", PStr "sac")])].

Definition example_controller : TrainerController :=
  {| model_path := "./models/run1"; summaries_dir := "./summaries";
     run_id := "run1"; load_model := false; train_model := true;
     keep_checkpoints := 5; trainers := []; trainer_metrics := [];
     meta_curriculum := None; seed := 0 |}.

Definition example_brains : PyDict.t BrainParameters :=
  [("Striker", 1%Z); ("Goalie", 2%Z); ("Defender", 3%Z)].

End TrainerInit.
(** * Facts

    Decidable facts about concrete data are settled by evaluation. *)
Ltac by_computation := apply (bool_decide_unpack _); vm_compute; exact I.

(** * Facts about dictionaries *)
Module PyDictFacts.
Import PyDict.
Section dict.
Context {V : Type}.
Implicit Types (d : PyDict.t V) (k : string) (v : V).

Lemma get_set_eq k v d : get k (set k v d) = Some v.
Proof.
  induction d as [|[k' v'] d IH]; simpl.
  - by rewrite decide_True.
  - destruct (decide (k = k')) as [->|Hne]; simpl.
    + by rewrite decide_True.
    + by rewrite decide_False.
Qed.

Lemma get_set_ne k k' v d : k ≠ k' → get k' (set k v d) = get k' d.
Proof.
  intros Hne. induction d as [|[k0 v0] d IH]; simpl.
  - by rewrite decide_False.
  - destruct (decide (k = k0)) as [->|Hne0]; simpl.
    + by rewrite !decide_False.
    + destruct (decide (k' = k0)); [done | apply IH].
Qed.

Lemma keys_set_present k v d :
  is_Some (get k d) → keys (set k v d) = keys d.
Proof.
  unfold keys. induction d as [|[k' v'] d IH]; simpl.
  - intros [? ?]; discriminate.
  - destruct (decide (k = k')) as [->|Hne]; simpl; [done|].
    intros Hs. f_equal. by apply IH.
Qed.

Lemma elem_of_keys_get k d : k ∈ keys d ↔ is_Some (get k d).
Proof.
  unfold keys. induction d as [|[k' v'] d IH]; simpl.
  - split; [by intros ?%elem_of_nil | by intros [? ?]].
  - rewrite elem_of_cons. destruct (decide (k = k')) as [->|Hne].
    + split; [eauto | by left].
    + rewrite <- IH. split; [intros [?|?]; done | by right].
Qed.

Lemma get_Some_elem_of k v d : get k d = Some v → (k, v) ∈ d.
Proof.
  induction d as [|[k' v'] d IH]; simpl; [done|].
  destruct (decide (k = k')) as [->|Hne].
  - intros [= ->]. apply elem_of_cons; by left.
  - intros H. apply elem_of_cons; right; auto.
Qed.

Lemma get_None_keys k d : get k d = None ↔ k ∉ keys d.
Proof. rewrite elem_of_keys_get, <- eq_None_not_Some. done. Qed.

Lemma get_set_None k k0 v d :
  is_Some (get k0 d) → get k (set k0 v d) = None ↔ get k d = None.
Proof. intros Hs. by rewrite !get_None_keys, keys_set_present. Qed.

Lemma get_same_keys {W} k d (d' : PyDict.t W) :
  keys d = PyDict.keys d' → get k d = None ↔ PyDict.get k d' = None.
Proof.
  intros Hk. rewrite get_None_keys, Hk.
  unfold PyDict.keys. clear Hk. induction d' as [|[k' v'] d' IH]; simpl.
  - split; [done | intros _ ?%elem_of_nil; done].
  - rewrite not_elem_of_cons. destruct (decide (k = k')) as [->|Hne].
    + split; [by intros [? _] | done].
    + rewrite IH. split; [by intros [_ ?] | done].
Qed.

Lemma keys_set_absent k v d :
  get k d = None → keys (set k v d) = keys d ++ [k].
Proof.
  unfold keys. induction d as [|[k' v'] d IH]; simpl; [done|].
  destruct (decide (k = k')) as [->|Hne]; [discriminate|].
  intros Hn. simpl. f_equal. by apply IH.
Qed.

Lemma NoDup_keys_set k v d : NoDup (keys d) → NoDup (keys (set k v d)).
Proof.
  intros Hnd. destruct (get k d) as [x|] eqn:Hget.
  - rewrite keys_set_present; [done | by rewrite Hget].
  - rewrite keys_set_absent by done. apply NoDup_app. split; [done|]. split.
    + intros x Hx Hx'. apply list_elem_of_singleton in Hx' as ->.
      by apply get_None_keys in Hget.
    + apply NoDup_singleton.
Qed.

Lemma elem_of_get k v d : NoDup (keys d) → (k, v) ∈ d → get k d = Some v.
Proof.
  unfold keys. induction d as [|[k' v'] d IH]; simpl; intros Hnd Hin;
    [by apply elem_of_nil in Hin|].
  apply NoDup_cons in Hnd as [Hk Hnd].
  apply elem_of_cons in Hin as [Heq|Hin].
  - injection Heq as <- <-. by rewrite decide_True.
  - destruct (decide (k = k')) as [->|Hne]; [|by apply IH].
    exfalso. apply Hk. by apply (list_elem_of_fmap_2 fst _ (k', v)).
Qed.

Lemma set_absent k v d : get k d = None → set k v d = d ++ [(k, v)].
Proof.
  induction d as [|[k' v'] d IH]; simpl; [done|].
  destruct (decide (k = k')) as [->|Hne]; [discriminate|].
  intros Hn. by rewrite IH.
Qed.

End dict.
End PyDictFacts.

(** * Facts about the environment manager *)
Module SubprocessEnvFacts.
Import SubprocessEnv PyDictFacts.

(** ** Collecting results: [drain_step_queue] and [poll_step_queue] *)

Lemma seen_ok_nil : seen_ok [] ∅.
Proof. split; [constructor | intros x; set_solver]. Qed.

Lemma seen_ok_snoc acc sw step :
  seen_ok acc sw → step_worker_id step ∉ sw →
  seen_ok (acc ++ [step]) ({[step_worker_id step]} ∪ sw).
Proof.
  intros [Hnd Hsw] Hnotin. split.
  - rewrite fmap_app. apply NoDup_app. split; [done|]. split.
    + intros x Hx Hx'. apply list_elem_of_singleton in Hx' as ->.
      by apply Hnotin, Hsw.
    + apply NoDup_singleton.
  - intros x. rewrite fmap_app, elem_of_app, elem_of_union, elem_of_singleton.
    simpl. rewrite list_elem_of_singleton, Hsw. tauto.
Qed.

Lemma same_but_waiting_refl ws : same_but_waiting ws ws.
Proof. by split. Qed.

Lemma same_but_waiting_trans ws1 ws2 ws3 :
  same_but_waiting ws1 ws2 → same_but_waiting ws2 ws3 → same_but_waiting ws1 ws3.
Proof. intros [? ?] [? ?]. split; congruence. Qed.

Lemma same_but_waiting_insert ws i w b :
  ws !! i = Some w → same_but_waiting ws (<[i := set_waiting b w]> ws).
Proof.
  intros Hw. split; rewrite list_fmap_insert; simpl; apply list_insert_id;
    by rewrite list_lookup_fmap, Hw.
Qed.

Lemma same_but_waiting_length ws ws' : same_but_waiting ws ws' → length ws' = length ws.
Proof. intros [Hid _]. by rewrite <- (length_fmap worker_id ws'), Hid, length_fmap. Qed.

Lemma same_but_waiting_lookup ws ws' i w :
  same_but_waiting ws ws' → ws !! i = Some w →
  ∃ w', ws' !! i = Some w' ∧ worker_id w' = worker_id w ∧
        previous_agent_steps w' = previous_agent_steps w.
Proof.
  intros [Hid Hh] Hw.
  assert (Hl : (worker_id <$> ws') !! i = Some (worker_id w))
    by (by rewrite Hid, list_lookup_fmap, Hw).
  rewrite list_lookup_fmap in Hl.
  destruct (ws' !! i) as [w'|] eqn:Hw'; [|discriminate].
  exists w'. split; [done|]. split; [by injection Hl|].
  assert (Hl' : (previous_agent_steps <$> ws') !! i = Some (previous_agent_steps w))
    by (by rewrite Hh, list_lookup_fmap, Hw).
  rewrite list_lookup_fmap, Hw' in Hl'. by injection Hl'.
Qed.

Lemma drain_step_queue_spec items :
  ∀ ws acc sw ws' acc' sw',
    drain_step_queue items ws acc sw = Return (ws', acc', sw') →
    seen_ok acc sw →
    seen_ok acc' sw' ∧ same_but_waiting ws ws' ∧
    ∃ new, acc' = acc ++ new ∧ sublist new items ∧
           Forall (λ r, step_worker_id r < length ws) new ∧
           (items ≠ [] → acc' ≠ []).
Proof.
  induction items as [|step rest IH]; intros ws acc sw ws' acc' sw' Hd Hok; simpl in Hd.
  - injection Hd as <- <- <-. split; [done|]. split; [apply same_but_waiting_refl|].
    exists []. rewrite app_nil_r. repeat split; [constructor | constructor | done].
  - destruct (ws !! step_worker_id step) as [w|] eqn:Hw; [|discriminate].
    pose proof (same_but_waiting_insert ws _ w false Hw) as Hsame.
    pose proof (lookup_lt_Some _ _ _ Hw) as Hlt.
    destruct (decide (step_worker_id step ∈ sw)) as [Hin|Hnotin].
    + destruct (IH _ _ _ _ _ _ Hd Hok) as (Hok' & Hs & new & -> & Hsub & Hall & _).
      split; [done|]. split; [by eapply same_but_waiting_trans|].
      exists new. split; [done|]. split; [by constructor|].
      split; [by rewrite length_insert in Hall|].
      intros _ Heq. apply app_eq_nil in Heq as [-> _].
      destruct Hok as [_ Hsw]. apply Hsw in Hin. by apply elem_of_nil in Hin.
    + destruct (IH _ _ _ _ _ _ Hd (seen_ok_snoc _ _ _ Hok Hnotin))
        as (Hok' & Hs & new & -> & Hsub & Hall & _).
      split; [done|]. split; [by eapply same_but_waiting_trans|].
      exists (step :: new). split; [by rewrite <- app_assoc|].
      split; [by constructor|].
      split; [constructor; [done | by rewrite length_insert in Hall]|].
      intros _ Heq. apply app_eq_nil in Heq as [Heq _]. by apply app_eq_nil in Heq as [_ ?].
Qed.

Lemma drain_step_queue_not_pending items :
  ∀ ws acc sw, drain_step_queue items ws acc sw ≠ Pending.
Proof.
  induction items as [|step rest IH]; intros ws acc sw; simpl; [done|].
  destruct (ws !! step_worker_id step); [|done].
  destruct (decide _); apply IH.
Qed.

Lemma poll_step_queue_skip_empty k polls ws :
  poll_step_queue (replicate k [] ++ polls) ws [] ∅ = poll_step_queue polls ws [] ∅.
Proof. induction k as [|k IH]; [done|]. simpl. apply IH. Qed.

Lemma poll_step_queue_all_empty k ws :
  poll_step_queue (replicate k []) ws [] ∅ = Pending.
Proof. induction k as [|k IH]; [done|]. simpl. apply IH. Qed.

Lemma poll_step_queue_nonempty_acc polls ws acc sw :
  acc ≠ [] → poll_step_queue polls ws acc sw = Return (ws, acc).
Proof.
  intros Hne.
  assert (Hlen : bool_decide (length acc < 1) = false).
  { apply bool_decide_eq_false_2. destruct acc; [done | simpl; lia]. }
  destruct polls; cbn [poll_step_queue]; by rewrite Hlen.
Qed.

(** The pass that finds something in the queue is the last one. *)
Lemma poll_step_queue_first b rest ws :
  b ≠ [] →
  poll_step_queue (b :: rest) ws [] ∅ =
    '(ws', worker_steps, _) ← drain_step_queue b ws [] ∅; Return (ws', worker_steps).
Proof.
  intros Hb. simpl.
  destruct (drain_step_queue b ws [] ∅) as [[[ws' acc'] sw']| |] eqn:Hd; simpl; try done.
  destruct (drain_step_queue_spec _ _ _ _ _ _ _ Hd seen_ok_nil) as (_ & _ & new & _ & _ & _ & Hne).
  apply poll_step_queue_nonempty_acc. auto.
Qed.

Lemma poll_step_queue_returns polls ws ws' worker_steps :
  poll_step_queue polls ws [] ∅ = Return (ws', worker_steps) →
  ∃ k b rest sw,
    polls = replicate k [] ++ b :: rest ∧ b ≠ [] ∧
    drain_step_queue b ws [] ∅ = Return (ws', worker_steps, sw).
Proof.
  induction polls as [|items polls IH]; intros Hp; [discriminate|].
  destruct items as [|step items].
  - simpl in Hp. destruct (IH Hp) as (k & b & rest & sw & -> & Hb & Hd).
    by exists (S k), b, rest, sw.
  - rewrite poll_step_queue_first in Hp by done.
    destruct (drain_step_queue (step :: items) ws [] ∅) as [[[ws1 acc1] sw1]| |] eqn:Hd;
      simpl in Hp; try discriminate.
    injection Hp as <- <-. by exists 0, (step :: items), polls, sw1.
Qed.

(** ** Building the records: [_postprocess_steps] *)

Lemma postprocess_infos_spec acts infos :
  ∀ hist acc hist' out,
    postprocess_infos acts infos hist acc = Return (hist', out) →
    PyDict.keys hist' = PyDict.keys hist ∧
    Forall (λ i, is_Some (PyDict.get (agent_id i) hist)) infos ∧
    ∃ new, out = acc ++ new ∧ current_agent_info <$> new = infos ∧
      Forall (λ s, is_Some (previous_agent_info s) ∧
                   previous_action s = acts !! agent_id (current_agent_info s)) new.
Proof.
  induction infos as [|info rest IH]; intros hist acc hist' out Hp; simpl in Hp.
  - injection Hp as <- <-. split; [done|]. split; [constructor|].
    exists []. by rewrite app_nil_r.
  - destruct (PyDict.get (agent_id info) hist) as [prev|] eqn:Hget; [|discriminate].
    destruct (IH _ _ _ _ Hp) as (Hk & Hall & new & -> & Hcur & Hnew).
    assert (Hs : is_Some (PyDict.get (agent_id info) hist)) by eauto.
    split; [by rewrite Hk, keys_set_present|]. split.
    + constructor; [done|]. eapply Forall_impl; [apply Hall|]. simpl.
      intros i Hi. destruct (decide (agent_id info = agent_id i)) as [<-|Hne]; [done|].
      by rewrite get_set_ne in Hi.
    + eexists (_ :: new). split; [by rewrite <- app_assoc|].
      split; [by rewrite fmap_cons, Hcur|].
      constructor; [|done]. simpl. eauto.
Qed.

(** With one observation per agent id, each record pairs the observation
    with the current observation of the record that was stored. *)
Lemma postprocess_infos_from_history acts infos :
  ∀ hist acc hist' out,
    NoDup (agent_id <$> infos) →
    postprocess_infos acts infos hist acc = Return (hist', out) →
    ∃ new, out = acc ++ new ∧
      Forall2 (λ info s, ∃ prev, PyDict.get (agent_id info) hist = Some prev ∧
                                 s = new_step acts prev info) infos new.
Proof.
  induction infos as [|info rest IH]; intros hist acc hist' out Hnd Hp; simpl in Hp.
  - injection Hp as <- <-. exists []. by rewrite app_nil_r.
  - destruct (PyDict.get (agent_id info) hist) as [prev|] eqn:Hget; [|discriminate].
    rewrite fmap_cons in Hnd. apply NoDup_cons in Hnd as [Hnotin Hnd].
    destruct (IH _ _ _ _ Hnd Hp) as (new & -> & Hall).
    eexists (_ :: new). split; [by rewrite <- app_assoc|].
    constructor; [by exists prev|].
    apply Forall2_same_length_lookup in Hall as [Hlen Hall].
    apply Forall2_same_length_lookup_2; [done|].
    intros n i s Hi Hs. destruct (Hall n i s Hi Hs) as (prev' & Hg & ->).
    exists prev'. split; [|done].
    rewrite get_set_ne in Hg; [done|].
    intros Heq. apply Hnotin. rewrite Heq.
    apply list_elem_of_fmap_2. by eapply list_elem_of_lookup_2.
Qed.

Lemma postprocess_infos_raises acts infos :
  ∀ hist acc,
    Exists (λ i, PyDict.get (agent_id i) hist = None) infos →
    postprocess_infos acts infos hist acc = Raise KeyError.
Proof.
  induction infos as [|info rest IH]; intros hist acc Hex; [by apply Exists_nil in Hex|].
  simpl. destruct (PyDict.get (agent_id info) hist) as [prev|] eqn:Hget; [|done].
  apply Exists_cons in Hex as [Hex|Hex]; [congruence|].
  apply IH. eapply Exists_impl; [apply Hex|]. simpl.
  intros i Hi. by apply get_set_None.
Qed.

(** The only way [postprocess_infos] fails is the unguarded indexing. *)
Lemma postprocess_infos_cases acts infos :
  ∀ hist acc,
    (∃ hist' out, postprocess_infos acts infos hist acc = Return (hist', out)) ∨
    postprocess_infos acts infos hist acc = Raise KeyError.
Proof.
  induction infos as [|info rest IH]; intros hist acc; simpl; [eauto|].
  destruct (PyDict.get (agent_id info) hist); [apply IH | by right].
Qed.

Lemma postprocess_infos_returns acts infos :
  ∀ hist acc,
    Forall (λ i, is_Some (PyDict.get (agent_id i) hist)) infos →
    ∃ hist' out, postprocess_infos acts infos hist acc = Return (hist', out).
Proof.
  induction infos as [|info rest IH]; intros hist acc Hall; simpl; [eauto|].
  apply Forall_cons in Hall as [[prev Hget] Hall]. rewrite Hget.
  apply IH. eapply Forall_impl; [apply Hall|]. simpl.
  intros i Hi. rewrite <- not_eq_None_Some in *.
  rewrite get_set_None; [done | by rewrite Hget].
Qed.

Lemma same_but_history_refl ws : same_but_history ws ws.
Proof. split; [done|]. intros i w Hw. by exists w. Qed.

Lemma same_but_history_trans ws1 ws2 ws3 :
  same_but_history ws1 ws2 → same_but_history ws2 ws3 → same_but_history ws1 ws3.
Proof.
  intros [Hl1 H1] [Hl2 H2]. split; [congruence|].
  intros i w Hw. destruct (H1 i w Hw) as (w2 & Hw2 & ? & ? & ?).
  destruct (H2 i w2 Hw2) as (w3 & Hw3 & ? & ? & ?).
  exists w3. repeat split; congruence.
Qed.

Lemma same_but_history_insert ws i w hist :
  ws !! i = Some w →
  PyDict.keys hist = PyDict.keys (previous_agent_steps w) →
  same_but_history ws (<[i := set_previous_agent_steps hist w]> ws).
Proof.
  intros Hw Hk. split; [by rewrite length_insert|].
  intros j w0 Hw0. destruct (decide (i = j)) as [<-|Hne].
  - rewrite list_lookup_insert_eq by by eapply lookup_lt_Some.
    eexists. split; [done|]. simpl. by simplify_eq.
  - rewrite list_lookup_insert_ne by done. by exists w0.
Qed.

Lemma unseen_same_but_history ws ws' step :
  same_but_history ws ws' → unseen ws step → unseen ws' step.
Proof.
  intros [_ Hs] (w & Hw & Hex). destruct (Hs _ _ Hw) as (w' & Hw' & _ & _ & Hk).
  exists w'. split; [done|]. eapply Exists_impl; [apply Hex|]. simpl.
  intros i Hi. by apply (get_same_keys _ _ _ Hk).
Qed.

Lemma postprocess_loop_spec acts env_steps :
  ∀ ws acc tn ws' out tn',
    postprocess_loop acts env_steps ws acc tn = Return (ws', out, tn') →
    same_but_history ws ws' ∧
    ∃ new, out = acc ++ new ∧
      current_agent_info <$> new = concat ((all_agent_info ∘ payload) <$> env_steps) ∧
      Forall (λ s, is_Some (previous_agent_info s) ∧
                   previous_action s = acts !! agent_id (current_agent_info s)) new.
Proof.
  induction env_steps as [|step rest IH]; intros ws acc tn ws' out tn' Hp; simpl in Hp.
  - injection Hp as <- <- <-. split; [apply same_but_history_refl|].
    exists []. by rewrite app_nil_r.
  - destruct (ws !! step_worker_id step) as [w|] eqn:Hw; [|discriminate].
    destruct (postprocess_infos acts _ _ acc) as [[hist acc1]| |] eqn:Hi;
      simpl in Hp; try discriminate.
    destruct (postprocess_infos_spec _ _ _ _ _ _ Hi) as (Hk & _ & new1 & -> & Hc1 & Hn1).
    destruct (IH _ _ _ _ _ _ Hp) as (Hs & new2 & -> & Hc2 & Hn2).
    split.
    + eapply same_but_history_trans; [|apply Hs]. by apply same_but_history_insert.
    + exists (new1 ++ new2). split; [by rewrite app_assoc|]. split.
      * rewrite fmap_app, fmap_cons, Hc1, Hc2. done.
      * by apply Forall_app.
Qed.

Lemma postprocess_loop_raises acts env_steps :
  ∀ ws acc tn,
    Forall (λ s, step_worker_id s < length ws) env_steps →
    Exists (unseen ws) env_steps →
    postprocess_loop acts env_steps ws acc tn = Raise KeyError.
Proof.
  induction env_steps as [|step rest IH]; intros ws acc tn Hlt Hex;
    [by apply Exists_nil in Hex|].
  apply Forall_cons in Hlt as [Hlt Hrest]. simpl.
  destruct (lookup_lt_is_Some_2 _ _ Hlt) as [w Hw]. rewrite Hw.
  destruct (postprocess_infos_cases acts (all_agent_info (payload step))
              (previous_agent_steps w) acc) as [(hist & acc1 & Hi)|Hi];
    rewrite Hi; simpl; [|done].
  destruct (postprocess_infos_spec _ _ _ _ _ _ Hi) as (Hk & Hall & _).
  apply Exists_cons in Hex as [(w' & Hw' & Hex)|Hex].
  - simplify_eq. apply Exists_exists in Hex as (i & Hin & Hnone).
    rewrite Forall_forall in Hall. destruct (Hall i Hin) as [? ?]. congruence.
  - apply IH; [by rewrite length_insert|].
    eapply Exists_impl; [apply Hex|]. intros s.
    apply unseen_same_but_history. by apply same_but_history_insert.
Qed.

Lemma postprocess_loop_app acts l1 l2 :
  ∀ ws acc tn,
    postprocess_loop acts (l1 ++ l2) ws acc tn =
      '(ws1, acc1, tn1) ← postprocess_loop acts l1 ws acc tn;
      postprocess_loop acts l2 ws1 acc1 tn1.
Proof.
  induction l1 as [|step l1 IH]; intros ws acc tn; simpl; [done|].
  destruct (ws !! step_worker_id step) as [w|]; [|done].
  destruct (postprocess_infos acts _ _ acc) as [[hist acc1]| |]; simpl; [|done..].
  apply IH.
Qed.

(** Batches of other workers leave a handle as it is. *)
Lemma postprocess_loop_other acts env_steps i :
  ∀ ws acc tn ws' out tn',
    Forall (λ s, step_worker_id s ≠ i) env_steps →
    postprocess_loop acts env_steps ws acc tn = Return (ws', out, tn') →
    ws' !! i = ws !! i.
Proof.
  induction env_steps as [|step rest IH]; intros ws acc tn ws' out tn' Hne Hp;
    simpl in Hp; [by injection Hp as <- <- <-|].
  apply Forall_cons in Hne as [Hne Hrest].
  destruct (ws !! step_worker_id step) as [w|] eqn:Hw; [|discriminate].
  destruct (postprocess_infos acts _ _ acc) as [[hist acc1]| |]; simpl in Hp;
    try discriminate.
  rewrite (IH _ _ _ _ _ _ Hrest Hp). by rewrite list_lookup_insert_ne.
Qed.

(** ** Dispatch: [_take_step] and [_queue_steps] *)

Lemma set_waiting_same w : set_waiting (waiting w) w = w.
Proof. by destruct w. Qed.

Lemma _take_step_frame self previous_steps self' all_action_info :
  _take_step self previous_steps = Return (self', all_action_info) →
  env_workers self' = env_workers self ∧ policies self' = policies self.
Proof.
  unfold _take_step. intros Ht.
  destruct (take_step_brains _ _ _ _) as [[acts all]| |]; simpl in Ht; try discriminate.
  by injection Ht as <- <-.
Qed.

(** [_queue_steps] marks every handle as waiting and writes one ["step"]
    command to each handle that was not. *)
Lemma queue_steps_loop_spec todo :
  ∀ self visited sent self' sent',
    queue_steps_loop self visited todo sent = Return (self', sent') →
    env_workers self' = visited ++ (set_waiting true <$> todo) ∧
    policies self' = policies self ∧
    ∃ new, sent' = sent ++ new ∧
      new.*1 = worker_id <$> filter (λ w, waiting w = false) todo ∧
      Forall (λ c, cmd_name c.2 = "step") new.
Proof.
  induction todo as [|w rest IH]; intros self visited sent self' sent' Hq; simpl in Hq.
  - injection Hq as <- <-. simpl. rewrite app_nil_r. split; [done|]. split; [done|].
    exists []. by rewrite app_nil_r.
  - destruct (waiting w) eqn:Hw; simpl in Hq.
    + destruct (IH _ _ _ _ _ Hq) as (Hws & Hpol & new & -> & Hids & Hnames).
      split; [|split; [done|]].
      * rewrite Hws, <- app_assoc. simpl. by rewrite <- Hw, set_waiting_same.
      * exists new. split; [done|]. split; [|done].
        rewrite filter_cons_False; [done | by rewrite Hw].
    + destruct (_take_step self (previous_agent_steps w)) as [[self1 info]| |] eqn:Ht;
        simpl in Hq; try discriminate.
      destruct (_take_step_frame _ _ _ _ Ht) as [_ Hpol1].
      destruct (IH _ _ _ _ _ Hq) as (Hws & Hpol & new & -> & Hids & Hnames).
      split; [|split; [congruence|]].
      * by rewrite Hws, <- app_assoc.
      * eexists (_ :: new). split; [by rewrite <- app_assoc|]. split.
        -- rewrite filter_cons_True by done. rewrite !fmap_cons. by rewrite Hids.
        -- by constructor.
Qed.

Lemma _queue_steps_spec self self' sent :
  _queue_steps self = Return (self', sent) →
  env_workers self' = set_waiting true <$> env_workers self ∧
  policies self' = policies self ∧
  sent.*1 = worker_id <$> filter (λ w, waiting w = false) (env_workers self) ∧
  Forall (λ c, cmd_name c.2 = "step") sent.
Proof.
  intros Hq. destruct (queue_steps_loop_spec _ _ _ _ _ _ Hq) as (? & ? & new & -> & ? & ?).
  done.
Qed.

(** Induction on Python values, through the lists they nest in. *)
Lemma pyval_nested_ind (P : pyval → Prop) :
  P PyNone → (∀ z, P (PyNum z)) →
  (∀ l, Forall P l → P (PySeq l)) →
  (∀ d, Forall (λ kv, P kv.2) d → P (PyDict d)) →
  ∀ v, P v.
Proof.
  intros HN HZ HS HD. fix IH 1. intros [|z|l|d].
  - exact HN.
  - exact (HZ z).
  - apply HS. induction l as [|x l IHl]; constructor; [exact (IH x) | exact IHl].
  - apply HD. induction d as [|[k x] d IHd]; constructor; [exact (IH x) | exact IHd].
Qed.

Lemma py_index_not_pending v idx : py_index v idx ≠ Pending.
Proof. destruct v as [|z|l|d]; simpl; [done | done | by destruct (l !! idx) | done]. Qed.

Lemma py_index_opt_not_pending v idx : py_index_opt v idx ≠ Pending.
Proof. destruct v as [|z|l|d]; simpl; [done | done | by destruct (l !! idx) | done]. Qed.

Lemma per_agent_output_not_pending idx v : per_agent_output idx v ≠ Pending.
Proof.
  induction v as [|z|l _|d IHd] using pyval_nested_ind; simpl; [done | done | |].
  - by destruct (l !! idx).
  - generalize (@nil (string * pyval)).
    induction d as [|[k x] d IH]; intros acc; [done|].
    apply Forall_cons in IHd as [Hx Hd]. simpl in Hx.
    destruct (per_agent_output idx x) eqn:Ex; simpl; [by apply IH | done | done].
Qed.

Lemma get_per_agent_outputs_not_pending outputs_dict idx :
  get_per_agent_outputs outputs_dict idx ≠ Pending.
Proof.
  unfold get_per_agent_outputs. generalize (@nil (string * pyval)).
  induction outputs_dict as [|[k x] d IH]; intros acc; simpl; [done|].
  pose proof (per_agent_output_not_pending idx x) as Hx.
  destruct (per_agent_output idx x); simpl; [apply IH | done | done].
Qed.

Lemma slice_action_info_not_pending action_info idx :
  slice_action_info action_info idx ≠ Pending.
Proof.
  unfold slice_action_info.
  pose proof (get_per_agent_outputs_not_pending (outputs action_info) idx).
  destruct (get_per_agent_outputs _ _); simpl; [|done..].
  pose proof (py_index_not_pending (action action_info) idx).
  destruct (py_index _ _); simpl; [|done..].
  pose proof (py_index_opt_not_pending (memory action_info) idx).
  destruct (py_index_opt (memory action_info) idx); simpl; [|done..].
  pose proof (py_index_opt_not_pending (value action_info) idx).
  destruct (py_index_opt (value action_info) idx); simpl; done.
Qed.

Lemma record_agent_actions_not_pending action_info agent_infos :
  ∀ idx acts, record_agent_actions action_info idx agent_infos acts ≠ Pending.
Proof.
  induction agent_infos as [|i l IH]; intros idx acts; simpl; [done|].
  pose proof (slice_action_info_not_pending action_info idx).
  destruct (slice_action_info action_info idx); simpl; [apply IH | done | done].
Qed.

Lemma take_step_brains_not_pending pol items :
  ∀ acts all, take_step_brains pol items acts all ≠ Pending.
Proof.
  induction items as [|[b steps] items IH]; intros acts all; simpl; [done|].
  destruct (pol !! b) as [p|]; [|done].
  pose proof (record_agent_actions_not_pending
                (get_action p (current_agent_info <$> steps))
                (current_agent_info <$> steps) 0 acts).
  destruct (record_agent_actions _ _ _ _); simpl; [apply IH | done | done].
Qed.

Lemma _take_step_not_pending self previous_steps :
  _take_step self previous_steps ≠ Pending.
Proof.
  unfold _take_step.
  pose proof (take_step_brains_not_pending (policies self)
                (group_by_brain previous_steps [])
                (previous_agent_action_infos self) []).
  destruct (take_step_brains _ _ _ _) as [[? ?]| |]; simpl; done.
Qed.

Lemma queue_steps_loop_not_pending todo :
  ∀ self visited sent, queue_steps_loop self visited todo sent ≠ Pending.
Proof.
  induction todo as [|w rest IH]; intros self visited sent; simpl; [done|].
  destruct (waiting w); simpl; [apply IH|].
  pose proof (_take_step_not_pending self (previous_agent_steps w)).
  destruct (_take_step _ _) as [[? ?]| |]; simpl; [apply IH | done | done].
Qed.

(** ** [step] *)

Lemma drain_step_queue_first_results items :
  ∀ ws acc sw ws' acc' sw',
    drain_step_queue items ws acc sw = Return (ws', acc', sw') →
    acc' = acc ++ first_results sw items.
Proof.
  induction items as [|step rest IH]; intros ws acc sw ws' acc' sw' Hd; simpl in *.
  - injection Hd as <- <- <-. by rewrite app_nil_r.
  - destruct (ws !! step_worker_id step) as [w|]; [|discriminate].
    destruct (decide (step_worker_id step ∈ sw)).
    + by eapply IH.
    + rewrite (IH _ _ _ _ _ _ Hd), <- app_assoc. done.
Qed.

Lemma postprocess_steps_not_pending self env_steps :
  _postprocess_steps self env_steps ≠ Pending.
Proof.
  unfold _postprocess_steps.
  assert (Hl : ∀ acts ws acc tn, postprocess_loop acts env_steps ws acc tn ≠ Pending).
  { intros acts. induction env_steps as [|step rest IH]; intros ws acc tn; simpl; [done|].
    destruct (ws !! step_worker_id step) as [w|]; [|done].
    destruct (postprocess_infos_cases acts (all_agent_info (payload step))
                (previous_agent_steps w) acc) as [(hist & acc1 & ->)| ->]; simpl;
      [apply IH | done]. }
  pose proof (Hl (previous_agent_action_infos self) (env_workers self) [] []).
  destruct (postprocess_loop _ _ _ _ _) as [[[? ?] ?]| |]; simpl; done.
Qed.

(** The stages of a call of [step] that returns. *)
Lemma step_inv self polls r :
  step self polls = Return r →
  ∃ self1 ws k b rest sw,
    _queue_steps self = Return (self1, step_sent r) ∧
    polls = replicate k [] ++ b :: rest ∧ b ≠ [] ∧
    drain_step_queue b (env_workers self1) [] ∅ = Return (ws, step_worker_steps r, sw) ∧
    _postprocess_steps (set_env_workers ws self1) (step_worker_steps r)
      = Return (step_self r, step_agent_steps r).
Proof.
  unfold step. intros Hs.
  destruct (_queue_steps self) as [[self1 sent]| |] eqn:Hq; simpl in Hs; try discriminate.
  destruct (poll_step_queue polls _ _ _) as [[ws worker_steps]| |] eqn:Hp;
    simpl in Hs; try discriminate.
  destruct (_postprocess_steps _ _) as [[self2 agent_steps]| |] eqn:Hpp;
    simpl in Hs; try discriminate.
  injection Hs as <-. simpl.
  destruct (poll_step_queue_returns _ _ _ _ Hp) as (k & b & rest & sw & -> & Hb & Hd).
  by exists self1, ws, k, b, rest, sw.
Qed.

(** The polls that come after the first non-empty one are never looked at,
    and the empty ones before it change nothing. *)
Lemma step_first_nonempty self k b rest :
  b ≠ [] → step self (replicate k [] ++ b :: rest) = step self [b].
Proof.
  intros Hb. unfold step.
  destruct (_queue_steps self) as [[self1 sent]| |]; cbn [mbind outcome_bind]; try done.
  by rewrite poll_step_queue_skip_empty, !poll_step_queue_first.
Qed.

Lemma step_nonempty_not_pending self b : b ≠ [] → step self [b] ≠ Pending.
Proof.
  intros Hb. unfold step.
  pose proof (queue_steps_loop_not_pending (env_workers self) self [] []) as Hq.
  fold (_queue_steps self) in Hq.
  destruct (_queue_steps self) as [[self1 sent]| |]; cbn [mbind outcome_bind]; try done.
  rewrite poll_step_queue_first by done.
  pose proof (drain_step_queue_not_pending b (env_workers self1) [] ∅) as Hd.
  destruct (drain_step_queue _ _ _ _) as [[[ws acc] sw]| |]; simpl; try done.
  pose proof (postprocess_steps_not_pending (set_env_workers ws self1) acc) as Hp.
  destruct (_postprocess_steps _ _) as [[? ?]| |]; simpl; done.
Qed.

Lemma step_all_empty self k :
  returned (_queue_steps self) → step self (replicate k []) = Pending.
Proof.
  intros [[self1 sent] Hq]. unfold step. rewrite Hq. cbn [mbind outcome_bind].
  by rewrite poll_step_queue_all_empty.
Qed.

(** C1.  [step] returns at the first pass over the shared queue that finds a
    result, whatever number of workers it is from: empty passes before it
    are retried, nothing after it is waited for, the call does not stay in
    the polling loop, and what it returns holds the first result of at
    least one worker.  While every pass finds the queue empty the call is
    still polling. *)
Theorem step_returns_at_first_result self k b rest :
  b ≠ [] →
  step self (replicate k [] ++ b :: rest) = step self [b] ∧
  step self [b] ≠ Pending ∧
  (∀ r, step self [b] = Return r →
        step_worker_steps r = first_results ∅ b ∧ step_worker_steps r ≠ []) ∧
  (returned (_queue_steps self) → step self (replicate k []) = Pending).
Proof.
  intros Hb. split; [by apply step_first_nonempty|].
  split; [by apply step_nonempty_not_pending|].
  split; [|apply step_all_empty].
  intros r Hr.
  destruct (step_inv _ _ _ Hr) as (self1 & ws & k' & b' & rest' & sw & _ & Hpolls & Hb' & Hd & _).
  assert (b' = b) as ->.
  { destruct k' as [|k']; simpl in Hpolls; [congruence|].
    injection Hpolls as Heq _. congruence. }
  split.
  - by rewrite (drain_step_queue_first_results _ _ _ _ _ _ _ Hd).
  - destruct (drain_step_queue_spec _ _ _ _ _ _ _ Hd seen_ok_nil)
      as (_ & _ & new & _ & _ & _ & Hne). auto.
Qed.

(** C8.  The batches [step] keeps hold each worker id at most once: of the
    results drained in the pass that ends the call, the first of each
    worker is kept and any further result of that worker is passed over. *)
Theorem step_one_batch_per_worker self polls r :
  step self polls = Return r →
  NoDup (step_worker_id <$> step_worker_steps r) ∧
  ∃ k b rest,
    polls = replicate k [] ++ b :: rest ∧
    step_worker_steps r = first_results ∅ b ∧
    sublist (step_worker_steps r) b.
Proof.
  intros Hr.
  destruct (step_inv _ _ _ Hr) as (self1 & ws & k & b & rest & sw & _ & -> & Hb & Hd & _).
  destruct (drain_step_queue_spec _ _ _ _ _ _ _ Hd seen_ok_nil)
    as ([Hnd _] & _ & new & Hnew & Hsub & _).
  split; [done|]. exists k, b, rest. split; [done|].
  split; [by rewrite (drain_step_queue_first_results _ _ _ _ _ _ _ Hd)|].
  by rewrite Hnew.
Qed.

Lemma same_but_waiting_fmap ws b : same_but_waiting ws (set_waiting b <$> ws).
Proof. split; rewrite <- list_fmap_compose; by apply list_fmap_ext. Qed.

Lemma unseen_same_but_waiting ws ws' step :
  same_but_waiting ws ws' → unseen ws step → unseen ws' step.
Proof.
  intros Hs (w & Hw & Hex).
  destruct (same_but_waiting_lookup _ _ _ _ Hs Hw) as (w' & Hw' & _ & Hh).
  exists w'. by rewrite Hh.
Qed.

Lemma drain_step_queue_returns items :
  ∀ ws acc sw,
    Forall (λ s, step_worker_id s < length ws) items →
    ∃ ws' acc' sw', drain_step_queue items ws acc sw = Return (ws', acc', sw').
Proof.
  induction items as [|step rest IH]; intros ws acc sw Hall; simpl; [eauto|].
  apply Forall_cons in Hall as [Hlt Hall].
  destruct (lookup_lt_is_Some_2 _ _ Hlt) as [w ->].
  destruct (decide _); apply IH; by rewrite length_insert.
Qed.

(** The handles [step] post-processes on are those it started from, up to
    the flags. *)
Lemma step_handles_before_postprocess self self1 sent b ws acc sw :
  _queue_steps self = Return (self1, sent) →
  drain_step_queue b (env_workers self1) [] ∅ = Return (ws, acc, sw) →
  same_but_waiting (env_workers self) ws ∧
  Forall (λ s, step_worker_id s < length ws) acc.
Proof.
  intros Hq Hd.
  destruct (_queue_steps_spec _ _ _ Hq) as (Hws & _).
  destruct (drain_step_queue_spec _ _ _ _ _ _ _ Hd seen_ok_nil)
    as (_ & Hs & new & -> & _ & Hall & _).
  split.
  - eapply same_but_waiting_trans; [|apply Hs]. rewrite Hws. apply same_but_waiting_fmap.
  - simpl. by rewrite (same_but_waiting_length _ _ Hs).
Qed.

(** C10.  Post-processing indexes the stored records without a guard: when
    a batch that [step] keeps holds an observation of an agent id its
    worker has no stored record for, the call raises [KeyError].  The
    premises say that dispatch went through and that the drained results
    name existing workers, so that no other error comes first. *)
Theorem step_unseen_agent_raises self k b rest :
  returned (_queue_steps self) →
  b ≠ [] →
  Forall (λ s, step_worker_id s < length (env_workers self)) b →
  Exists (unseen (env_workers self)) (first_results ∅ b) →
  step self (replicate k [] ++ b :: rest) = Raise KeyError.
Proof.
  intros [[self1 sent] Hq] Hb Hrange Hex.
  rewrite step_first_nonempty by done. unfold step. rewrite Hq.
  cbn [mbind outcome_bind]. rewrite poll_step_queue_first by done.
  destruct (_queue_steps_spec _ _ _ Hq) as (Hws & _).
  destruct (drain_step_queue_returns b (env_workers self1) [] ∅) as (ws & acc & sw & Hd).
  { by rewrite Hws, length_fmap. }
  rewrite Hd. cbn [mbind outcome_bind].
  destruct (step_handles_before_postprocess _ _ _ _ _ _ _ Hq Hd) as [Hs Hlt].
  rewrite (drain_step_queue_first_results _ _ _ _ _ _ _ Hd) in *. simpl in *.
  unfold _postprocess_steps. simpl.
  rewrite postprocess_loop_raises; [done | done |].
  eapply Exists_impl; [apply Hex|]. intros s. by apply unseen_same_but_waiting.
Qed.

(** Every record [step] returns has a previous observation. *)
Lemma step_records_have_previous self polls r :
  step self polls = Return r →
  Forall (λ s, is_Some (previous_agent_info s)) (step_agent_steps r).
Proof.
  intros Hr.
  destruct (step_inv _ _ _ Hr) as (self1 & ws & k & b & rest & sw & _ & _ & _ & _ & Hp).
  unfold _postprocess_steps in Hp.
  destruct (postprocess_loop _ _ _ _ _) as [[[ws' out] tn]| |] eqn:Hl; simpl in Hp;
    try discriminate.
  injection Hp as _ <-.
  destruct (postprocess_loop_spec _ _ _ _ _ _ _ _ Hl) as (_ & new & -> & _ & Hall).
  simpl. eapply Forall_impl; [apply Hall|]. by intros s [? _].
Qed.

(** C2, as the code has it.  The records come batch after batch in the
    order in which the first result of each worker arrived on the shared
    queue, and inside a batch in the order of its observations. *)
Theorem step_records_in_arrival_order self polls r :
  step self polls = Return r →
  ∃ k b rest,
    polls = replicate k [] ++ b :: rest ∧
    step_worker_steps r = first_results ∅ b ∧
    current_agent_info <$> step_agent_steps r = observations (step_worker_steps r).
Proof.
  intros Hr.
  destruct (step_inv _ _ _ Hr) as (self1 & ws & k & b & rest & sw & _ & -> & _ & Hd & Hp).
  exists k, b, rest. split; [done|].
  split; [by rewrite (drain_step_queue_first_results _ _ _ _ _ _ _ Hd)|].
  unfold _postprocess_steps in Hp.
  destruct (postprocess_loop _ _ _ _ _) as [[[ws' out] tn]| |] eqn:Hl; simpl in Hp;
    try discriminate.
  injection Hp as _ <-.
  destruct (postprocess_loop_spec _ _ _ _ _ _ _ _ Hl) as (_ & new & -> & Hc & _).
  simpl. by rewrite Hc.
Qed.

(** The records of one kept batch whose observations are of distinct
    agents: each pairs the observation with the current observation of the
    record stored in the handle before the call, and with the action
    recorded for the agent id. *)
Lemma step_records_of_batch self polls r resp :
  step self polls = Return r →
  resp ∈ step_worker_steps r →
  NoDup (agent_id <$> all_agent_info (payload resp)) →
  ∃ w pre recs post,
    env_workers self !! step_worker_id resp = Some w ∧
    step_agent_steps r = pre ++ recs ++ post ∧
    Forall2 (λ info s,
               ∃ prev, PyDict.get (agent_id info) (previous_agent_steps w) = Some prev ∧
                       s = new_step (previous_agent_action_infos (step_self r)) prev info)
      (all_agent_info (payload resp)) recs.
Proof.
  intros Hr Hin Hnd.
  destruct (step_inv _ _ _ Hr) as (self1 & ws & k & b & rest & sw & Hq & _ & _ & Hd & Hp).
  destruct (step_handles_before_postprocess _ _ _ _ _ _ _ Hq Hd) as [Hs Hlt].
  destruct (drain_step_queue_spec _ _ _ _ _ _ _ Hd seen_ok_nil) as ([Hnodup _] & _).
  apply list_elem_of_split in Hin as (l1 & l2 & Hsplit).
  rewrite Hsplit in Hnodup, Hlt, Hp.
  rewrite fmap_app, fmap_cons in Hnodup.
  apply NoDup_app in Hnodup as (_ & Hdisj & _).
  assert (Hl1 : Forall (λ s, step_worker_id s ≠ step_worker_id resp) l1).
  { apply Forall_forall. intros s Hs1 Heq. apply (Hdisj (step_worker_id s)).
    - by apply list_elem_of_fmap_2.
    - rewrite Heq. apply elem_of_cons. by left. }
  unfold _postprocess_steps in Hp.
  destruct (postprocess_loop _ _ _ _ _) as [[[ws' out] tn]| |] eqn:Hl; simpl in Hp;
    try discriminate.
  injection Hp as Hself Hout.
  rewrite postprocess_loop_app in Hl. simpl in Hl.
  destruct (postprocess_loop _ l1 _ _ _) as [[[ws1 acc1] tn1]| |] eqn:Hl1';
    simpl in Hl; try discriminate.
  pose proof (postprocess_loop_other _ _ _ _ _ _ _ _ _ Hl1 Hl1') as Hsame.
  destruct (postprocess_loop_spec _ _ _ _ _ _ _ _ Hl1') as (_ & pre & -> & _).
  apply Forall_app in Hlt as [_ Hlt]. apply Forall_cons in Hlt as [Hlt _].
  destruct (lookup_lt_is_Some_2 _ _ Hlt) as [w1 Hw1].
  rewrite Hsame, Hw1 in Hl.
  destruct (postprocess_infos _ _ _ _) as [[hist acc2]| |] eqn:Hi; simpl in Hl;
    try discriminate.
  destruct (postprocess_infos_from_history _ _ _ _ _ _ Hnd Hi) as (recs & -> & Hrecs).
  destruct (postprocess_loop_spec _ _ _ _ _ _ _ _ Hl) as (_ & post & Hout' & _).
  destruct Hs as [Hids Hhist].
  assert (Hw : ∃ w, env_workers self !! step_worker_id resp = Some w ∧
                    previous_agent_steps w = previous_agent_steps w1).
  { assert (Hh : (previous_agent_steps <$> env_workers self) !! step_worker_id resp
                 = Some (previous_agent_steps w1))
      by (by rewrite <- Hhist, list_lookup_fmap, Hw1).
    rewrite list_lookup_fmap in Hh.
    destruct (env_workers self !! step_worker_id resp) as [w|]; [|discriminate].
    exists w. split; [done|]. by injection Hh. }
  destruct Hw as (w & Hw & Hhw).
  exists w, pre, recs, post. split; [done|].
  split; [by rewrite <- Hout, Hout', <- app_assoc|].
  rewrite Hhw, <- Hself. done.
Qed.

(** ** [reset] *)

Lemma reset_infos_out infos :
  ∀ hist acc, (reset_infos infos hist acc).2 = acc ++ (reset_step <$> infos).
Proof.
  induction infos as [|info rest IH]; intros hist acc; simpl.
  - by rewrite app_nil_r.
  - rewrite IH, <- app_assoc. done.
Qed.

Lemma reset_infos_keeps_reset_records infos :
  ∀ hist acc k s,
    PyDict.get k hist = Some s → is_reset_record k s →
    ∃ s', PyDict.get k (reset_infos infos hist acc).1 = Some s' ∧ is_reset_record k s'.
Proof.
  induction infos as [|info rest IH]; intros hist acc k s Hget Hs; simpl; [eauto|].
  destruct (decide (agent_id info = k)) as [<-|Hne].
  - eapply IH; [apply get_set_eq | done].
  - eapply IH; [by rewrite get_set_ne | done].
Qed.

Lemma reset_infos_stores infos :
  ∀ hist acc info,
    info ∈ infos →
    ∃ s, PyDict.get (agent_id info) (reset_infos infos hist acc).1 = Some s ∧
         is_reset_record (agent_id info) s.
Proof.
  induction infos as [|info0 rest IH]; intros hist acc info Hin; simpl;
    [by apply elem_of_nil in Hin|].
  apply elem_of_cons in Hin as [->|Hin]; [|by apply IH].
  eapply reset_infos_keeps_reset_records; [apply get_set_eq | done].
Qed.

Lemma reset_collect_spec todo :
  ∀ visited replies acc ws' out,
    reset_collect visited todo replies acc = Return (ws', out) →
    ∃ new,
      ws' = visited ++ new ∧ length new = length todo ∧
      out = acc ++ (reset_step <$> concat (take (length todo) replies)) ∧
      ∀ j infos info,
        j < length todo → replies !! j = Some infos → info ∈ infos →
        ∃ w s, new !! j = Some w ∧
               PyDict.get (agent_id info) (previous_agent_steps w) = Some s ∧
               is_reset_record (agent_id info) s.
Proof.
  induction todo as [|ew rest IH]; intros visited replies acc ws' out Hc; simpl in Hc.
  - injection Hc as <- <-. exists []. rewrite !app_nil_r. simpl.
    split; [done|]. split; [done|]. split; [done|]. intros; lia.
  - destruct replies as [|infos0 replies']; [discriminate|].
    destruct (reset_infos infos0 (previous_agent_steps ew) acc) as [hist acc1] eqn:Hi.
    destruct (IH _ _ _ _ _ Hc) as (new & -> & Hlen & -> & Hstored).
    eexists (_ :: new). split; [by rewrite <- app_assoc|].
    split; [simpl; by rewrite Hlen|]. split.
    + pose proof (reset_infos_out infos0 (previous_agent_steps ew) acc) as Ho.
      rewrite Hi in Ho. simpl in Ho. rewrite Ho. simpl.
      by rewrite fmap_app, app_assoc.
    + intros [|j] infos info Hj Hr Hin; simpl in *.
      * injection Hr as <-.
        pose proof (reset_infos_stores infos0 (previous_agent_steps ew) acc info Hin) as Hs.
        rewrite Hi in Hs. simpl in Hs. destruct Hs as (s & Hs & Hrs).
        eexists _, s. split; [done|]. by simpl.
      * apply (Hstored j infos info); [lia | done | done].
Qed.

Lemma reset_drain_spec polls :
  ∀ ws ws', reset_drain polls ws = Return ws' →
            existsb waiting ws' = false ∧ same_but_waiting ws ws'.
Proof.
  induction polls as [|[step|] polls IH]; intros ws ws' Hd; simpl in Hd.
  - destruct (existsb waiting ws) eqn:Hw; [discriminate|].
    injection Hd as <-. split; [done | apply same_but_waiting_refl].
  - destruct (existsb waiting ws) eqn:Hw.
    + destruct (ws !! step_worker_id step) as [w|] eqn:Hl; [|discriminate].
      destruct (IH _ _ Hd) as [? Hs]. split; [done|].
      eapply same_but_waiting_trans; [|apply Hs]. by apply same_but_waiting_insert.
    + injection Hd as <-. split; [done | apply same_but_waiting_refl].
  - destruct (existsb waiting ws) eqn:Hw; [by apply IH|].
    injection Hd as <-. split; [done | apply same_but_waiting_refl].
Qed.

(** When nobody waits and every worker answers, [reset] returns. *)
Lemma reset_returns self config train_mode custom polls replies :
  existsb waiting (env_workers self) = false →
  (length (env_workers self) ≤ length replies)%nat →
  returned (reset self config train_mode custom polls replies).
Proof.
  intros Hw Hlen. unfold reset.
  assert (Hd : reset_drain polls (env_workers self) = Return (env_workers self)).
  { destruct polls as [|[?|] ?]; simpl; by rewrite Hw. }
  rewrite Hd. cbn [mbind outcome_bind].
  assert (Hc : ∀ todo visited replies acc,
             (length todo ≤ length replies)%nat →
             returned (reset_collect visited todo replies acc)).
  { induction todo as [|ew rest IH]; intros visited rs acc Hl; simpl; [by eexists|].
    destruct rs as [|infos rs]; simpl in Hl; [lia|].
    destruct (reset_infos _ _ _). apply IH. lia. }
  destruct (Hc (env_workers self) [] replies [] Hlen) as [[ws' out] ->].
  by eexists.
Qed.

(** C9.  When [reset] returns, every record it returns has no previous
    observation and no previous action; the records are the workers'
    replies in worker order; the handle of each worker stores, under the
    id of every agent of that worker's reply, such a record; so for every
    record returned, the handle of some worker holds an entry under the id
    of the record's agent. *)
Theorem reset_records_are_initial self config train_mode custom polls replies r :
  reset self config train_mode custom polls replies = Return r →
  Forall (λ s, previous_agent_info s = None ∧ previous_action s = None)
    (reset_agent_steps r) ∧
  current_agent_info <$> reset_agent_steps r
    = concat (take (length (env_workers self)) replies) ∧
  (∀ i infos info,
     i < length (env_workers self) → replies !! i = Some infos → info ∈ infos →
     ∃ w s, env_workers (reset_self r) !! i = Some w ∧
            PyDict.get (agent_id info) (previous_agent_steps w) = Some s ∧
            is_reset_record (agent_id info) s) ∧
  Forall (λ s, ∃ i w s',
            env_workers (reset_self r) !! i = Some w ∧
            PyDict.get (step_agent s) (previous_agent_steps w) = Some s' ∧
            is_reset_record (step_agent s) s')
    (reset_agent_steps r).
Proof.
  unfold reset. intros Hr.
  destruct (reset_drain polls (env_workers self)) as [ws| |] eqn:Hd; simpl in Hr;
    try discriminate.
  destruct (reset_collect [] ws replies []) as [[ws' out]| |] eqn:Hc; simpl in Hr;
    try discriminate.
  injection Hr as <-. simpl.
  destruct (reset_drain_spec _ _ _ Hd) as [_ Hs].
  pose proof (same_but_waiting_length _ _ Hs) as Hlen.
  destruct (reset_collect_spec _ _ _ _ _ _ Hc) as (new & -> & Hnl & -> & Hstored).
  simpl. rewrite Hlen.
  assert (Hby_worker : ∀ i infos info,
             i < length (env_workers self) → replies !! i = Some infos → info ∈ infos →
             ∃ w s, new !! i = Some w ∧
                    PyDict.get (agent_id info) (previous_agent_steps w) = Some s ∧
                    is_reset_record (agent_id info) s).
  { intros i infos info Hi. rewrite <- Hlen in Hi. by apply Hstored. }
  split; [|split; [|split]].
  - apply Forall_fmap. by apply Forall_true.
  - rewrite <- list_fmap_compose. apply list_fmap_id.
  - done.
  - apply Forall_fmap, Forall_forall. intros info Hin. simpl.
    apply list_elem_of_In, in_concat in Hin as (infos & Hinfos & Hin).
    apply list_elem_of_In in Hinfos. apply list_elem_of_In in Hin.
    apply list_elem_of_lookup in Hinfos as [i Hi].
    apply lookup_take_Some in Hi as [Hi Hlt].
    destruct (Hby_worker i infos info Hlt Hi Hin) as (w & s & ? & ? & ?).
    by exists i, w, s.
Qed.

(** ** The claims about ordering and about global done *)

(** C2 fails as worded: with the result of worker 1 ahead of that of
    worker 0 on the queue, the records of worker 1 come first. *)
Lemma step_not_in_worker_order :
  ∃ r, step two_workers
         [[batch 1 [agent "a1" 21]; batch 0 [agent "a0" 12; agent "b0" 13]]]
       = Return r ∧
       (agent_id ∘ current_agent_info) <$> step_agent_steps r = ["a1"; "a0"; "b0"] ∧
       ¬ ascending_worker_order r.
Proof.
  eexists. split; [vm_compute; reflexivity|]. split; [reflexivity|].
  intros (batches & Hperm & Hsorted & Hobs). cbn [step_worker_steps] in Hperm.
  symmetry in Hperm. apply Permutation_length_2_inv in Hperm as [-> | ->].
  - apply StronglySorted_inv in Hsorted as [_ Hlt].
    apply Forall_cons in Hlt as [Hlt _]. simpl in Hlt. lia.
  - vm_compute in Hobs. discriminate Hobs.
Qed.

Lemma worker_command_global_done `{UnityEnvironment E} (p : WorkerProc E) cmd :
  cmd_name cmd = "step" → global_done (proc_env p) = true →
  (worker_command p cmd).2 = {| to_parent := []; to_step_queue := [reset_batch p] |}.
Proof.
  intros Hname Hdone. unfold worker_command, reset_batch.
  rewrite decide_True by done. rewrite Hdone.
  by destruct (env_reset (proc_env p) None true None).
Qed.

(** C3 fails as worded: a worker whose environment reports [global_done]
    answers the ["step"] command with the observations of a reset, and
    [step] still returns a record with a previous observation for it. *)
Lemma global_done_step_has_previous :
  ∃ self1 cmd out r,
    _queue_steps one_worker = Return (self1, [(0, cmd)]) ∧
    @global_done _ finished_env (proc_env finished_worker) = true ∧
    (@worker_command _ finished_env finished_worker cmd).2 = out ∧
    step one_worker [to_step_queue out] = Return r ∧
    previous_agent_info <$> step_agent_steps r = [Some (agent "a0" 10)] ∧
    current_agent_info <$> step_agent_steps r = [agent "a0" 0].
Proof.
  eexists _, _, _, _. split; [vm_compute; reflexivity|].
  split; [reflexivity|]. split; [reflexivity|].
  split; [vm_compute; reflexivity|]. split; reflexivity.
Qed.

(** C3, as the code has it.  A worker whose environment reports
    [global_done] answers a ["step"] command with the observations of
    [env.reset()], on the shared queue.  The manager treats that batch as
    any other: every record of a call that keeps it has a previous
    observation, and when the batch shows each agent once, its records pair
    each observation with the current observation of the record stored for
    that agent id before the call. *)
Theorem global_done_step_is_incremental `{UnityEnvironment E}
    (p : WorkerProc E) cmd self polls r :
  cmd_name cmd = "step" →
  global_done (proc_env p) = true →
  step self polls = Return r →
  reset_batch p ∈ step_worker_steps r →
  (worker_command p cmd).2 = {| to_parent := []; to_step_queue := [reset_batch p] |} ∧
  Forall (λ s, is_Some (previous_agent_info s)) (step_agent_steps r) ∧
  (NoDup (agent_id <$> (env_reset (proc_env p) None true None).2) →
   ∃ w pre recs post,
     env_workers self !! proc_worker_id p = Some w ∧
     step_agent_steps r = pre ++ recs ++ post ∧
     Forall2 (λ info s,
                ∃ prev, PyDict.get (agent_id info) (previous_agent_steps w) = Some prev ∧
                        s = new_step (previous_agent_action_infos (step_self r)) prev info)
       (env_reset (proc_env p) None true None).2 recs).
Proof.
  intros Hname Hdone Hr Hin.
  split; [by apply worker_command_global_done|].
  split; [by eapply step_records_have_previous|].
  intros Hnd. by apply (step_records_of_batch self polls r (reset_batch p)).
Qed.

(** C3 at a pool of one worker whose environment has reached its global
    end. *)
Lemma global_done_step_is_incremental_witness :
  ∃ r, step one_worker [[@reset_batch _ finished_env finished_worker]] = Return r ∧
       Forall (λ s, is_Some (previous_agent_info s)) (step_agent_steps r).
Proof.
  eexists. split; [vm_compute; reflexivity|].
  refine (proj1 (proj2 (@global_done_step_is_incremental unit finished_env
            finished_worker {| cmd_name := "step"; cmd_payload := NoPayload |}
            one_worker [[@reset_batch _ finished_env finished_worker]] _ _ _ _ _)));
    [reflexivity | reflexivity | vm_compute; reflexivity |].
  apply elem_of_cons. left. reflexivity.
Defined.

(** ** The action recorded per agent id *)

(** C6 on two workers whose agents are both called "a".  The manager sends
    worker 0 the action 10 and worker 1 the action 20, and the slice
    dispatched to the agent of worker 0 is [echo_slice 10]; the record
    returned for the agent of worker 0 carries [echo_slice 20], the slice
    dispatched to the agent of worker 1. *)
Theorem previous_action_of_other_worker :
  ∃ r, step same_agent_ids [[batch 0 [agent "a" 11]]] = Return r ∧
       step_sent r = [(0, step_command 10); (1, step_command 20)] ∧
       slice_action_info (get_action echo_policy [agent "a" 10]) 0
         = Return (echo_slice 10) ∧
       step_agent_steps r =
         [{| previous_agent_info := Some (agent "a" 10);
             current_agent_info := agent "a" 11;
             previous_action := Some (echo_slice 20) |}].
Proof.
  eexists. split; [vm_compute; reflexivity|].
  split; [reflexivity|]. split; reflexivity.
Qed.

(** ** Counting commands and results in the pool *)












Lemma same_flags_of_fmap ws ws' :
  flags <$> ws' = flags <$> ws →
  same_flags ws ws'.
Proof.
  intros Heq. split.
  - by rewrite <- (length_fmap flags ws'), Heq, length_fmap.
  - intros i w Hw.
    assert (Hl : (flags <$> ws') !! i
                 = Some (worker_id w, waiting w))
      by (by rewrite Heq, list_lookup_fmap, Hw).
    rewrite list_lookup_fmap in Hl.
    destruct (ws' !! i) as [w'|]; [|discriminate].
    simpl in Hl. injection Hl as Hid Hwt. by exists w'.
Qed.

Lemma reset_collect_flags todo :
  ∀ visited replies acc ws' out,
    reset_collect visited todo replies acc = Return (ws', out) →
    same_flags (visited ++ todo) ws'.
Proof.
  intros visited replies acc ws' out Hc. apply same_flags_of_fmap.
  revert visited replies acc Hc.
  induction todo as [|ew rest IH]; intros visited replies acc Hc; simpl in Hc.
  - injection Hc as <- _. by rewrite app_nil_r.
  - destruct replies as [|infos replies]; [discriminate|].
    destruct (reset_infos _ _ _) as [hist acc1].
    rewrite (IH _ _ _ Hc), <- app_assoc, !fmap_app. done.
Qed.


Section pool_facts.
Context {E : Type} `{UnityEnvironment E}.
Implicit Types σ : Pool E.



End pool_facts.



Section pool_steps.
Context {E : Type} `{UnityEnvironment E}.
Implicit Types σ : Pool E.







End pool_steps.

Section pool_claims.
Context {E : Type} `{UnityEnvironment E}.
Implicit Types σ : Pool E.

(** The inner loop of [step] is a run of [pool_get_nowait] transitions. *)
Lemma drain_step_queue_path items :
  ∀ σ q ws' acc sw acc' sw',
    step_queue σ = items ++ q →
    drain_step_queue items (env_workers (manager σ)) acc sw = Return (ws', acc', sw') →
    rtc pool_step σ (pool_consumed σ ws' q items).
Proof.
  induction items as [|step rest IH]; intros σ q ws' acc sw acc' sw' Hq Hd; simpl in Hd.
  - injection Hd as <- _ _. simpl in Hq. rewrite <- Hq.
    destruct σ as [[ws acts pol] ps prs sq ss sc]. apply rtc_refl.
  - destruct (env_workers (manager σ) !! step_worker_id step) as [w|] eqn:Hw;
      [|discriminate].
    eapply rtc_l.
    + eapply (pool_get_nowait σ step (rest ++ q)); [done|].
      unfold get_nowait_update. by rewrite Hw.
    + match goal with
      | |- rtc _ ?σ1 _ =>
          change (rtc pool_step σ1 (pool_consumed σ1 ws' q rest))
      end.
      destruct (decide (step_worker_id step ∈ sw)); eapply IH; done.
Qed.

Lemma pool_consumed_nil σ q :
  step_queue σ = q → pool_consumed σ (env_workers (manager σ)) q [] = σ.
Proof. intros <-. by destruct σ as [[ws acts pol] ps prs sq ss sc]. Qed.

(** The first loop of [reset] is a run of [pool_get_nowait] transitions
    too. *)
Lemma reset_drain_path polls :
  ∀ σ q ws',
    reset_drain polls (env_workers (manager σ)) = Return ws' →
    step_queue σ = reset_consumed polls (env_workers (manager σ)) ++ q →
    rtc pool_step σ
      (pool_consumed σ ws' q (reset_consumed polls (env_workers (manager σ)))).
Proof.
  induction polls as [|[step|] polls IH]; intros σ q ws' Hd Hq;
    cbn [reset_drain reset_consumed] in *;
    destruct (existsb waiting (env_workers (manager σ))) eqn:Hw;
    try discriminate;
    try (injection Hd as <-; rewrite pool_consumed_nil by done; apply rtc_refl).
  - destruct (env_workers (manager σ) !! step_worker_id step) as [w|] eqn:Hl;
      [|discriminate].
    eapply rtc_l.
    + eapply (pool_get_nowait σ step); [exact Hq|].
      unfold get_nowait_update. by rewrite Hl.
    + match goal with
      | |- rtc _ ?σ1 _ =>
          apply (IH σ1 q ws'); [exact Hd | reflexivity]
      end.
  - by apply IH.
Qed.


End pool_claims.


(** ** The theorems at concrete pools *)

(** C1 with two workers of which only worker 1 has answered, after one
    empty pass: the call returns with that one result. *)
Lemma step_returns_at_first_result_witness :
  step two_workers ([] :: [batch 1 [agent "a1" 21]] :: [[batch 0 []]])
    = step two_workers [[batch 1 [agent "a1" 21]]] ∧
  step two_workers [[batch 1 [agent "a1" 21]]] ≠ Pending.
Proof.
  destruct (step_returns_at_first_result two_workers 1 [batch 1 [agent "a1" 21]]
              [[batch 0 []]]) as (H1 & H2 & _); [done|].
  split; [exact H1 | exact H2].
Defined.


(** C2 with the result of worker 1 ahead of that of worker 0. *)
Lemma step_records_in_arrival_order_witness :
  ∃ r, step two_workers
         [[batch 1 [agent "a1" 21]; batch 0 [agent "a0" 12; agent "b0" 13]]]
       = Return r ∧
       current_agent_info <$> step_agent_steps r = observations (step_worker_steps r).
Proof.
  eexists.
  match goal with |- ?R ∧ _ => assert (Hr : R) by (vm_compute; reflexivity) end.
  split; [exact Hr|].
  destruct (step_records_in_arrival_order _ _ _ Hr) as (k & b & rest & _ & _ & Hobs).
  exact Hobs.
Defined.

(** C8 with two results of worker 1 in one pass. *)
Lemma step_one_batch_per_worker_witness :
  ∃ r, step two_workers
         [[batch 1 [agent "a1" 21]; batch 0 [agent "a0" 12]; batch 1 [agent "a1" 22]]]
       = Return r ∧
       NoDup (step_worker_id <$> step_worker_steps r).
Proof.
  eexists.
  match goal with |- ?R ∧ _ => assert (Hr : R) by (vm_compute; reflexivity) end.
  split; [exact Hr|].
  exact (proj1 (step_one_batch_per_worker _ _ _ Hr)).
Defined.

(** C9 on a fresh pool of two workers. *)
Lemma reset_records_are_initial_witness :
  ∃ r, reset (init 2 {["Brain" := echo_policy]}) None true None []
         [[agent "a0" 10; agent "b0" 11]; [agent "a1" 20]]
       = Return r ∧
       Forall (λ s, previous_agent_info s = None ∧ previous_action s = None)
         (reset_agent_steps r).
Proof.
  eexists.
  match goal with |- ?R ∧ _ => assert (Hr : R) by (vm_compute; reflexivity) end.
  split; [exact Hr|].
  exact (proj1 (reset_records_are_initial _ _ _ _ _ _ _ Hr)).
Defined.

(** C10 with a result of worker 1 that shows an agent the manager has
    never seen. *)
Lemma step_unseen_agent_raises_witness :
  step two_workers ([] :: [batch 1 [agent "stranger" 5]] :: []) = Raise KeyError.
Proof.
  apply (step_unseen_agent_raises two_workers 1 [batch 1 [agent "stranger" 5]] []).
  - eexists. vm_compute. reflexivity.
  - done.
  - repeat constructor.
  - apply Exists_cons_hd. eexists. split; [reflexivity|].
    apply Exists_cons_hd. reflexivity.
Defined.

(** ** What [_take_step] records *)

Lemma group_by_brain_get items :
  ∀ acc b,
    default [] (PyDict.get b (group_by_brain items acc))
    = default [] (PyDict.get b acc) ++ filter (λ s, step_brain s = b) items.*2.
Proof.
  induction items as [|[k s] items IH]; intros acc b; simpl.
  - by rewrite app_nil_r.
  - rewrite IH. clear IH. fold (step_brain s).
    destruct (decide (step_brain s = b)) as [<-|Hne].
    + rewrite filter_cons_True by done.
      destruct (PyDict.get (step_brain s) acc) as [l|] eqn:Hg; cbv iota;
        rewrite get_set_eq; simpl; [by rewrite <- app_assoc | done].
    + rewrite filter_cons_False by done.
      destruct (PyDict.get (step_brain s) acc) as [l|] eqn:Hg; cbv iota;
        by rewrite get_set_ne.
Qed.

Lemma group_by_brain_nodup items :
  ∀ acc, NoDup (PyDict.keys acc) → NoDup (PyDict.keys (group_by_brain items acc)).
Proof.
  induction items as [|[k s] items IH]; intros acc Hnd; simpl; [done|].
  apply IH. destruct (PyDict.get _ acc); by apply NoDup_keys_set.
Qed.

(** The groups of [previous_steps_by_brain] are the records of each brain. *)
Lemma group_by_brain_elem hist b l :
  (b, l) ∈ group_by_brain hist [] →
  l = filter (λ s, step_brain s = b) (PyDict.values hist).
Proof.
  intros Hin. apply elem_of_get in Hin; [|apply group_by_brain_nodup; constructor].
  pose proof (group_by_brain_get hist [] b) as Hg. rewrite Hin in Hg. done.
Qed.

Lemma group_by_brain_of_record hist s :
  s ∈ PyDict.values hist →
  (step_brain s, filter (λ x, step_brain x = step_brain s) (PyDict.values hist))
    ∈ group_by_brain hist [].
Proof.
  intros Hin. apply get_Some_elem_of.
  pose proof (group_by_brain_get hist [] (step_brain s)) as Hg. simpl in Hg.
  destruct (PyDict.get (step_brain s) (group_by_brain hist [])) as [l|]; simpl in Hg.
  - by rewrite Hg.
  - exfalso. assert (Hs : s ∈ filter (λ x, step_brain x = step_brain s) (PyDict.values hist))
      by (by apply list_elem_of_filter).
    unfold PyDict.values in *. rewrite <- Hg in Hs. by apply elem_of_nil in Hs.
Qed.

Lemma record_agent_actions_frame action_info agent_infos :
  ∀ idx acts acts' k,
    record_agent_actions action_info idx agent_infos acts = Return acts' →
    k ∉ agent_id <$> agent_infos →
    acts' !! k = acts !! k.
Proof.
  induction agent_infos as [|info rest IH]; intros idx acts acts' k Hr Hk; simpl in Hr.
  - by injection Hr as <-.
  - destruct (slice_action_info action_info idx) as [sl| |]; simpl in Hr;
      try discriminate.
    rewrite fmap_cons in Hk. apply not_elem_of_cons in Hk as [Hne Hk].
    rewrite (IH _ _ _ _ Hr Hk). by rewrite lookup_insert_ne.
Qed.

(** Each agent of the batch gets the slice at its index. *)
Lemma record_agent_actions_spec action_info agent_infos :
  ∀ idx acts acts' j info,
    record_agent_actions action_info idx agent_infos acts = Return acts' →
    NoDup (agent_id <$> agent_infos) →
    agent_infos !! j = Some info →
    ∃ sl, slice_action_info action_info (idx + j) = Return sl ∧
          acts' !! agent_id info = Some sl.
Proof.
  induction agent_infos as [|info0 rest IH]; intros idx acts acts' j info Hr Hnd Hj;
    simpl in Hr; [done|].
  destruct (slice_action_info action_info idx) as [sl| |] eqn:Hsl; simpl in Hr;
    try discriminate.
  rewrite fmap_cons in Hnd. apply NoDup_cons in Hnd as [Hnotin Hnd].
  destruct j as [|j]; simpl in Hj.
  - injection Hj as <-. exists sl. rewrite Nat.add_0_r. split; [done|].
    rewrite (record_agent_actions_frame _ _ _ _ _ _ Hr Hnotin).
    by rewrite lookup_insert_eq.
  - replace (idx + S j) with (S idx + j) by lia. by eapply IH.
Qed.

Lemma NoDup_fmap_eq {A B} (f : A → B) (l : list A) x y :
  NoDup (f <$> l) → x ∈ l → y ∈ l → f x = f y → x = y.
Proof.
  induction l as [|a l IH]; intros Hnd Hx Hy Hf; [by apply elem_of_nil in Hx|].
  rewrite fmap_cons in Hnd. apply NoDup_cons in Hnd as [Ha Hnd].
  apply elem_of_cons in Hx as [->|Hx]; apply elem_of_cons in Hy as [->|Hy].
  - done.
  - exfalso. apply Ha. rewrite Hf. by apply list_elem_of_fmap_2.
  - exfalso. apply Ha. rewrite <- Hf. by apply list_elem_of_fmap_2.
  - by apply IH.
Qed.

Lemma NoDup_fmap_filter {A B} (f : A → B) (P : A → Prop) `{∀ x, Decision (P x)}
    (l : list A) :
  NoDup (f <$> l) → NoDup (f <$> filter P l).
Proof.
  induction l as [|a l IH]; intros Hnd; [done|].
  rewrite fmap_cons in Hnd. apply NoDup_cons in Hnd as [Ha Hnd].
  destruct (decide (P a)).
  - rewrite filter_cons_True by done. rewrite fmap_cons. apply NoDup_cons.
    split; [|by apply IH]. intros Hin. apply Ha.
    apply list_elem_of_fmap in Hin as (y & -> & Hy).
    apply list_elem_of_filter in Hy as [_ Hy]. by apply list_elem_of_fmap_2.
  - rewrite filter_cons_False by done. by apply IH.
Qed.

Lemma take_step_brains_frame pol items :
  ∀ acts all acts' all' k,
    take_step_brains pol items acts all = Return (acts', all') →
    (∀ b l s, (b, l) ∈ items → s ∈ l → step_agent s ≠ k) →
    acts' !! k = acts !! k.
Proof.
  induction items as [|[b l] items IH]; intros acts all acts' all' k Ht Hk; simpl in Ht.
  - by injection Ht as <- _.
  - destruct (pol !! b) as [p|]; [|discriminate].
    destruct (record_agent_actions _ _ _ _) as [acts1| |] eqn:Hr; simpl in Ht;
      try discriminate.
    rewrite (IH _ _ _ _ _ Ht).
    + eapply record_agent_actions_frame; [apply Hr|].
      intros Hin. apply list_elem_of_fmap in Hin as (info & -> & Hin).
      apply list_elem_of_fmap in Hin as (s & -> & Hin).
      apply (Hk b l s); [apply elem_of_cons; by left | done | done].
    + intros b' l' s Hin. apply (Hk b' l' s). apply elem_of_cons. by right.
Qed.

Lemma take_step_brains_other_brain pol items :
  ∀ acts all acts' all' b,
    take_step_brains pol items acts all = Return (acts', all') →
    b ∉ items.*1 →
    PyDict.get b all' = PyDict.get b all.
Proof.
  induction items as [|[b0 l] items IH]; intros acts all acts' all' b Ht Hb; simpl in Ht.
  - by injection Ht as _ <-.
  - destruct (pol !! b0) as [p|]; [|discriminate].
    destruct (record_agent_actions _ _ _ _) as [acts1| |] eqn:Hr; simpl in Ht;
      try discriminate.
    rewrite fmap_cons in Hb. apply not_elem_of_cons in Hb as [Hne Hb].
    rewrite (IH _ _ _ _ _ Ht Hb). by rewrite get_set_ne.
Qed.

(** For each brain, the batch the policy returned is what is sent, and the
    agent at index [j] of the batch gets the slice at [j]. *)
Lemma take_step_brains_spec pol items :
  ∀ acts all acts' all',
    take_step_brains pol items acts all = Return (acts', all') →
    NoDup items.*1 →
    (∀ b l, (b, l) ∈ items → NoDup (step_agent <$> l)) →
    (∀ b l b' l' s s', (b, l) ∈ items → (b', l') ∈ items → s ∈ l → s' ∈ l' →
                       step_agent s = step_agent s' → b = b') →
    ∀ b l, (b, l) ∈ items →
      ∃ p, pol !! b = Some p ∧
           PyDict.get b all' = Some (get_action p (current_agent_info <$> l)) ∧
           ∀ j s, l !! j = Some s →
             ∃ sl, slice_action_info (get_action p (current_agent_info <$> l)) j
                     = Return sl ∧
                   acts' !! step_agent s = Some sl.
Proof.
  induction items as [|[b0 l0] items IH];
    intros acts all acts' all' Ht Hkeys Hnd Hdis b l Hin;
    [by apply elem_of_nil in Hin|].
  simpl in Ht.
  destruct (pol !! b0) as [p|] eqn:Hp; [|discriminate].
  destruct (record_agent_actions _ _ _ _) as [acts1| |] eqn:Hr; simpl in Ht;
    try discriminate.
  rewrite fmap_cons in Hkeys. apply NoDup_cons in Hkeys as [Hb0 Hkeys]. simpl in Hb0.
  apply elem_of_cons in Hin as [Heq|Hin].
  - injection Heq as -> ->. exists p. split; [done|]. split.
    + rewrite (take_step_brains_other_brain _ _ _ _ _ _ _ Ht Hb0).
      apply get_set_eq.
    + intros j s Hj.
      destruct (record_agent_actions_spec _ _ 0 _ _ j (current_agent_info s) Hr)
        as (sl & Hsl & Hacts).
      * rewrite <- list_fmap_compose. apply (Hnd b0 l0). apply elem_of_cons. by left.
      * by rewrite list_lookup_fmap, Hj.
      * exists sl. split; [done|].
        rewrite (take_step_brains_frame _ _ _ _ _ _ _ Ht); [done|].
        intros b' l' s' Hin' Hs' Heq.
        assert (b' = b0) as ->.
        { apply (Hdis b' l' b0 l0 s' s); try done.
          - apply elem_of_cons. by right.
          - apply elem_of_cons. by left.
          - by eapply list_elem_of_lookup_2. }
        apply Hb0. by apply (list_elem_of_fmap_2 fst _ (b0, l')).
  - eapply (IH _ _ _ _ Ht Hkeys); [| |done].
    + intros b' l' Hin'. apply (Hnd b' l'). apply elem_of_cons. by right.
    + intros b1 l1 b2 l2 s s' H1 H2. apply Hdis; apply elem_of_cons; by right.
Qed.

Lemma _take_step_acts_frame self previous_steps self' all_action_info k :
  _take_step self previous_steps = Return (self', all_action_info) →
  k ∉ agent_ids previous_steps →
  previous_agent_action_infos self' !! k = previous_agent_action_infos self !! k.
Proof.
  unfold _take_step. intros Ht Hk.
  destruct (take_step_brains _ _ _ _) as [[acts all]| |] eqn:Hb; simpl in Ht;
    try discriminate.
  injection Ht as <- _. simpl.
  eapply take_step_brains_frame; [apply Hb|].
  intros b l s Hin Hs Heq. apply Hk.
  rewrite (group_by_brain_elem _ _ _ Hin) in Hs.
  apply list_elem_of_filter in Hs as [_ Hs].
  rewrite <- Heq. by apply list_elem_of_fmap_2.
Qed.

(** What [_take_step] does for one stored record [s] of a history with
    one record per agent: the batch the policy of the record's brain
    returns for the observations of that brain is what is sent for the
    brain, the record's observation sits at some index [j] of those, and
    the slice at [j] of the batch is what is recorded under the agent's
    id. *)
Lemma _take_step_records self previous_steps self' all_action_info s :
  _take_step self previous_steps = Return (self', all_action_info) →
  NoDup (agent_ids previous_steps) →
  s ∈ PyDict.values previous_steps →
  ∃ p j sl,
    policies self !! step_brain s = Some p ∧
    PyDict.get (step_brain s) all_action_info
      = Some (get_action p (brain_batch previous_steps (step_brain s))) ∧
    brain_batch previous_steps (step_brain s) !! j = Some (current_agent_info s) ∧
    slice_action_info (get_action p (brain_batch previous_steps (step_brain s))) j
      = Return sl ∧
    previous_agent_action_infos self' !! step_agent s = Some sl.
Proof.
  unfold _take_step. intros Ht Hnd Hs.
  destruct (take_step_brains _ _ _ _) as [[acts all]| |] eqn:Hb; simpl in Ht;
    try discriminate.
  injection Ht as <- <-. simpl.
  pose proof (group_by_brain_of_record _ _ Hs) as Hgroup.
  destruct (take_step_brains_spec _ _ _ _ _ _ Hb) with (b := step_brain s)
    (l := filter (λ x, step_brain x = step_brain s) (PyDict.values previous_steps))
    as (p & Hp & Hall & Hslices).
  - apply group_by_brain_nodup. constructor.
  - intros b l Hin. rewrite (group_by_brain_elem _ _ _ Hin).
    by apply NoDup_fmap_filter.
  - intros b l b' l' x x' Hin Hin' Hx Hx' Heq.
    rewrite (group_by_brain_elem _ _ _ Hin) in Hx.
    rewrite (group_by_brain_elem _ _ _ Hin') in Hx'.
    apply list_elem_of_filter in Hx as [<- Hx].
    apply list_elem_of_filter in Hx' as [<- Hx'].
    by rewrite (NoDup_fmap_eq step_agent _ x x' Hnd Hx Hx' Heq).
  - done.
  - assert (Hsl : s ∈ filter (λ x, step_brain x = step_brain s)
                        (PyDict.values previous_steps))
      by (by apply list_elem_of_filter).
    apply list_elem_of_lookup in Hsl as [j Hj].
    destruct (Hslices j s Hj) as (sl & Hsl & Hacts).
    exists p, j, sl. unfold brain_batch.
    split; [done|]. split; [done|]. split; [|done].
    by rewrite list_lookup_fmap, Hj.
Qed.

Lemma queue_steps_loop_frame todo :
  ∀ self visited sent self' sent' k,
    queue_steps_loop self visited todo sent = Return (self', sent') →
    (∀ w', w' ∈ todo → waiting w' = false → k ∉ agent_ids (previous_agent_steps w')) →
    previous_agent_action_infos self' !! k = previous_agent_action_infos self !! k.
Proof.
  induction todo as [|w0 rest IH]; intros self visited sent self' sent' k Hq Hk;
    simpl in Hq.
  - by injection Hq as <- _.
  - destruct (waiting w0) eqn:Hw0; simpl in Hq.
    + eapply IH; [apply Hq|]. intros w' Hin. apply Hk. apply elem_of_cons. by right.
    + destruct (_take_step self _) as [[self1 all]| |] eqn:Ht; simpl in Hq;
        try discriminate.
      rewrite (IH _ _ _ _ _ k Hq).
      * eapply _take_step_acts_frame; [apply Ht|].
        apply Hk; [apply elem_of_cons; by left | done].
      * intros w' Hin. apply Hk. apply elem_of_cons. by right.
Qed.

(** The handle at position [n] of the loop of [_queue_steps], when it is
    not waiting: its history goes through [_take_step], the result is sent
    to it, and what was recorded stays under every agent id that no later
    dispatched handle holds. *)
Lemma queue_steps_loop_acts todo :
  ∀ self visited sent self' sent' n w,
    queue_steps_loop self visited todo sent = Return (self', sent') →
    todo !! n = Some w → waiting w = false →
    ∃ self0 self1 all,
      _take_step self0 (previous_agent_steps w) = Return (self1, all) ∧
      policies self0 = policies self ∧
      (worker_id w, {| cmd_name := "step"; cmd_payload := ActionPayload all |}) ∈ sent' ∧
      ∀ k, (∀ w', w' ∈ drop (S n) todo → waiting w' = false →
                  k ∉ agent_ids (previous_agent_steps w')) →
           previous_agent_action_infos self' !! k
           = previous_agent_action_infos self1 !! k.
Proof.
  induction todo as [|w0 rest IH]; intros self visited sent self' sent' n w Hq Hn Hw;
    [done|].
  simpl in Hq. destruct n as [|n]; simpl in Hn.
  - injection Hn as ->. rewrite Hw in Hq. simpl in Hq.
    destruct (_take_step self _) as [[self1 all]| |] eqn:Ht; simpl in Hq;
      try discriminate.
    exists self, self1, all. split; [done|]. split; [done|]. split.
    + destruct (queue_steps_loop_spec _ _ _ _ _ _ Hq) as (_ & _ & new & -> & _).
      apply elem_of_app. left. apply elem_of_app. right. apply list_elem_of_singleton. done.
    + intros k Hk. simpl in Hk. by eapply queue_steps_loop_frame.
  - destruct (waiting w0) eqn:Hw0; simpl in Hq.
    + by eapply IH.
    + destruct (_take_step self _) as [[self1 all]| |] eqn:Ht; simpl in Hq;
        try discriminate.
      destruct (_take_step_frame _ _ _ _ Ht) as [_ Hpol].
      destruct (IH _ _ _ _ _ _ _ Hq Hn Hw) as (self0 & self2 & all2 & ? & ? & ? & ?).
      exists self0, self2, all2. split; [done|]. split; [congruence|]. done.
Qed.

(** X1.  The records of a handle that [step] dispatches to.  Let the handle at
    position [i] be not waiting, with one stored record per agent, and let
    [s] be one of them, of an agent whose id no handle dispatched after it
    holds.  Then the command sent to the worker carries, for the brain of
    [s], the batch of the brain's policy; and every record the call returns
    for that agent id has as previous action the slice of that batch at the
    index of the agent. *)
Lemma step_previous_action_dispatched self polls r i w s :
  step self polls = Return r →
  env_workers self !! i = Some w →
  waiting w = false →
  NoDup (agent_ids (previous_agent_steps w)) →
  s ∈ PyDict.values (previous_agent_steps w) →
  (∀ w', w' ∈ drop (S i) (env_workers self) → waiting w' = false →
         step_agent s ∉ agent_ids (previous_agent_steps w')) →
  ∃ p j sl all,
    policies self !! step_brain s = Some p ∧
    (worker_id w, {| cmd_name := "step"; cmd_payload := ActionPayload all |})
      ∈ step_sent r ∧
    PyDict.get (step_brain s) all
      = Some (get_action p (brain_batch (previous_agent_steps w) (step_brain s))) ∧
    brain_batch (previous_agent_steps w) (step_brain s) !! j
      = Some (current_agent_info s) ∧
    slice_action_info
      (get_action p (brain_batch (previous_agent_steps w) (step_brain s))) j
      = Return sl ∧
    Forall (λ rec, step_agent rec = step_agent s → previous_action rec = Some sl)
      (step_agent_steps r).
Proof.
  intros Hr Hw Hnw Hnd Hs Hlater.
  destruct (step_inv _ _ _ Hr) as (self1 & ws & k & b & rest & sw & Hq & _ & _ & _ & Hp).
  destruct (queue_steps_loop_acts _ _ _ _ _ _ _ _ Hq Hw Hnw)
    as (self0 & self0' & all & Ht & Hpol & Hsent & Hframe).
  destruct (_take_step_records _ _ _ _ s Ht Hnd Hs)
    as (p & j & sl & Hp0 & Hall & Hj & Hsl & Hacts).
  exists p, j, sl, all.
  split; [by rewrite <- Hpol|]. split; [done|]. split; [done|].
  split; [done|]. split; [done|].
  unfold _postprocess_steps in Hp.
  destruct (postprocess_loop _ _ _ _ _) as [[[ws' out] tn]| |] eqn:Hl; simpl in Hp;
    try discriminate.
  injection Hp as _ <-.
  destruct (postprocess_loop_spec _ _ _ _ _ _ _ _ Hl) as (_ & new & -> & _ & Hall').
  simpl in *. eapply Forall_impl; [apply Hall'|]. simpl.
  intros rec [_ Hrec] Heq. rewrite Hrec.
  change (agent_id (current_agent_info rec)) with (step_agent rec). rewrite Heq.
  rewrite (Hframe _ Hlater). done.
Qed.

(** ** Histories hold one record per agent *)

Lemma history_ok_agent_ids hist : history_ok hist → NoDup (agent_ids hist).
Proof.
  intros [Hnd Hall]. unfold agent_ids, PyDict.values.
  replace (step_agent <$> hist.*2) with (PyDict.keys hist); [done|].
  unfold PyDict.keys. rewrite <- list_fmap_compose. apply list_fmap_ext.
  intros i kv Hi. rewrite Forall_forall in Hall. symmetry. apply Hall.
  by eapply list_elem_of_lookup_2.
Qed.

Lemma history_ok_set k s hist :
  history_ok hist → step_agent s = k → history_ok (PyDict.set k s hist).
Proof.
  intros [Hnd Hall] Hk. split; [by apply NoDup_keys_set|].
  clear Hnd. induction hist as [|[k' s'] hist IH]; simpl.
  - by constructor.
  - apply Forall_cons in Hall as [Hhd Hall].
    destruct (decide (k = k')); constructor; auto.
Qed.

Lemma reset_infos_history_ok infos :
  ∀ hist acc, history_ok hist → history_ok (reset_infos infos hist acc).1.
Proof.
  induction infos as [|info rest IH]; intros hist acc Hok; simpl; [done|].
  apply IH. by apply history_ok_set.
Qed.

Lemma postprocess_infos_history_ok acts infos :
  ∀ hist acc hist' out,
    postprocess_infos acts infos hist acc = Return (hist', out) →
    history_ok hist → history_ok hist'.
Proof.
  induction infos as [|info rest IH]; intros hist acc hist' out Hp Hok; simpl in Hp.
  - by injection Hp as <- _.
  - destruct (PyDict.get (agent_id info) hist) as [prev|]; [|discriminate].
    eapply IH; [apply Hp|]. by apply history_ok_set.
Qed.

Lemma reset_collect_history_ok todo :
  ∀ visited replies acc ws' out,
    reset_collect visited todo replies acc = Return (ws', out) →
    Forall (history_ok ∘ previous_agent_steps) (visited ++ todo) →
    Forall (history_ok ∘ previous_agent_steps) ws'.
Proof.
  induction todo as [|ew rest IH]; intros visited replies acc ws' out Hc Hok;
    simpl in Hc.
  - injection Hc as <- _. by rewrite app_nil_r in Hok.
  - destruct replies as [|infos replies]; [discriminate|].
    pose proof (reset_infos_history_ok infos (previous_agent_steps ew) acc) as Hi.
    destruct (reset_infos _ _ _) as [hist acc1]. simpl in Hi.
    eapply IH; [apply Hc|].
    apply Forall_app in Hok as [Hv Ht]. apply Forall_cons in Ht as [Hew Ht].
    rewrite <- app_assoc. apply Forall_app. split; [done|].
    constructor; [by apply Hi | done].
Qed.

Lemma postprocess_loop_history_ok acts env_steps :
  ∀ ws acc tn ws' out tn',
    postprocess_loop acts env_steps ws acc tn = Return (ws', out, tn') →
    Forall (history_ok ∘ previous_agent_steps) ws →
    Forall (history_ok ∘ previous_agent_steps) ws'.
Proof.
  induction env_steps as [|step rest IH]; intros ws acc tn ws' out tn' Hp Hok;
    simpl in Hp.
  - by injection Hp as <- _ _.
  - destruct (ws !! step_worker_id step) as [w|] eqn:Hw; [|discriminate].
    destruct (postprocess_infos acts _ _ acc) as [[hist acc1]| |] eqn:Hi;
      simpl in Hp; try discriminate.
    eapply IH; [apply Hp|]. apply Forall_insert; [done|]. simpl.
    eapply postprocess_infos_history_ok; [apply Hi|].
    rewrite Forall_forall in Hok. apply (Hok w). by eapply list_elem_of_lookup_2.
Qed.

Lemma same_but_waiting_history_ok ws ws' :
  same_but_waiting ws ws' →
  Forall (history_ok ∘ previous_agent_steps) ws →
  Forall (history_ok ∘ previous_agent_steps) ws'.
Proof.
  intros [_ Hh] Hok. apply Forall_fmap in Hok. apply Forall_fmap.
  by rewrite Hh.
Qed.

(** [reset] and [step] keep the histories in that shape, which they have
    from the start. *)
Lemma init_history_ok n pol :
  Forall (history_ok ∘ previous_agent_steps) (env_workers (init n pol)).
Proof.
  simpl. apply Forall_fmap, Forall_true. intros i. simpl.
  split; constructor.
Qed.

Lemma reset_history_ok self config train_mode custom polls replies r :
  reset self config train_mode custom polls replies = Return r →
  Forall (history_ok ∘ previous_agent_steps) (env_workers self) →
  Forall (history_ok ∘ previous_agent_steps) (env_workers (reset_self r)).
Proof.
  unfold reset. intros Hr Hok.
  destruct (reset_drain polls (env_workers self)) as [ws| |] eqn:Hd; simpl in Hr;
    try discriminate.
  destruct (reset_collect [] ws replies []) as [[ws' out]| |] eqn:Hc; simpl in Hr;
    try discriminate.
  injection Hr as <-. simpl.
  eapply reset_collect_history_ok; [apply Hc|]. simpl.
  destruct (reset_drain_spec _ _ _ Hd) as [_ Hs].
  by eapply same_but_waiting_history_ok.
Qed.

Lemma step_history_ok self polls r :
  step self polls = Return r →
  Forall (history_ok ∘ previous_agent_steps) (env_workers self) →
  Forall (history_ok ∘ previous_agent_steps) (env_workers (step_self r)).
Proof.
  intros Hr Hok.
  destruct (step_inv _ _ _ Hr) as (self1 & ws & k & b & rest & sw & Hq & _ & _ & Hd & Hp).
  destruct (step_handles_before_postprocess _ _ _ _ _ _ _ Hq Hd) as [Hs _].
  unfold _postprocess_steps in Hp.
  destruct (postprocess_loop _ _ _ _ _) as [[[ws' out] tn]| |] eqn:Hl; simpl in Hp;
    try discriminate.
  injection Hp as <- _. simpl.
  eapply postprocess_loop_history_ok; [apply Hl|]. simpl.
  by eapply same_but_waiting_history_ok.
Qed.

(** * Further facts about the environment manager *)

(** ** The shape of the histories *)

(** X2.  In every manager state a program reaches, every handle's history has
    one entry per agent id, each record stored under the id of the agent it
    shows; so no two records of a handle show the same agent. *)
Theorem reachable_histories_keyed_by_agent self :
  reachable self →
  Forall (λ w, history_ok (previous_agent_steps w) ∧
               NoDup (agent_ids (previous_agent_steps w)))
    (env_workers self).
Proof.
  intros Hreach.
  assert (Hok : Forall (history_ok ∘ previous_agent_steps) (env_workers self)).
  { induction Hreach as [n pol | self c t p polls replies r _ IH Hr
                        | self polls r _ IH Hr | self b p _ IH].
    - apply init_history_ok.
    - by eapply reset_history_ok.
    - by eapply step_history_ok.
    - exact IH. }
  eapply Forall_impl; [apply Hok|]. simpl. intros w Hw.
  split; [done | by apply history_ok_agent_ids].
Qed.

(** ** The flags after [step] and [reset] *)

Lemma drain_step_queue_flags items :
  ∀ ws acc sw ws' acc' sw',
    drain_step_queue items ws acc sw = Return (ws', acc', sw') →
    (∀ x, x ∈ sw' ↔ x ∈ sw ∨ x ∈ step_worker_id <$> items) ∧
    ∀ i w', ws' !! i = Some w' →
      ∃ w, ws !! i = Some w ∧
           waiting w' = if decide (i ∈ step_worker_id <$> items) then false
                        else waiting w.
Proof.
  induction items as [|step rest IH]; intros ws acc sw ws' acc' sw' Hd; simpl in Hd.
  - injection Hd as <- <- <-. split.
    + intros x. simpl. rewrite elem_of_nil. tauto.
    + intros i w' Hw'. exists w'. split; [done|].
      rewrite decide_False; [done | simpl; apply not_elem_of_nil].
  - destruct (ws !! step_worker_id step) as [w0|] eqn:Hw0; [|discriminate].
    assert (Hlt : step_worker_id step < length ws) by by eapply lookup_lt_Some.
    assert (Hcase : ∃ acc1 sw1,
               drain_step_queue rest (<[step_worker_id step := set_waiting false w0]> ws)
                 acc1 sw1 = Return (ws', acc', sw') ∧
               (∀ x, x ∈ sw1 → x ∈ sw ∨ x = step_worker_id step) ∧
               (∀ x, x ∈ sw → x ∈ sw1) ∧ step_worker_id step ∈ sw1).
    { destruct (decide (step_worker_id step ∈ sw)).
      - exists acc, sw. split; [done|]. split; [tauto|]. by split.
      - eexists _, _. split; [exact Hd|]. split; [|split]; set_solver. }
    destruct Hcase as (acc1 & sw1 & Hd1 & Hsub1 & Hsub2 & Hin1).
    destruct (IH _ _ _ _ _ _ Hd1) as [Hsw Hflags]. split.
    + intros x. rewrite Hsw, fmap_cons, elem_of_cons. split.
      * intros [Hx|Hx]; [|tauto]. destruct (Hsub1 x Hx); tauto.
      * intros [Hx|[->|Hx]]; [left; by apply Hsub2 | by left | by right].
    + intros i w' Hw'. destruct (Hflags i w' Hw') as (w1 & Hw1 & Hwait).
      rewrite fmap_cons.
      destruct (decide (step_worker_id step = i)) as [<-|Hne].
      * rewrite list_lookup_insert_eq in Hw1 by done. injection Hw1 as <-.
        exists w0. split; [done|]. rewrite Hwait. simpl.
        repeat case_decide; try done; exfalso; set_solver.
      * rewrite list_lookup_insert_ne in Hw1 by done.
        exists w1. split; [done|]. rewrite Hwait.
        repeat case_decide; try done; exfalso; set_solver.
Qed.

(** X3.  After [step] returns, the handles of the workers whose batches it
    returned are not waiting, and every other handle is waiting. *)
Theorem step_waiting_flags self polls r :
  step self polls = Return r →
  length (env_workers (step_self r)) = length (env_workers self) ∧
  ∀ i w', env_workers (step_self r) !! i = Some w' →
    (waiting w' = false ↔ i ∈ step_worker_id <$> step_worker_steps r).
Proof.
  intros Hr.
  destruct (step_inv _ _ _ Hr) as (self1 & ws & k & b & rest & sw & Hq & _ & _ & Hd & Hp).
  destruct (_queue_steps_spec _ _ _ Hq) as (Hws & _).
  destruct (drain_step_queue_flags _ _ _ _ _ _ _ Hd) as [Hsw Hflags].
  destruct (drain_step_queue_spec _ _ _ _ _ _ _ Hd seen_ok_nil)
    as ([_ Hseen] & Hsame & _).
  unfold _postprocess_steps in Hp.
  destruct (postprocess_loop _ _ _ _ _) as [[[ws' out] tn]| |] eqn:Hl; simpl in Hp;
    try discriminate.
  injection Hp as Hself _.
  destruct (postprocess_loop_spec _ _ _ _ _ _ _ _ Hl) as ([Hlen Hhist] & _).
  simpl in Hlen, Hhist. rewrite <- Hself. simpl. split.
  - by rewrite Hlen, (same_but_waiting_length _ _ Hsame), Hws, length_fmap.
  - intros i w' Hw'.
    assert (Hlt : i < length ws) by (rewrite <- Hlen; by eapply lookup_lt_Some).
    destruct (lookup_lt_is_Some_2 _ _ Hlt) as [w1 Hw1].
    destruct (Hhist i w1 Hw1) as (w'' & Hw'' & _ & Hwait & _).
    assert (w'' = w') as -> by congruence.
    destruct (Hflags i w1 Hw1) as (w0 & Hw0 & Hwait1).
    rewrite Hws, list_lookup_fmap in Hw0.
    destruct (env_workers self !! i) as [w|]; [|done].
    simpl in Hw0. injection Hw0 as <-. simpl in Hwait1.
    rewrite Hwait, Hwait1, <- Hseen, Hsw.
    destruct (decide (i ∈ step_worker_id <$> b)) as [Hin|Hnin].
    + split; [by right | done].
    + split; [done|]. intros [Hx|Hx]; [by apply elem_of_empty in Hx | done].
Qed.

Lemma reset_infos_frame infos :
  ∀ hist acc k,
    k ∉ agent_id <$> infos →
    PyDict.get k (reset_infos infos hist acc).1 = PyDict.get k hist.
Proof.
  induction infos as [|info rest IH]; intros hist acc k Hk; simpl; [done|].
  rewrite fmap_cons in Hk. apply not_elem_of_cons in Hk as [Hne Hk].
  rewrite IH by done. by rewrite get_set_ne.
Qed.

Lemma reset_collect_frame todo :
  ∀ visited replies acc ws' out j w infos k,
    reset_collect visited todo replies acc = Return (ws', out) →
    todo !! j = Some w → replies !! j = Some infos →
    k ∉ agent_id <$> infos →
    ∃ w', ws' !! (length visited + j) = Some w' ∧
          PyDict.get k (previous_agent_steps w') = PyDict.get k (previous_agent_steps w).
Proof.
  induction todo as [|ew rest IH]; intros visited replies acc ws' out j w infos k Hc Hj Hr Hk;
    [done|].
  simpl in Hc. destruct replies as [|infos0 replies]; [discriminate|].
  pose proof (reset_infos_frame infos0 (previous_agent_steps ew) acc k) as Hframe.
  destruct (reset_infos infos0 (previous_agent_steps ew) acc) as [hist acc1] eqn:Hi.
  destruct j as [|j]; simpl in Hj, Hr.
  - injection Hj as ->. injection Hr as ->.
    destruct (reset_collect_spec _ _ _ _ _ _ Hc) as (new & -> & _).
    eexists. split.
    + rewrite Nat.add_0_r, <- app_assoc. simpl.
      by rewrite list_lookup_middle.
    + simpl. by apply Hframe.
  - destruct (IH _ _ _ _ _ _ _ _ _ Hc Hj Hr Hk) as (w' & Hw' & Hget).
    exists w'. split; [|done].
    rewrite length_app in Hw'. simpl in Hw'.
    by replace (length visited + S j) with (length visited + 1 + j) by lia.
Qed.

(** X4.  When [reset] returns, no handle is waiting, one ["reset"] command with
    the call's arguments has been sent to each worker, in worker order, and
    the pool has as many handles as before. *)
Theorem reset_leaves_nobody_waiting self config train_mode custom polls replies r :
  reset self config train_mode custom polls replies = Return r →
  Forall (λ w, waiting w = false) (env_workers (reset_self r)) ∧
  worker_id <$> env_workers (reset_self r) = worker_id <$> env_workers self ∧
  reset_sent r
  = (λ i, (i, {| cmd_name := "reset";
                 cmd_payload := ResetPayload config train_mode custom |}))
      <$> (worker_id <$> env_workers self).
Proof.
  unfold reset. intros Hr.
  destruct (reset_drain polls (env_workers self)) as [ws| |] eqn:Hd; simpl in Hr;
    try discriminate.
  destruct (reset_collect [] ws replies []) as [[ws' out]| |] eqn:Hc; simpl in Hr;
    try discriminate.
  injection Hr as <-. simpl.
  destruct (reset_drain_spec _ _ _ Hd) as [Hnone [Hids _]].
  destruct (reset_collect_flags _ _ _ _ _ _ Hc) as [Hlen Hflags]. simpl in Hlen, Hflags.
  split; [|split].
  - apply Forall_lookup. intros i w' Hw'.
    assert (Hlt : i < length ws) by (rewrite <- Hlen; by eapply lookup_lt_Some).
    destruct (lookup_lt_is_Some_2 _ _ Hlt) as [w Hw].
    destruct (Hflags i w Hw) as (w'' & Hw'' & _ & Hwait).
    assert (w'' = w') as -> by congruence. rewrite Hwait.
    destruct (waiting w) eqn:Hww; [|done].
    exfalso. apply not_true_iff_false in Hnone. apply Hnone.
    apply existsb_exists. exists w. split; [|done].
    apply list_elem_of_In. by eapply list_elem_of_lookup_2.
  - rewrite <- Hids. apply list_eq. intros i. rewrite !list_lookup_fmap.
    destruct (ws !! i) as [w|] eqn:Hw.
    + destruct (Hflags i w Hw) as (w' & -> & Hid & _). simpl. by rewrite Hid.
    + apply lookup_ge_None in Hw. rewrite <- Hlen in Hw.
      apply lookup_ge_None in Hw. by rewrite Hw.
  - unfold commands_to. rewrite <- Hids, <- list_fmap_compose. done.
Qed.

(** X5.  [reset] never deletes a record: under an agent id that is not in the
    reply of the handle's worker, the history holds after the call what it
    held before. *)
Theorem reset_keeps_other_records self config train_mode custom polls replies r
    i w infos k :
  reset self config train_mode custom polls replies = Return r →
  env_workers self !! i = Some w →
  replies !! i = Some infos →
  k ∉ agent_id <$> infos →
  ∃ w', env_workers (reset_self r) !! i = Some w' ∧
        PyDict.get k (previous_agent_steps w') = PyDict.get k (previous_agent_steps w).
Proof.
  unfold reset. intros Hr Hw Hi Hk.
  destruct (reset_drain polls (env_workers self)) as [ws| |] eqn:Hd; simpl in Hr;
    try discriminate.
  destruct (reset_collect [] ws replies []) as [[ws' out]| |] eqn:Hc; simpl in Hr;
    try discriminate.
  injection Hr as <-. simpl.
  destruct (reset_drain_spec _ _ _ Hd) as [_ Hs].
  destruct (same_but_waiting_lookup _ _ _ _ Hs Hw) as (w1 & Hw1 & _ & Hh).
  destruct (reset_collect_frame _ _ _ _ _ _ _ _ _ k Hc Hw1 Hi Hk) as (w' & Hw' & Hget).
  exists w'. split; [done|]. by rewrite Hget, Hh.
Qed.

(** ** What [step] stores *)

Lemma postprocess_infos_frame acts infos :
  ∀ hist acc hist' out k,
    postprocess_infos acts infos hist acc = Return (hist', out) →
    k ∉ agent_id <$> infos →
    PyDict.get k hist' = PyDict.get k hist.
Proof.
  induction infos as [|info rest IH]; intros hist acc hist' out k Hp Hk; simpl in Hp.
  - by injection Hp as <- _.
  - destruct (PyDict.get (agent_id info) hist) as [prev|]; [|discriminate].
    rewrite fmap_cons in Hk. apply not_elem_of_cons in Hk as [Hne Hk].
    rewrite (IH _ _ _ _ _ Hp Hk). by rewrite get_set_ne.
Qed.

(** With one observation per agent id, each record built is the one found
    in the history afterwards. *)
Lemma postprocess_infos_stores acts infos :
  ∀ hist acc hist' out,
    NoDup (agent_id <$> infos) →
    postprocess_infos acts infos hist acc = Return (hist', out) →
    ∃ new, out = acc ++ new ∧
      Forall2 (λ info s,
                 (∃ prev, PyDict.get (agent_id info) hist = Some prev ∧
                          s = new_step acts prev info) ∧
                 PyDict.get (agent_id info) hist' = Some s) infos new.
Proof.
  induction infos as [|info rest IH]; intros hist acc hist' out Hnd Hp; simpl in Hp.
  - injection Hp as <- <-. exists []. by rewrite app_nil_r.
  - destruct (PyDict.get (agent_id info) hist) as [prev|] eqn:Hget; [|discriminate].
    rewrite fmap_cons in Hnd. apply NoDup_cons in Hnd as [Hnotin Hnd].
    destruct (IH _ _ _ _ Hnd Hp) as (new & -> & Hall).
    eexists (_ :: new). split; [by rewrite <- app_assoc|].
    constructor.
    + split; [by exists prev|].
      rewrite (postprocess_infos_frame _ _ _ _ _ _ _ Hp Hnotin).
      apply get_set_eq.
    + apply Forall2_same_length_lookup in Hall as [Hlen Hall].
      apply Forall2_same_length_lookup_2; [done|].
      intros n i s Hi Hs. destruct (Hall n i s Hi Hs) as [(prev' & Hg & ->) Hst].
      split; [|done]. exists prev'. split; [|done].
      rewrite get_set_ne in Hg; [done|].
      intros Heq. apply Hnotin. rewrite Heq.
      apply list_elem_of_fmap_2. by eapply list_elem_of_lookup_2.
Qed.

(** The records of one kept batch, with the handle before and after the
    call. *)
Lemma step_batch_stored self polls r resp :
  step self polls = Return r →
  resp ∈ step_worker_steps r →
  NoDup (agent_id <$> all_agent_info (payload resp)) →
  ∃ w w' pre recs post,
    env_workers self !! step_worker_id resp = Some w ∧
    env_workers (step_self r) !! step_worker_id resp = Some w' ∧
    step_agent_steps r = pre ++ recs ++ post ∧
    Forall2 (λ info s,
               (∃ prev, PyDict.get (agent_id info) (previous_agent_steps w) = Some prev ∧
                        s = new_step (previous_agent_action_infos (step_self r)) prev info) ∧
               PyDict.get (agent_id info) (previous_agent_steps w') = Some s)
      (all_agent_info (payload resp)) recs.
Proof.
  intros Hr Hin Hnd.
  destruct (step_inv _ _ _ Hr) as (self1 & ws & k & b & rest & sw & Hq & _ & _ & Hd & Hp).
  destruct (step_handles_before_postprocess _ _ _ _ _ _ _ Hq Hd) as [Hs Hlt].
  destruct (drain_step_queue_spec _ _ _ _ _ _ _ Hd seen_ok_nil) as ([Hnodup _] & _).
  apply list_elem_of_split in Hin as (l1 & l2 & Hsplit).
  rewrite Hsplit in Hnodup, Hlt, Hp.
  rewrite fmap_app, fmap_cons in Hnodup.
  apply NoDup_app in Hnodup as (_ & Hdisj & Hnd2).
  apply NoDup_cons in Hnd2 as [Hnotin2 _].
  assert (Hl1 : Forall (λ s, step_worker_id s ≠ step_worker_id resp) l1).
  { apply Forall_forall. intros s Hs1 Heq. apply (Hdisj (step_worker_id s)).
    - by apply list_elem_of_fmap_2.
    - rewrite Heq. apply elem_of_cons. by left. }
  assert (Hl2 : Forall (λ s, step_worker_id s ≠ step_worker_id resp) l2).
  { apply Forall_forall. intros s Hs2 Heq. apply Hnotin2. rewrite <- Heq.
    by apply list_elem_of_fmap_2. }
  unfold _postprocess_steps in Hp.
  destruct (postprocess_loop _ _ _ _ _) as [[[ws' out] tn]| |] eqn:Hl; simpl in Hp;
    try discriminate.
  injection Hp as Hself Hout.
  rewrite postprocess_loop_app in Hl. simpl in Hl.
  destruct (postprocess_loop _ l1 _ _ _) as [[[ws1 acc1] tn1]| |] eqn:Hl1';
    simpl in Hl; try discriminate.
  pose proof (postprocess_loop_other _ _ _ _ _ _ _ _ _ Hl1 Hl1') as Hsame.
  destruct (postprocess_loop_spec _ _ _ _ _ _ _ _ Hl1') as ([Hlen1 _] & pre & -> & _).
  apply Forall_app in Hlt as [_ Hlt]. apply Forall_cons in Hlt as [Hlt _].
  destruct (lookup_lt_is_Some_2 _ _ Hlt) as [w1 Hw1].
  rewrite Hsame, Hw1 in Hl.
  destruct (postprocess_infos _ _ _ _) as [[hist acc2]| |] eqn:Hi; simpl in Hl;
    try discriminate.
  destruct (postprocess_infos_stores _ _ _ _ _ _ Hnd Hi) as (recs & -> & Hrecs).
  pose proof (postprocess_loop_other _ _ _ _ _ _ _ _ _ Hl2 Hl) as Hafter.
  rewrite list_lookup_insert_eq in Hafter by by rewrite Hlen1.
  destruct (postprocess_loop_spec _ _ _ _ _ _ _ _ Hl) as (_ & post & Hout' & _).
  destruct (same_but_waiting_lookup _ _ _ _
              (conj (eq_sym (proj1 Hs)) (eq_sym (proj2 Hs))) Hw1)
    as (w & Hw & _ & Hhw).
  exists w, (set_previous_agent_steps hist w1), pre, recs, post.
  split; [done|]. split; [by rewrite <- Hself|].
  split; [by rewrite <- Hout, Hout', <- app_assoc|].
  rewrite Hhw, <- Hself. done.
Qed.

(** X6.  [step] stores what it returns: for a kept batch that shows each agent
    once, the returned records of the batch show its observations in
    order, and after the call the handle of the worker holds each of them
    under the id of its agent. *)
Theorem step_stores_returned_records self polls r resp :
  step self polls = Return r →
  resp ∈ step_worker_steps r →
  NoDup (agent_id <$> all_agent_info (payload resp)) →
  ∃ w' pre recs post,
    env_workers (step_self r) !! step_worker_id resp = Some w' ∧
    step_agent_steps r = pre ++ recs ++ post ∧
    Forall2 (λ info s,
               current_agent_info s = info ∧
               PyDict.get (agent_id info) (previous_agent_steps w') = Some s)
      (all_agent_info (payload resp)) recs.
Proof.
  intros Hr Hin Hnd.
  destruct (step_batch_stored _ _ _ _ Hr Hin Hnd)
    as (w & w' & pre & recs & post & _ & Hw' & Hsteps & Hall).
  exists w', pre, recs, post. split; [done|]. split; [done|].
  eapply Forall2_impl; [apply Hall|]. simpl.
  intros info s [(prev & _ & ->) Hst]. done.
Qed.

(** X7.  Two calls of [step] in a row chain the observations: when both keep a
    batch of the same worker, each showing each agent once, the record the
    second call returns for an agent has as previous observation the
    observation the first call returned for that agent. *)
Theorem consecutive_steps_chain self polls r polls' r' resp resp' info info' :
  step self polls = Return r →
  step (step_self r) polls' = Return r' →
  resp ∈ step_worker_steps r →
  resp' ∈ step_worker_steps r' →
  step_worker_id resp' = step_worker_id resp →
  NoDup (agent_id <$> all_agent_info (payload resp)) →
  NoDup (agent_id <$> all_agent_info (payload resp')) →
  info ∈ all_agent_info (payload resp) →
  info' ∈ all_agent_info (payload resp') →
  agent_id info' = agent_id info →
  ∃ s', s' ∈ step_agent_steps r' ∧
        current_agent_info s' = info' ∧
        previous_agent_info s' = Some info.
Proof.
  intros Hr Hr' Hin Hin' Hid Hnd Hnd' Hinfo Hinfo' Hagent.
  destruct (step_batch_stored _ _ _ _ Hr Hin Hnd)
    as (w0 & w1 & pre & recs & post & _ & Hw1 & _ & Hall).
  destruct (step_batch_stored _ _ _ _ Hr' Hin' Hnd')
    as (w1' & w2 & pre' & recs' & post' & Hw1' & _ & Hsteps' & Hall').
  rewrite Hid, Hw1 in Hw1'. injection Hw1' as <-.
  apply list_elem_of_lookup in Hinfo as [j Hj].
  destruct (Forall2_lookup_l _ _ _ _ _ Hall Hj) as (s & Hs & [(prev & _ & ->) Hst]).
  apply list_elem_of_lookup in Hinfo' as [j' Hj'].
  destruct (Forall2_lookup_l _ _ _ _ _ Hall' Hj') as (s' & Hs' & [(prev' & Hg' & ->) _]).
  rewrite Hagent, Hst in Hg'. injection Hg' as <-.
  exists (new_step (previous_agent_action_infos (step_self r'))
            (new_step (previous_agent_action_infos (step_self r)) prev info) info').
  split; [|by split].
  rewrite Hsteps'. apply elem_of_app. right. apply elem_of_app. left.
  by eapply list_elem_of_lookup_2.
Qed.

(** X8.  [step] never adds or removes an agent id: each handle keeps its worker
    id and the agent ids of its history, and a handle whose worker has no
    batch among those the call kept keeps its whole history. *)
Theorem step_keeps_agent_ids self polls r i w :
  step self polls = Return r →
  env_workers self !! i = Some w →
  ∃ w', env_workers (step_self r) !! i = Some w' ∧
        worker_id w' = worker_id w ∧
        PyDict.keys (previous_agent_steps w') = PyDict.keys (previous_agent_steps w) ∧
        (i ∉ step_worker_id <$> step_worker_steps r →
         previous_agent_steps w' = previous_agent_steps w).
Proof.
  intros Hr Hw.
  destruct (step_inv _ _ _ Hr) as (self1 & ws & k & b & rest & sw & Hq & _ & _ & Hd & Hp).
  destruct (step_handles_before_postprocess _ _ _ _ _ _ _ Hq Hd) as [Hs _].
  destruct (same_but_waiting_lookup _ _ _ _ Hs Hw) as (w1 & Hw1 & Hid1 & Hh1).
  unfold _postprocess_steps in Hp.
  destruct (postprocess_loop _ _ _ _ _) as [[[ws' out] tn]| |] eqn:Hl; simpl in Hp;
    try discriminate.
  injection Hp as <- _. simpl in *.
  destruct (postprocess_loop_spec _ _ _ _ _ _ _ _ Hl) as ([_ Hhist] & _).
  destruct (Hhist i w1 Hw1) as (w' & Hw' & Hid & _ & Hkeys).
  exists w'. split; [done|]. split; [congruence|]. split; [congruence|].
  intros Hnotin.
  assert (Hother : Forall (λ s, step_worker_id s ≠ i) (step_worker_steps r)).
  { apply Forall_forall. intros s Hs' Heq. apply Hnotin. rewrite <- Heq.
    by apply list_elem_of_fmap_2. }
  pose proof (postprocess_loop_other _ _ _ _ _ _ _ _ _ Hother Hl) as Hsame.
  rewrite Hw', Hw1 in Hsame. injection Hsame as ->. done.
Qed.

(** ** Per-agent slices *)

(** The recursion of [get_per_agent_outputs] on a nested dict is the
    function itself. *)
Lemma per_agent_output_dict idx d :
  per_agent_output idx (PyDict d) = PyDict <$> get_per_agent_outputs d idx.
Proof.
  unfold get_per_agent_outputs. simpl. f_equal.
  generalize (@nil (string * pyval)).
  induction d as [|[k v] d IH]; intros acc; simpl; [done|].
  destruct (per_agent_output idx v); simpl; [apply IH | done | done].
Qed.

Lemma per_agent_output_sliced idx v v' :
  per_agent_output idx v = Return v' → sliced idx v v'.
Proof.
  destruct v as [|z|l|d]; intros Hp.
  - simpl in Hp. by injection Hp as <-.
  - simpl in Hp. by injection Hp as <-.
  - simpl in *. destruct (l !! idx); [by injection Hp as <- | discriminate].
  - rewrite per_agent_output_dict in Hp. simpl.
    destruct (get_per_agent_outputs d idx) as [r| |]; simpl in Hp; try discriminate.
    injection Hp as <-. by exists r.
Qed.

Lemma get_per_agent_outputs_items_spec idx items :
  ∀ acc r,
    get_per_agent_outputs_items items idx acc = Return r →
    NoDup (PyDict.keys acc ++ PyDict.keys items) →
    ∃ vs, r = acc ++ vs ∧
          Forall2 (λ kv kv', kv'.1 = kv.1 ∧ sliced idx kv.2 kv'.2) items vs.
Proof.
  induction items as [|[k v] items IH]; intros acc r Hg Hnd; simpl in Hg.
  - injection Hg as <-. exists []. by rewrite app_nil_r.
  - destruct (per_agent_output idx v) as [v'| |] eqn:Hv; simpl in Hg; try discriminate.
    assert (Hk : PyDict.get k acc = None).
    { apply get_None_keys. intros Hin.
      apply NoDup_app in Hnd as (_ & Hdisj & _). apply (Hdisj k Hin).
      apply elem_of_cons. by left. }
    rewrite (set_absent _ _ _ Hk) in Hg.
    destruct (IH _ _ Hg) as (vs & -> & Hall).
    { unfold PyDict.keys in *. rewrite fmap_app, <- app_assoc. exact Hnd. }
    exists ((k, v') :: vs). split; [by rewrite <- app_assoc|].
    constructor; [|done]. split; [done|]. by apply per_agent_output_sliced.
Qed.

(** X9.  When [get_per_agent_outputs] returns on a dict, the result has the
    keys of the dict in the same order, and under each key the slice of the
    value for the agent: the element at [agent_idx] of a sequence, the
    result of the same function on a nested dict, the value itself
    otherwise. *)
Theorem get_per_agent_outputs_slices outputs_dict agent_idx r :
  get_per_agent_outputs outputs_dict agent_idx = Return r →
  NoDup (PyDict.keys outputs_dict) →
  Forall2 (λ kv kv', kv'.1 = kv.1 ∧ sliced agent_idx kv.2 kv'.2) outputs_dict r.
Proof.
  intros Hg Hnd.
  destruct (get_per_agent_outputs_items_spec _ _ _ _ Hg) as (vs & -> & Hall); done.
Qed.

Lemma get_per_agent_outputs_items_index idx items :
  ∀ acc r k l,
    get_per_agent_outputs_items items idx acc = Return r →
    (k, PySeq l) ∈ items → idx < length l.
Proof.
  induction items as [|[k0 v] items IH]; intros acc r k l Hg Hin; simpl in Hg;
    [by apply elem_of_nil in Hin|].
  destruct (per_agent_output idx v) as [v'| |] eqn:Hv; simpl in Hg; try discriminate.
  apply elem_of_cons in Hin as [Heq|Hin]; [|by eapply IH].
  injection Heq as <- <-. simpl in Hv.
  destruct (l !! idx) eqn:Hl; [|discriminate]. by eapply lookup_lt_Some.
Qed.

(** X10.  [get_per_agent_outputs] returns only if every sequence in the dict has
    an element at [agent_idx]; a shorter sequence makes it raise. *)
Theorem get_per_agent_outputs_needs_index outputs_dict agent_idx k l :
  returned (get_per_agent_outputs outputs_dict agent_idx) →
  (k, PySeq l) ∈ outputs_dict →
  agent_idx < length l.
Proof. intros [r Hr] Hin. by eapply get_per_agent_outputs_items_index. Qed.

(** ** What [_take_step] needs from the policies *)

Lemma slice_action_info_action action_info idx sl :
  slice_action_info action_info idx = Return sl →
  ∃ l, action action_info = PySeq l ∧ l !! idx = Some (action sl).
Proof.
  unfold slice_action_info. intros Hs.
  destruct (get_per_agent_outputs _ _) as [o| |]; simpl in Hs; try discriminate.
  destruct (action action_info) as [|z|l|d] eqn:Ha; simpl in Hs; try discriminate.
  destruct (l !! idx) as [x|] eqn:Hl; simpl in Hs; [|discriminate].
  destruct (py_index_opt (memory action_info) idx); simpl in Hs; try discriminate.
  destruct (py_index_opt (value action_info) idx); simpl in Hs; try discriminate.
  injection Hs as <-. by exists l.
Qed.

Lemma record_agent_actions_slices action_info agent_infos :
  ∀ idx acts acts' j,
    record_agent_actions action_info idx agent_infos acts = Return acts' →
    j < length agent_infos →
    returned (slice_action_info action_info (idx + j)).
Proof.
  induction agent_infos as [|info rest IH]; intros idx acts acts' j Hr Hj;
    simpl in *; [lia|].
  destruct (slice_action_info action_info idx) as [sl| |] eqn:Hsl; simpl in Hr;
    try discriminate.
  destruct j as [|j].
  - rewrite Nat.add_0_r, Hsl. by eexists.
  - replace (idx + S j) with (S idx + j) by lia. eapply IH; [apply Hr | lia].
Qed.

Lemma take_step_brains_groups pol items :
  ∀ acts all acts' all' b l,
    take_step_brains pol items acts all = Return (acts', all') →
    (b, l) ∈ items →
    ∃ p acts0 acts1,
      pol !! b = Some p ∧
      record_agent_actions (get_action p (current_agent_info <$> l)) 0
        (current_agent_info <$> l) acts0 = Return acts1.
Proof.
  induction items as [|[b0 l0] items IH]; intros acts all acts' all' b l Ht Hin;
    [by apply elem_of_nil in Hin|].
  simpl in Ht. destruct (pol !! b0) as [p|] eqn:Hp; [|discriminate].
  destruct (record_agent_actions _ _ _ _) as [acts1| |] eqn:Hr; simpl in Ht;
    try discriminate.
  apply elem_of_cons in Hin as [Heq|Hin]; [|by eapply IH].
  injection Heq as -> ->. by exists p, acts, acts1.
Qed.

(** X11.  [_take_step] returns only if every brain that has a stored record has
    a policy, and the batch that policy returns for the observations of the
    brain holds, as a sequence, an action for each of them.  A brain
    without a policy makes it raise [KeyError], a batch that is too short
    [IndexError]. *)
Theorem take_step_needs_policy_and_actions self previous_steps self' all_action_info s :
  _take_step self previous_steps = Return (self', all_action_info) →
  s ∈ PyDict.values previous_steps →
  ∃ p l,
    policies self !! step_brain s = Some p ∧
    action (get_action p (brain_batch previous_steps (step_brain s))) = PySeq l ∧
    length (brain_batch previous_steps (step_brain s)) ≤ length l.
Proof.
  unfold _take_step. intros Ht Hs.
  destruct (take_step_brains _ _ _ _) as [[acts all]| |] eqn:Hb; simpl in Ht;
    try discriminate.
  pose proof (group_by_brain_of_record _ _ Hs) as Hgroup.
  destruct (take_step_brains_groups _ _ _ _ _ _ _ _ Hb Hgroup)
    as (p & acts0 & acts1 & Hp & Hrec).
  fold (brain_batch previous_steps (step_brain s)) in Hrec.
  set (batch := brain_batch previous_steps (step_brain s)) in *.
  assert (Hlen : 0 < length batch).
  { unfold batch, brain_batch. rewrite length_fmap.
    assert (Hin : s ∈ filter (λ x, step_brain x = step_brain s)
                        (PyDict.values previous_steps))
      by (by apply list_elem_of_filter).
    destruct (filter _ _); [by apply elem_of_nil in Hin | simpl; lia]. }
  destruct (record_agent_actions_slices _ _ 0 _ _ (length batch - 1) Hrec)
    as [sl Hsl]; [lia|].
  destruct (slice_action_info_action _ _ _ Hsl) as (l & Hl & Hlast).
  exists p, l. split; [done|]. split; [done|].
  apply lookup_lt_Some in Hlast. lia.
Qed.

(** ** The command loop of a worker *)

Lemma join_output_nil_r out : join_output out no_output = out.
Proof. destruct out. unfold join_output, no_output. simpl. by rewrite !app_nil_r. Qed.

Section worker_loop_facts.
Context {E : Type} `{UnityEnvironment E}.
Implicit Types (p : WorkerProc E) (cmd : EnvironmentCommand).

Lemma worker_loop_stopped p cmds :
  proc_running p = false → worker_loop p cmds = (p, no_output).
Proof. intros Hp. destruct cmds; simpl; [done | by rewrite Hp]. Qed.

Lemma worker_command_close p cmd :
  cmd_name cmd = "close" → worker_command p cmd = (stopped p, no_output).
Proof. intros Hc. unfold worker_command. by rewrite Hc. Qed.

(** X12.  Once ["close"] has been read the loop is over: what comes after it on
    the pipe is never processed. *)
Theorem worker_loop_ends_at_close p pre cmd post :
  cmd_name cmd = "close" →
  worker_loop p (pre ++ cmd :: post) = worker_loop p (pre ++ [cmd]) ∧
  proc_running (worker_loop p (pre ++ cmd :: post)).1 = false.
Proof.
  intros Hc. revert p. induction pre as [|c pre IH]; intros p; simpl.
  - destruct (proc_running p) eqn:Hp; [|done].
    rewrite (worker_command_close _ _ Hc). by rewrite worker_loop_stopped.
  - destruct (proc_running p) eqn:Hp; [|done].
    destruct (worker_command p c) as [p1 out1].
    destruct (IH p1) as [Heq Hstop]. rewrite Heq.
    destruct (worker_loop p1 (pre ++ [cmd])) as [p2 out2] eqn:Hl. split; [done|].
    by rewrite Heq in Hstop.
Qed.

Lemma worker_command_served p cmd p' out :
  served cmd → worker_command p cmd = (p', out) →
  proc_running p = true →
  proc_running p' = true ∧ proc_worker_id p' = proc_worker_id p ∧
  if is_step_command cmd
  then to_parent out = [] ∧
       ∃ payload, to_step_queue out =
                  [{| resp_name := "step"; step_worker_id := proc_worker_id p;
                      payload := payload |}]
  else to_step_queue out = [] ∧
       ∃ payload, to_parent out = [(cmd_name cmd, proc_worker_id p, payload)].
Proof.
  unfold served, worker_command, put_step, _send_response, with_env, is_step_command.
  intros Hs Hc Hrun.
  destruct (cmd_payload cmd) eqn:Hpl; try done.
  - destruct Hs as [Hn|[Hn|Hn]]; rewrite Hn in *; simpl in *;
      injection Hc as <- <-; simpl; eauto.
  - rewrite Hs in *. simpl in *.
    destruct (global_done (proc_env p));
      [destruct (env_reset _ _ _ _) | destruct (env_step _ _ _ _ _)];
      injection Hc as <- <-; simpl; eauto.
  - rewrite Hs in *. simpl in *.
    destruct (env_reset _ _ _ _). injection Hc as <- <-. simpl. eauto.
Qed.

(** X13.  A worker answers the commands the manager sends one for one: each
    ["step"] command with one result on the shared queue, under its own
    id, and each other command with one reply on its pipe, under the name
    of the command, in the order of the commands; and it keeps running. *)
Theorem worker_loop_answers_each_command p cmds :
  Forall served cmds →
  proc_running p = true →
  proc_running (worker_loop p cmds).1 = true ∧
  (λ r, (resp_name r, step_worker_id r)) <$> to_step_queue (worker_loop p cmds).2
    = (λ _, ("step", proc_worker_id p))
        <$> filter (λ cmd, is_step_command cmd = true) cmds ∧
  (λ x, x.1) <$> to_parent (worker_loop p cmds).2
    = (λ cmd, (cmd_name cmd, proc_worker_id p))
        <$> filter (λ cmd, is_step_command cmd ≠ true) cmds.
Proof.
  intros Hall. revert p. induction Hall as [|cmd cmds Hs _ IH]; intros p Hrun; simpl.
  - by rewrite Hrun.
  - rewrite Hrun. destruct (worker_command p cmd) as [p1 out1] eqn:Hc.
    destruct (worker_command_served _ _ _ _ Hs Hc Hrun) as (Hrun1 & Hid1 & Hout).
    destruct (IH p1 Hrun1) as (Hr & Hq & Hp).
    destruct (worker_loop p1 cmds) as [p2 out2]. simpl in *.
    split; [done|]. rewrite !fmap_app, Hq, Hp, Hid1.
    destruct (is_step_command cmd) eqn:Hstep.
    + destruct Hout as (-> & payload & ->).
      rewrite filter_cons_True by done.
      rewrite (filter_cons_False (λ c, is_step_command c ≠ true)) by (by rewrite Hstep; intros ?).
      done.
    + destruct Hout as (-> & payload & ->).
      rewrite filter_cons_False by (by rewrite Hstep).
      rewrite (filter_cons_True (λ c, is_step_command c ≠ true)) by (by rewrite Hstep).
      done.
Qed.

End worker_loop_facts.

(** ** The further facts at concrete pools *)

Lemma step_previous_action_dispatched_witness :
  ∃ r,
    step two_workers [[batch 1 [agent "a1" 21]; batch 0 [agent "a0" 12; agent "b0" 13]]]
      = Return r ∧
    ∃ p j sl all,
      policies two_workers !! "Brain" = Some p ∧
      (0, {| cmd_name := "step"; cmd_payload := ActionPayload all |}) ∈ step_sent r ∧
      PyDict.get "Brain" all
        = Some (get_action p (brain_batch (previous_agent_steps first_worker) "Brain")) ∧
      brain_batch (previous_agent_steps first_worker) "Brain" !! j = Some (agent "a0" 10) ∧
      slice_action_info
        (get_action p (brain_batch (previous_agent_steps first_worker) "Brain")) j
        = Return sl ∧
      Forall (λ rec, step_agent rec = "a0" → previous_action rec = Some sl)
        (step_agent_steps r).
Proof.
  eexists.
  match goal with |- ?R ∧ _ => assert (Hr : R) by (vm_compute; reflexivity) end.
  split; [exact Hr|].
  apply (step_previous_action_dispatched two_workers _ _ 0 first_worker
           (reset_step (agent "a0" 10)) Hr).
  - vm_compute. reflexivity.
  - reflexivity.
  - apply (bool_decide_unpack _). vm_compute. exact I.
  - apply elem_of_cons. left. reflexivity.
  - intros w' Hin _. vm_compute in Hin.
    apply list_elem_of_singleton in Hin. subst w'.
    apply (bool_decide_unpack _). vm_compute. exact I.
Defined.

Lemma reachable_two_workers : reachable two_workers.
Proof.
  assert (Hreset : ∃ r, reset (init 2 {["Brain" := echo_policy]}) None true None []
                          [[agent "a0" 10; agent "b0" 11]; [agent "a1" 20]] = Return r ∧
                        reset_self r = two_workers).
  { eexists. split; [vm_compute; reflexivity|]. vm_compute. reflexivity. }
  destruct Hreset as (r & Hr & <-).
  eapply reachable_reset; [apply reachable_init | exact Hr].
Qed.

(** X2 for the pool of two workers after its reset. *)
Lemma reachable_histories_keyed_by_agent_witness :
  Forall (λ w, history_ok (previous_agent_steps w) ∧
               NoDup (agent_ids (previous_agent_steps w)))
    (env_workers two_workers).
Proof.
  apply (reachable_histories_keyed_by_agent two_workers), reachable_two_workers.
Defined.

(** X3 for worker 1 answers, and its handle is free again. *)
Lemma step_waiting_flags_witness :
  ∃ r w',
    step two_workers [[batch 1 [agent "a1" 21]]] = Return r ∧
    env_workers (step_self r) !! 1 = Some w' ∧
    waiting w' = false.
Proof.
  eexists _, _.
  match goal with |- ?R ∧ _ => assert (Hr : R) by (vm_compute; reflexivity) end.
  split; [exact Hr|].
  match goal with |- ?R ∧ _ => assert (Hw : R) by (vm_compute; reflexivity) end.
  split; [exact Hw|].
  apply (proj2 (step_waiting_flags two_workers _ _ Hr) 1 _ Hw).
  apply elem_of_cons. left. reflexivity.
Defined.

(** X4 for a second reset of the pool of two workers. *)
Lemma reset_leaves_nobody_waiting_witness :
  ∃ r,
    reset two_workers (Some 3%Z) true None [] [[agent "a0" 30]; [agent "a1" 40]]
      = Return r ∧
    Forall (λ w, waiting w = false) (env_workers (reset_self r)) ∧
    worker_id <$> env_workers (reset_self r) = worker_id <$> env_workers two_workers ∧
    reset_sent r
    = (λ i, (i, {| cmd_name := "reset";
                   cmd_payload := ResetPayload (Some 3%Z) true None |}))
        <$> (worker_id <$> env_workers two_workers).
Proof.
  eexists.
  match goal with |- ?R ∧ _ => assert (Hr : R) by (vm_compute; reflexivity) end.
  split; [exact Hr|].
  exact (reset_leaves_nobody_waiting _ _ _ _ _ _ _ Hr).
Defined.

(** X5 for agent b0 is not in the second reply of worker 0. *)
Lemma reset_keeps_other_records_witness :
  ∃ r w',
    reset two_workers None true None [] [[agent "a0" 30]; [agent "a1" 40]] = Return r ∧
    env_workers (reset_self r) !! 0 = Some w' ∧
    PyDict.get "b0" (previous_agent_steps w')
      = PyDict.get "b0" (previous_agent_steps first_worker).
Proof.
  eexists.
  match goal with |- ∃ w', ?R ∧ _ => assert (Hr : R) by (vm_compute; reflexivity) end.
  destruct (reset_keeps_other_records two_workers None true None []
              [[agent "a0" 30]; [agent "a1" 40]] _ 0 first_worker [agent "a0" 30] "b0" Hr)
    as (w' & Hw' & Hget).
  - vm_compute. reflexivity.
  - reflexivity.
  - by_computation.
  - exists w'. split; [exact Hr|]. split; [exact Hw' | exact Hget].
Defined.

(** X6 for the batch of worker 1. *)
Lemma step_stores_returned_records_witness :
  ∃ r w' pre recs post,
    step two_workers [[batch 1 [agent "a1" 21]]] = Return r ∧
    env_workers (step_self r) !! 1 = Some w' ∧
    step_agent_steps r = pre ++ recs ++ post ∧
    Forall2 (λ info s,
               current_agent_info s = info ∧
               PyDict.get (agent_id info) (previous_agent_steps w') = Some s)
      [agent "a1" 21] recs.
Proof.
  eexists.
  match goal with |- ∃ w' pre recs post, ?R ∧ _ =>
    assert (Hr : R) by (vm_compute; reflexivity) end.
  destruct (step_stores_returned_records two_workers _ _ (batch 1 [agent "a1" 21]) Hr)
    as (w' & pre & recs & post & Hw' & Hsteps & Hall).
  - apply elem_of_cons. left. reflexivity.
  - by_computation.
  - exists w', pre, recs, post. split; [exact Hr|]. split; [exact Hw'|].
    split; [exact Hsteps | exact Hall].
Defined.

(** X7 for worker 1 answers two calls in a row. *)
Lemma consecutive_steps_chain_witness :
  ∃ r r' s',
    step two_workers [[batch 1 [agent "a1" 21]]] = Return r ∧
    step (step_self r) [[batch 1 [agent "a1" 22]]] = Return r' ∧
    s' ∈ step_agent_steps r' ∧
    current_agent_info s' = agent "a1" 22 ∧
    previous_agent_info s' = Some (agent "a1" 21).
Proof.
  eexists.
  match goal with |- ∃ r' s', ?R ∧ _ =>
    assert (Hr : R) by (vm_compute; reflexivity) end.
  eexists.
  match goal with |- ∃ s', _ ∧ ?R ∧ _ =>
    assert (Hr' : R) by (vm_compute; reflexivity) end.
  destruct (consecutive_steps_chain _ _ _ _ _ (batch 1 [agent "a1" 21])
              (batch 1 [agent "a1" 22]) (agent "a1" 21) (agent "a1" 22) Hr Hr')
    as (s' & Hin & Hcur & Hprev).
  - apply elem_of_cons. left. reflexivity.
  - apply elem_of_cons. left. reflexivity.
  - reflexivity.
  - by_computation.
  - by_computation.
  - apply elem_of_cons. left. reflexivity.
  - apply elem_of_cons. left. reflexivity.
  - reflexivity.
  - exists s'. split; [exact Hr|]. split; [exact Hr'|]. split; [exact Hin|].
    split; [exact Hcur | exact Hprev].
Defined.

(** X8 for the handle of worker 0 when only worker 1 answered. *)
Lemma step_keeps_agent_ids_witness :
  ∃ r w',
    step two_workers [[batch 1 [agent "a1" 21]]] = Return r ∧
    env_workers (step_self r) !! 0 = Some w' ∧
    worker_id w' = 0 ∧
    PyDict.keys (previous_agent_steps w') = ["a0"; "b0"].
Proof.
  eexists.
  match goal with |- ∃ w', ?R ∧ _ => assert (Hr : R) by (vm_compute; reflexivity) end.
  destruct (step_keeps_agent_ids two_workers _ _ 0 first_worker Hr)
    as (w' & Hw' & Hid & Hkeys & _).
  - vm_compute. reflexivity.
  - exists w'. split; [exact Hr|]. split; [exact Hw'|]. split; [exact Hid | exact Hkeys].
Defined.

(** X9 for outputs with a sequence, a number and a nested dict. *)
Lemma get_per_agent_outputs_slices_witness :
  ∃ r,
    get_per_agent_outputs example_outputs 1 = Return r ∧
    Forall2 (λ kv kv', kv'.1 = kv.1 ∧ sliced 1 kv.2 kv'.2) example_outputs r.
Proof.
  eexists.
  match goal with |- ?R ∧ _ => assert (Hr : R) by (vm_compute; reflexivity) end.
  split; [exact Hr|].
  apply (get_per_agent_outputs_slices example_outputs 1 _ Hr).
  by_computation.
Defined.

(** X10 for index 1 of sequences of two. *)
Lemma get_per_agent_outputs_needs_index_witness :
  returned (get_per_agent_outputs example_outputs 1) ∧
  1 < length [PyNum 1; PyNum 2].
Proof.
  assert (Hr : returned (get_per_agent_outputs example_outputs 1)).
  { eexists. vm_compute. reflexivity. }
  split; [exact Hr|].
  apply (get_per_agent_outputs_needs_index example_outputs 1 "probs" _ Hr).
  apply elem_of_cons. left. reflexivity.
Defined.

(** X11 for the history of worker 0 and the echo policy. *)
Lemma take_step_needs_policy_and_actions_witness :
  ∃ self' all_action_info p l,
    _take_step two_workers (previous_agent_steps first_worker)
      = Return (self', all_action_info) ∧
    policies two_workers !! "Brain" = Some p ∧
    action (get_action p (brain_batch (previous_agent_steps first_worker) "Brain"))
      = PySeq l ∧
    length (brain_batch (previous_agent_steps first_worker) "Brain") ≤ length l.
Proof.
  eexists _, _.
  match goal with |- ∃ p l, ?R ∧ _ => assert (Hr : R) by (vm_compute; reflexivity) end.
  destruct (take_step_needs_policy_and_actions two_workers
              (previous_agent_steps first_worker) _ _ (reset_step (agent "b0" 11)) Hr)
    as (p & l & Hp & Ha & Hlen).
  - apply elem_of_cons. right. apply elem_of_cons. left. reflexivity.
  - exists p, l. split; [exact Hr|]. split; [exact Hp|]. split; [exact Ha | exact Hlen].
Defined.

(** X12 for commands queued behind close. *)
Lemma worker_loop_ends_at_close_witness :
  @worker_loop unit finished_env finished_worker
    ([step_command 1] ++ close_command :: [step_command 2; global_done_query])
  = @worker_loop unit finished_env finished_worker ([step_command 1] ++ [close_command]) ∧
  proc_running
    (@worker_loop unit finished_env finished_worker
       ([step_command 1] ++ close_command :: [step_command 2; global_done_query])).1
  = false.
Proof.
  apply (@worker_loop_ends_at_close unit finished_env finished_worker
           [step_command 1] close_command [step_command 2; global_done_query]).
  reflexivity.
Defined.

(** X13 for two steps around a global_done query. *)
Lemma worker_loop_answers_each_command_witness :
  proc_running
    (@worker_loop unit finished_env finished_worker
       [step_command 1; global_done_query; step_command 2]).1 = true ∧
  (λ r, (resp_name r, step_worker_id r))
    <$> to_step_queue
          (@worker_loop unit finished_env finished_worker
             [step_command 1; global_done_query; step_command 2]).2
    = [("step", 0); ("step", 0)] ∧
  (λ x, x.1)
    <$> to_parent
          (@worker_loop unit finished_env finished_worker
             [step_command 1; global_done_query; step_command 2]).2
    = [("global_done", 0)].
Proof.
  apply (@worker_loop_answers_each_command unit finished_env finished_worker
           [step_command 1; global_done_query; step_command 2]).
  - apply Forall_cons_2; [reflexivity|].
    apply Forall_cons_2; [right; right; reflexivity|].
    apply Forall_cons_2; [reflexivity | apply Forall_nil_2].
  - reflexivity.
Defined.

End SubprocessEnvFacts.

(** * Facts about the control loop *)
Module TrainerCtlFacts.
Import SubprocessEnv TrainerCtl.

Local Open Scope Z_scope.

Section controller_facts.
Context {T M C : Type} `{Trainer T} `{EnvManager M} `{MetaCurriculum C T}.
Implicit Types (self : TrainerController T C) (ts : PyDict.t T).

(** ** Dispatch of the records *)

Lemma each_trainer_compose (f g : T → T) ts :
  each_trainer g (each_trainer f ts) = each_trainer (g ∘ f) ts.
Proof.
  unfold each_trainer. rewrite <- list_fmap_compose.
  apply list_fmap_ext. by intros _ [b t] _.
Qed.


Lemma each_trainer_keys (f : T → T) ts :
  PyDict.keys (each_trainer f ts) = PyDict.keys ts.
Proof.
  unfold PyDict.keys, each_trainer. rewrite <- list_fmap_compose.
  apply list_fmap_ext. by intros _ [b t] _.
Qed.

(** The nested loops of the dispatch, trainer by trainer. *)
Lemma dispatch_experiences_each (new_agent_steps : list AgentStep) ts :
  dispatch_experiences new_agent_steps ts
  = each_trainer
      (λ trainer,
         foldl (λ trainer agent_step,
                  process_experiences agent_step (add_experiences agent_step trainer))
           trainer new_agent_steps) ts.
Proof.
  revert ts. induction new_agent_steps as [|s steps IH]; intros ts; simpl.
  - unfold each_trainer. symmetry. rewrite <- (list_fmap_id ts) at 2.
    apply list_fmap_ext. by intros _ [b t] _.
  - unfold dispatch_experiences in *. rewrite IH. unfold dispatch_step.
    by rewrite each_trainer_compose.
Qed.


(** ** The end of the loop *)







End controller_facts.

(** What the recording learners have seen after the dispatch. *)
Lemma dispatch_recorded (new_agent_steps : list AgentStep)
    (ts : list (string * Recorder)) b t :
  (b, t) ∈ ts →
  ∃ t', (b, t') ∈ dispatch_experiences new_agent_steps ts ∧
        calls t' = calls t ++
          flat_map (λ s, [AddExperiences s; ProcessExperiences s]) new_agent_steps.
Proof.
  intros Hin. rewrite dispatch_experiences_each.
  eexists. split.
  - unfold each_trainer. apply (list_elem_of_fmap_2 (prod_map id _) _ (b, t)), Hin.
  - simpl. clear Hin. revert t.
    induction new_agent_steps as [|s steps IH]; intros t; simpl.
    + by rewrite app_nil_r.
    + rewrite IH. simpl. by rewrite <- !app_assoc.
Qed.





End TrainerCtlFacts.
(** * More facts about the control loop *)
Module TrainerCtlLoop.
Import SubprocessEnv TrainerCtl PyDictFacts TrainerCtlFacts.

Local Open Scope Z_scope.

Section loop_facts.
Context {T M C : Type} `{Trainer T} `{EnvManager M} `{MetaCurriculum C T}.
Implicit Types (self : TrainerController T C) (ts : PyDict.t T).

(** ** The last loop of [advance] *)

Lemma update_trainers_keys train n items :
  ∀ env, PyDict.keys (update_trainers train n items env).1 = PyDict.keys items.
Proof.
  induction items as [|[b t] items IH]; intros env; simpl; [done|].
  destruct (train && bool_decide (get_step t ≤ get_max_steps t));
    [destruct (is_ready_update _)|];
    match goal with
    | |- context [update_trainers train n items ?e] =>
        specialize (IH e); destruct (update_trainers train n items e)
    end; simpl in *; by f_equal.
Qed.



(** ** The curriculum block of [advance] *)

Lemma clear_changed_keys lessons_incremented :
  ∀ ts ts',
    clear_changed lessons_incremented ts = Return ts' →
    PyDict.keys ts' = PyDict.keys ts.
Proof.
  induction lessons_incremented as [|[b changed] rest IH]; intros ts ts' Hc;
    simpl in Hc; [by injection Hc as <-|].
  destruct changed; [|by apply IH].
  destruct (PyDict.get b ts) as [t|] eqn:Hg; [|discriminate].
  rewrite (IH _ _ Hc). apply keys_set_present. by rewrite Hg.
Qed.

(** X15.  When the loop over [lessons_incremented] returns, the learners of the
    brains whose lesson changed have had their reward buffer cleared, and
    the learners of the other brains are as before. *)
Theorem clear_changed_clears_changed lessons_incremented ts ts' b :
  clear_changed lessons_incremented ts = Return ts' →
  NoDup (PyDict.keys lessons_incremented) →
  PyDict.get b ts' =
    if bool_decide ((b, true) ∈ lessons_incremented)
    then clear_reward_buffer <$> PyDict.get b ts
    else PyDict.get b ts.
Proof.
  revert ts. induction lessons_incremented as [|[b0 changed] rest IH];
    intros ts Hc Hnd; simpl in Hc.
  - injection Hc as <-. rewrite bool_decide_eq_false_2; [done|].
    apply not_elem_of_nil.
  - apply NoDup_cons in Hnd as [Hb0 Hnd].
    assert (Hrest : ∀ c, (b0, c) ∉ rest).
    { intros c Hin. apply Hb0. apply list_elem_of_fmap. by exists (b0, c). }
    destruct changed.
    + destruct (PyDict.get b0 ts) as [t0|] eqn:Hg; [|discriminate].
      rewrite (IH _ Hc Hnd). destruct (decide (b = b0)) as [->|Hne].
      * rewrite (bool_decide_eq_false_2 ((b0, true) ∈ rest)) by apply Hrest.
        rewrite bool_decide_eq_true_2 by (apply elem_of_cons; by left).
        by rewrite get_set_eq, Hg.
      * rewrite get_set_ne by done.
        repeat case_bool_decide; try done; exfalso;
          rewrite elem_of_cons in *; naive_solver.
    + rewrite (IH _ Hc Hnd).
      repeat case_bool_decide; try done; exfalso;
        rewrite elem_of_cons in *; naive_solver.
Qed.

(** X16.  A brain whose lesson changed and that has no learner makes the loop
    over [lessons_incremented] raise [KeyError]. *)
Theorem clear_changed_missing_trainer lessons_incremented ts b :
  (b, true) ∈ lessons_incremented →
  PyDict.get b ts = None →
  clear_changed lessons_incremented ts = Raise KeyError.
Proof.
  revert ts. induction lessons_incremented as [|[b0 changed] rest IH];
    intros ts Hin Hg; [by apply elem_of_nil in Hin|].
  simpl. apply elem_of_cons in Hin as [Heq|Hin].
  - injection Heq as <- <-. by rewrite Hg.
  - destruct changed; [|by apply IH].
    destruct (PyDict.get b0 ts) as [t0|] eqn:Hg0; [|done].
    apply IH; [done|]. rewrite get_set_ne; [done|]. intros ->. congruence.
Qed.

Lemma advance_curriculum_keys self env self' env' :
  advance_curriculum self env = Return (self', env') →
  PyDict.keys (trainers self') = PyDict.keys (trainers self) ∧
  save_freq self' = save_freq self.
Proof.
  unfold advance_curriculum. intros Ha.
  destruct (meta_curriculum self) as [c|]; [|by injection Ha as <- _].
  destruct (increment_lessons c (trainers self)) as [c' lessons].
  destruct (existsb snd lessons); [|by injection Ha as <- _].
  destruct (_reset_env _ env) as [[env1 ?]| |]; simpl in Ha; try discriminate.
  destruct (clear_changed _ _) as [ts| |] eqn:Hc; simpl in Ha; try discriminate.
  injection Ha as <- _. simpl. split; [|done].
  rewrite (clear_changed_keys _ _ _ Hc). apply each_trainer_keys.
Qed.

Lemma dispatch_experiences_keys (new_agent_steps : list AgentStep) ts :
  PyDict.keys (dispatch_experiences new_agent_steps ts) = PyDict.keys ts.
Proof. rewrite dispatch_experiences_each. apply each_trainer_keys. Qed.

Lemma advance_keys self env self' env' n :
  advance self env = Return (self', env', n) →
  PyDict.keys (trainers self') = PyDict.keys (trainers self) ∧
  save_freq self' = save_freq self.
Proof.
  unfold advance. intros Ha.
  destruct (advance_curriculum self env) as [[self1 env1]| |] eqn:Hc; simpl in Ha;
    try discriminate.
  destruct (env_step env1) as [[env2 steps]| |]; simpl in Ha; try discriminate.
  destruct (update_trainers _ _ _ _) as [ts env3] eqn:Hu.
  injection Ha as <- _ _. simpl.
  destruct (advance_curriculum_keys _ _ _ _ Hc) as [Hk Hs]. split; [|done].
  rewrite <- Hk, <- (dispatch_experiences_keys steps (trainers self1)).
  rewrite <- (update_trainers_keys (train_model self1) (num_env_steps_returned env2)
                (dispatch_experiences steps (trainers self1)) env2).
  by rewrite Hu.
Qed.


(** ** The step counter of [start_learning] *)




Lemma count_steps_zero_save_freq n self g :
  save_freq self = 0 → (0 < n)%nat →
  count_steps n self g = Raise ZeroDivisionError.
Proof.
  intros Hsf Hn. destruct n as [|n]; [lia|]. simpl. unfold _should_save_model.
  by rewrite decide_True.
Qed.

Lemma count_steps_keys n :
  ∀ self g self' g',
    count_steps n self g = Return (self', g') →
    PyDict.keys (trainers self') = PyDict.keys (trainers self) ∧
    save_freq self' = save_freq self.
Proof.
  induction n as [|n IH]; intros self g self' g' Hc; simpl in Hc.
  - by injection Hc as <- _.
  - destruct (_should_save_model self (g + 1)) as [save| |]; simpl in Hc;
      try discriminate.
    destruct (IH _ _ _ _ Hc) as [Hk Hs]. rewrite Hk, Hs.
    destruct save; simpl; by rewrite ?each_trainer_keys.
Qed.

(** X19.  With [save_freq] zero the loop of [start_learning] raises
    [ZeroDivisionError] at the first environment step it counts, in
    inference mode as well: the remainder is taken before [train_model] is
    looked at. *)
Theorem learning_loop_zero_save_freq fuel self env g self1 env1 n :
  save_freq self = 0 →
  _not_done_training self = true →
  advance self env = Return (self1, env1, n) →
  0 < n →
  learning_loop (S fuel) self env g = Raise ZeroDivisionError.
Proof.
  intros Hsf Hnd Ha Hn. simpl. rewrite Hnd, Ha. cbn [mbind outcome_bind].
  destruct (advance_keys _ _ _ _ _ Ha) as [_ Hsf1].
  rewrite count_steps_zero_save_freq; [done | congruence | lia].
Qed.

(** X20.  The brains that have a learner, and their order, are the same when the
    loop of [start_learning] returns as when it started. *)
Theorem learning_loop_keeps_brains fuel self env g self' env' g' :
  learning_loop fuel self env g = Return (self', env', g') →
  PyDict.keys (trainers self') = PyDict.keys (trainers self).
Proof.
  revert self env g. induction fuel as [|fuel IH]; intros self env g Hl;
    simpl in Hl.
  - destruct (_not_done_training self); [discriminate|]. by injection Hl as <- _ _.
  - destruct (_not_done_training self); [|by injection Hl as <- _ _].
    destruct (advance self env) as [[[self1 env1] n]| |] eqn:Ha; simpl in Hl;
      try discriminate.
    destruct (count_steps _ self1 g) as [[self2 g2]| |] eqn:Hc; simpl in Hl;
      try discriminate.
    rewrite (IH _ _ _ Hl).
    destruct (count_steps_keys _ _ _ _ _ Hc) as [-> _].
    by destruct (advance_keys _ _ _ _ _ Ha) as [-> _].
Qed.

End loop_facts.

(** ** The facts at concrete controllers *)


(** X15 for brain A changed, brain B did not. *)
Lemma clear_changed_clears_changed_witness :
  ∃ ts',
    clear_changed [("A", true); ("B", false)] (trainers (two_brains true)) = Return ts' ∧
    PyDict.get "A" ts'
    = if bool_decide (("A", true) ∈ [("A", true); ("B", false)])
      then clear_reward_buffer <$> PyDict.get "A" (trainers (two_brains true))
      else PyDict.get "A" (trainers (two_brains true)).
Proof.
  eexists.
  match goal with |- ?R ∧ _ => assert (Hr : R) by (vm_compute; reflexivity) end.
  split; [exact Hr|].
  apply (clear_changed_clears_changed _ _ _ "A" Hr). by_computation.
Defined.

(** X16 for a changed brain C without learner. *)
Lemma clear_changed_missing_trainer_witness :
  clear_changed [("A", false); ("C", true)] (trainers (two_brains true))
  = Raise KeyError.
Proof.
  apply (clear_changed_missing_trainer _ _ "C").
  - apply elem_of_cons. right. apply elem_of_cons. left. reflexivity.
  - reflexivity.
Defined.



(** X19 for inference mode with save_freq 0. *)
Lemma learning_loop_zero_save_freq_witness :
  learning_loop 1
    ({| trainers := [("A", new_recorder 0 5)]; meta_curriculum := None;
        train_model := false; save_freq := 0; fast_simulation := true |}
       : TrainerController Recorder unit)
    [[record_of_A]] 0
  = Raise ZeroDivisionError.
Proof.
  eapply (learning_loop_zero_save_freq 0 _ [[record_of_A]] 0).
  - reflexivity.
  - reflexivity.
  - vm_compute. reflexivity.
  - lia.
Defined.

(** X20 for a run of seven turns with two learners. *)
Lemma learning_loop_keeps_brains_witness :
  ∃ self' (env' : list (list AgentStep)) g',
    learning_loop 7 (two_brains true) [] 0 = Return (self', env', g') ∧
    PyDict.keys (trainers self') = PyDict.keys (trainers (two_brains true)).
Proof.
  eexists _, _, _.
  match goal with |- ?R ∧ _ => assert (Hr : R) by (vm_compute; reflexivity) end.
  split; [exact Hr|].
  apply (learning_loop_keeps_brains _ _ _ _ _ _ _ Hr).
Defined.

End TrainerCtlLoop.
(** * Facts about [initialize_trainers] *)
Module TrainerInitFacts.
Import TrainerInit PyDictFacts.

Implicit Types (self : TrainerController) (trainer_config : PyDict.t config_value)
  (external_brains : PyDict.t BrainParameters) (b k : string).

(** ** Dictionaries *)

Lemma get_update {V} (other : PyDict.t V) :
  ∀ (d : PyDict.t V) k,
    NoDup (PyDict.keys other) →
    PyDict.get k (update d other)
    = match PyDict.get k other with
      | Some v => Some v
      | None => PyDict.get k d
      end.
Proof.
  induction other as [|[k0 v0] other IH]; intros d k Hnd; [done|].
  apply NoDup_cons in Hnd as [Hk0 Hnd].
  unfold update in *. cbn [foldl fst snd PyDict.get]. rewrite (IH _ _ Hnd).
  destruct (decide (k = k0)) as [->|Hne].
  - apply get_None_keys in Hk0. simpl in Hk0. by rewrite Hk0, get_set_eq.
  - by rewrite get_set_ne.
Qed.

Lemma getitem_Done {V} k (d : PyDict.t V) v :
  getitem k d = Done v ↔ PyDict.get k d = Some v.
Proof.
  unfold getitem. destruct (PyDict.get k d); split; intros Hx; by simplify_eq.
Qed.

(** ** The aliases *)

(** X21.  The [while] loop follows the names from entry to entry and stops at
    the first entry that is a section: it returns a section within [fuel]
    turns exactly when at most [fuel] names lead from the key to an entry
    holding that section. *)
Theorem resolve_alias_follows_names fuel trainer_config k d :
  resolve_alias fuel trainer_config k = Done d ↔
  ∃ n k', n ≤ fuel ∧ nsteps (alias_of trainer_config) n k k' ∧
          PyDict.get k' trainer_config = Some (CfgDict d).
Proof.
  revert k. induction fuel as [|fuel IH]; intros k; simpl.
  - split.
    + intros Hr. exists 0, k. split; [done|]. split; [constructor|].
      destruct (PyDict.get k trainer_config) as [[d'|s|z]|]; by simplify_eq.
    + intros (n & k' & Hn & Hsteps & Hd). assert (n = 0) as -> by lia.
      inversion Hsteps; subst. by rewrite Hd.
  - split.
    + intros Hr. destruct (PyDict.get k trainer_config) as [[d'|s|z]|] eqn:Hk;
        try discriminate.
      * injection Hr as ->. exists 0, k. split; [lia|]. split; [constructor | done].
      * apply IH in Hr as (n & k' & Hn & Hsteps & Hd).
        exists (S n), k'. split; [lia|]. split; [|done].
        by apply (nsteps_l _ _ _ s).
    + intros (n & k' & Hn & Hsteps & Hd). inversion Hsteps as [|n' ? k1 ? Hal Hrest]; subst.
      * by rewrite Hd.
      * unfold alias_of in Hal. rewrite Hal. apply IH.
        exists n', k'. split; [lia|]. by split.
Qed.

Lemma alias_of_functional trainer_config k k1 k2 :
  alias_of trainer_config k k1 → alias_of trainer_config k k2 → k1 = k2.
Proof. unfold alias_of. congruence. Qed.

Lemma alias_cycle_next trainer_config k k1 :
  tc (alias_of trainer_config) k k →
  alias_of trainer_config k k1 →
  tc (alias_of trainer_config) k1 k1.
Proof.
  intros Hcyc Hal. inversion Hcyc as [? ? Hal'|? k2 ? Hal' Hrest]; subst.
  - by rewrite (alias_of_functional _ _ _ _ Hal Hal').
  - rewrite (alias_of_functional _ _ _ _ Hal Hal'). by eapply tc_r.
Qed.

Lemma resolve_alias_cycle trainer_config fuel :
  ∀ k, tc (alias_of trainer_config) k k →
       resolve_alias fuel trainer_config k = Unfinished.
Proof.
  induction fuel as [|fuel IH]; intros k Hcyc.
  - inversion Hcyc as [? ? Hal|? k2 ? Hal _]; subst; simpl;
      unfold alias_of in Hal; by rewrite Hal.
  - assert (∃ k1, alias_of trainer_config k k1) as [k1 Hal].
    { inversion Hcyc; subst; eauto. }
    simpl. unfold alias_of in Hal. rewrite Hal. apply IH.
    by eapply alias_cycle_next.
Qed.

(** ** The first loop *)

Lemma brain_parameters_Done fuel self trainer_config b tp :
  brain_parameters fuel self trainer_config b = Done tp →
  ∃ default,
    PyDict.get "default" trainer_config = Some (CfgDict default) ∧
    tp = update
           (PyDict.set "keep_checkpoints" (PNum (keep_checkpoints self))
              (PyDict.set "model_path" (PStr (format_path (model_path self) b))
                 (PyDict.set "summary_path"
                    (PStr (format_path (summaries_dir self)
                             (run_id self +:+ "_" +:+ b))) default)))
           (match PyDict.get b trainer_config with
            | Some _ => match resolve_alias fuel trainer_config b with
                        | Done section => section
                        | _ => []
                        end
            | None => []
            end) ∧
    (is_Some (PyDict.get b trainer_config) →
     ∃ section, resolve_alias fuel trainer_config b = Done section).
Proof.
  unfold brain_parameters, getitem. intros Hb.
  destruct (PyDict.get "default" trainer_config) as [[default|s|z]|]; simpl in Hb;
    try discriminate.
  exists default. split; [done|].
  destruct (PyDict.get b trainer_config) as [v|].
  - destruct (resolve_alias fuel trainer_config b) as [section| |]; simpl in Hb;
      try discriminate.
    injection Hb as <-. split; [done|]. intros _. by exists section.
  - injection Hb as <-. split; [done|]. by intros [? ?].
Qed.

(** X22.  The parameters of a brain are layered: an entry of the brain's own
    section (the one its name leads to) wins; otherwise
    ["keep_checkpoints"], ["model_path"] and ["summary_path"] are the
    values computed from the controller, whatever ["default"] says; and
    every other key is as in ["default"]. *)
Theorem brain_parameters_layers fuel self trainer_config b tp k :
  brain_parameters fuel self trainer_config b = Done tp →
  (∀ section, resolve_alias fuel trainer_config b = Done section →
              NoDup (PyDict.keys section)) →
  ∃ default section,
    PyDict.get "default" trainer_config = Some (CfgDict default) ∧
    match PyDict.get b trainer_config with
    | Some _ => resolve_alias fuel trainer_config b = Done section
    | None => section = []
    end ∧
    PyDict.get k tp
    = match PyDict.get k section with
      | Some v => Some v
      | None =>
          match computed_parameter self b k with
          | Some v => Some v
          | None => PyDict.get k default
          end
      end.
Proof.
  intros Hb Hnd.
  destruct (brain_parameters_Done _ _ _ _ _ Hb) as (default & Hdef & -> & Hsec).
  exists default.
  assert (Hbase : ∀ d0,
    PyDict.get k
      (PyDict.set "keep_checkpoints" (PNum (keep_checkpoints self))
         (PyDict.set "model_path" (PStr (format_path (model_path self) b))
            (PyDict.set "summary_path"
               (PStr (format_path (summaries_dir self) (run_id self +:+ "_" +:+ b)))
               d0)))
    = match computed_parameter self b k with
      | Some v => Some v
      | None => PyDict.get k d0
      end).
  { intros d0. unfold computed_parameter.
    destruct (decide (k = "keep_checkpoints")) as [->|H1]; [by rewrite get_set_eq|].
    rewrite get_set_ne by done.
    destruct (decide (k = "model_path")) as [->|H2]; [by rewrite get_set_eq|].
    rewrite get_set_ne by done.
    destruct (decide (k = "summary_path")) as [->|H3]; [by rewrite get_set_eq|].
    by rewrite get_set_ne. }
  destruct (PyDict.get b trainer_config) as [v|] eqn:Hcfg.
  - destruct Hsec as [section Hres]; [done|]. exists section.
    split; [done|]. split; [done|]. rewrite Hres.
    rewrite get_update by (by apply Hnd). by rewrite Hbase.
  - exists []. split; [done|]. split; [done|]. simpl. apply Hbase.
Qed.

Lemma brain_parameters_not_exception fuel self trainer_config b brain :
  brain_parameters fuel self trainer_config b ≠ Fails (UnityEnvironmentException brain).
Proof.
  unfold brain_parameters, getitem.
  destruct (PyDict.get "default" trainer_config) as [[default|s|z]|]; simpl; try done.
  destruct (PyDict.get b trainer_config) as [v|]; [|done].
  assert (Hres : ∀ f key, resolve_alias f trainer_config key
                          ≠ Fails (UnityEnvironmentException brain)).
  { intros f. induction f as [|f IH]; intros key; simpl;
      destruct (PyDict.get key trainer_config) as [[?|?|?]|]; try done. }
  specialize (Hres fuel b).
  by destruct (resolve_alias fuel trainer_config b) as [?|[| |?]|].
Qed.

Lemma parameters_loop_spec fuel self trainer_config brain_names :
  ∀ tpd tpd',
    parameters_loop fuel self trainer_config brain_names tpd = Done tpd' →
    (∀ b, b ∈ brain_names →
          ∃ tp, brain_parameters fuel self trainer_config b = Done tp ∧
                PyDict.get b tpd' = Some tp) ∧
    (∀ b, b ∉ brain_names → PyDict.get b tpd' = PyDict.get b tpd).
Proof.
  induction brain_names as [|b0 rest IH]; intros tpd tpd' Hp; simpl in Hp.
  - injection Hp as <-. split; [by intros b ?%elem_of_nil | done].
  - destruct (brain_parameters fuel self trainer_config b0) as [tp0| |] eqn:Hb0;
      simpl in Hp; try discriminate.
    destruct (IH _ _ Hp) as [Hin Hout]. split.
    + intros b Hb. destruct (decide (b ∈ rest)) as [Hr|Hr]; [by apply Hin|].
      apply elem_of_cons in Hb as [->|Hb]; [|done].
      exists tp0. split; [done|]. by rewrite (Hout _ Hr), get_set_eq.
    + intros b Hb. apply not_elem_of_cons in Hb as [Hne Hr].
      rewrite (Hout _ Hr). by rewrite get_set_ne.
Qed.

Lemma parameters_loop_returns fuel self trainer_config brain_names :
  ∀ tpd,
    (∀ b, b ∈ brain_names →
          ∃ tp, brain_parameters fuel self trainer_config b = Done tp) →
    ∃ tpd', parameters_loop fuel self trainer_config brain_names tpd = Done tpd'.
Proof.
  induction brain_names as [|b0 rest IH]; intros tpd Hall; simpl; [by eexists|].
  destruct (Hall b0) as [tp0 ->]; [apply elem_of_cons; by left|]. simpl.
  apply IH. intros b Hb. apply Hall. apply elem_of_cons. by right.
Qed.

Lemma parameters_loop_fails fuel self trainer_config brain_names :
  ∀ tpd e,
    parameters_loop fuel self trainer_config brain_names tpd = Fails e →
    ∃ b, b ∈ brain_names ∧ brain_parameters fuel self trainer_config b = Fails e.
Proof.
  induction brain_names as [|b0 rest IH]; intros tpd e Hp; simpl in Hp;
    [discriminate|].
  destruct (brain_parameters fuel self trainer_config b0) as [tp0|e0|] eqn:Hb0;
    simpl in Hp; try discriminate.
  - destruct (IH _ _ Hp) as (b & Hb & Hf). exists b. split; [|done].
    apply elem_of_cons. by right.
  - injection Hp as ->. exists b0. split; [|done]. apply elem_of_cons. by left.
Qed.

(** ** The second loop *)

Lemma same_settings_refl self : same_settings self self.
Proof. by repeat split. Qed.

Lemma same_settings_trans self1 self2 self3 :
  same_settings self1 self2 → same_settings self2 self3 → same_settings self1 self3.
Proof. unfold same_settings. intros ? ?. destruct_and!. repeat split; congruence. Qed.

Lemma same_settings_new_trainer self self' kd brain cap tp :
  same_settings self self' →
  new_trainer self' kd brain cap tp = new_trainer self kd brain cap tp.
Proof.
  unfold same_settings, new_trainer. intros ?. destruct_and!. f_equal; congruence.
Qed.

Lemma same_settings_cap self self' b :
  same_settings self self' → reward_buff_cap_of self' b = reward_buff_cap_of self b.
Proof.
  unfold same_settings, reward_buff_cap_of. intros ?. destruct_and!.
  by replace (meta_curriculum self') with (meta_curriculum self).
Qed.

Lemma create_trainer_Done self external_brains tpd b self' :
  create_trainer self external_brains tpd b = Done self' →
  ∃ tp kd brain cap,
    PyDict.get b tpd = Some tp ∧
    PyDict.get "trainer" tp = Some (PStr (kind_name kd)) ∧
    PyDict.get b external_brains = Some brain ∧
    reward_buff_cap_arg self b kd cap ∧
    same_settings self self' ∧
    trainers self' = PyDict.set b (new_trainer self kd brain cap tp) (trainers self) ∧
    trainer_metrics self'
    = if decide (kd = PPOTrainer)
      then PyDict.set b (new_trainer self kd brain cap tp) (trainer_metrics self)
      else trainer_metrics self.
Proof.
  unfold create_trainer. intros Hc.
  destruct (getitem b tpd) as [tp| |] eqn:Htp; simpl in Hc; try discriminate.
  destruct (getitem "trainer" tp) as [v| |] eqn:Hv; simpl in Hc; try discriminate.
  apply getitem_Done in Htp, Hv.
  repeat case_decide; try discriminate; subst v;
    (destruct (getitem b external_brains) as [brain| |] eqn:Hbrain; simpl in Hc;
     try discriminate; apply getitem_Done in Hbrain).
  - injection Hc as <-. exists tp, OfflineBCTrainer, brain, None.
    repeat split; done.
  - injection Hc as <-. exists tp, OnlineBCTrainer, brain, None.
    repeat split; done.
  - destruct (reward_buff_cap_of self b) as [c| |] eqn:Hcap; simpl in Hc;
      try discriminate.
    injection Hc as <-. exists tp, PPOTrainer, brain, (Some c).
    split; [done|]. split; [done|]. split; [done|].
    split; [by exists c|]. repeat split; done.
Qed.

Lemma create_trainer_returns self external_brains tpd b tp kd brain :
  PyDict.get b tpd = Some tp →
  PyDict.get "trainer" tp = Some (PStr (kind_name kd)) →
  PyDict.get b external_brains = Some brain →
  (kd = PPOTrainer → ∃ c, reward_buff_cap_of self b = Done c) →
  ∃ self', create_trainer self external_brains tpd b = Done self'.
Proof.
  intros Htp Hv Hbrain Hcap. unfold create_trainer, getitem.
  rewrite Htp. cbn [mbind attempt_bind]. rewrite Hv. cbn [mbind attempt_bind].
  rewrite Hbrain.
  destruct kd; cbn [kind_name]; repeat case_decide; try done;
    cbn [mbind attempt_bind]; try (by eexists).
  destruct Hcap as [c ->]; [done|]. by eexists.
Qed.

Lemma create_trainer_exception self external_brains tpd b self_b :
  create_trainer self external_brains tpd b = Fails (UnityEnvironmentException self_b) →
  self_b = b ∧
  ∃ tp v, PyDict.get b tpd = Some tp ∧ PyDict.get "trainer" tp = Some v ∧
          v ≠ PStr "offline_bc" ∧ v ≠ PStr "online_bc" ∧ v ≠ PStr "ppo".
Proof.
  unfold create_trainer, reward_buff_cap_of, getitem. intros Hc.
  destruct (PyDict.get b tpd) as [tp|] eqn:Htp; simpl in Hc; try discriminate.
  destruct (PyDict.get "trainer" tp) as [v|] eqn:Hv; simpl in Hc; try discriminate.
  repeat case_decide.
  - destruct (PyDict.get b external_brains); discriminate.
  - destruct (PyDict.get b external_brains); discriminate.
  - destruct (PyDict.get b external_brains); simpl in Hc; try discriminate.
    destruct (meta_curriculum self) as [cs|]; simpl in Hc; try discriminate.
    destruct (PyDict.get b cs); discriminate.
  - injection Hc as <-. split; [done|]. by exists tp, v.
Qed.

Lemma trainers_loop_spec external_brains tpd brain_names :
  ∀ self self',
    trainers_loop self external_brains tpd brain_names = Done self' →
    same_settings self self' ∧
    (∀ b, b ∈ brain_names →
       ∃ tp kd brain cap,
         PyDict.get b tpd = Some tp ∧
         PyDict.get "trainer" tp = Some (PStr (kind_name kd)) ∧
         PyDict.get b external_brains = Some brain ∧
         reward_buff_cap_arg self b kd cap ∧
         PyDict.get b (trainers self') = Some (new_trainer self kd brain cap tp) ∧
         PyDict.get b (trainer_metrics self')
         = if decide (kd = PPOTrainer) then Some (new_trainer self kd brain cap tp)
           else PyDict.get b (trainer_metrics self)) ∧
    (∀ b, b ∉ brain_names →
       PyDict.get b (trainers self') = PyDict.get b (trainers self) ∧
       PyDict.get b (trainer_metrics self') = PyDict.get b (trainer_metrics self)).
Proof.
  induction brain_names as [|b0 rest IH]; intros self self' Hl; simpl in Hl.
  - injection Hl as <-. split; [apply same_settings_refl|].
    split; [by intros b ?%elem_of_nil | done].
  - destruct (create_trainer self external_brains tpd b0) as [self1| |] eqn:Hc;
      simpl in Hl; try discriminate.
    destruct (create_trainer_Done _ _ _ _ _ Hc)
      as (tp0 & kd0 & brain0 & cap0 & Htp0 & Hv0 & Hbrain0 & Hcap0 & Hsame1 & Hts1 & Hms1).
    destruct (IH _ _ Hl) as (Hsame & Hin & Hout).
    split; [by eapply same_settings_trans|]. split.
    + intros b Hb. destruct (decide (b ∈ rest)) as [Hr|Hr].
      * destruct (Hin b Hr) as (tp & kd & brain & cap & Htp & Hv & Hbrain & Hcap & Ht & Hm).
        exists tp, kd, brain, cap. split; [done|]. split; [done|]. split; [done|].
        rewrite (same_settings_new_trainer _ _ _ _ _ _ Hsame1) in Ht, Hm.
        split; [|split; [done|]].
        { destruct kd; try done. destruct Hcap as (c & Hc' & ->). exists c.
          by rewrite <- (same_settings_cap _ _ _ Hsame1). }
        rewrite Hm. case_decide as Hk; [done|]. rewrite Hms1.
        case_decide as Hk0; [|done].
        destruct (decide (b = b0)) as [->|Hne]; [|by rewrite get_set_ne].
        rewrite Htp0 in Htp. injection Htp as ->. rewrite Hv0 in Hv.
        injection Hv as Hv. destruct kd, kd0; done.
      * apply elem_of_cons in Hb as [->|Hb]; [|done].
        destruct (Hout _ Hr) as [Ht Hm].
        exists tp0, kd0, brain0, cap0. split; [done|]. split; [done|].
        split; [done|]. split; [done|]. rewrite Ht, Hm, Hts1, Hms1.
        split; [by rewrite get_set_eq|].
        case_decide; [by rewrite get_set_eq | done].
    + intros b Hb. apply not_elem_of_cons in Hb as [Hne Hr].
      destruct (Hout _ Hr) as [-> ->]. rewrite Hts1, Hms1.
      split; [by rewrite get_set_ne|]. case_decide; [by rewrite get_set_ne | done].
Qed.

Lemma trainers_loop_keys external_brains tpd brain_names :
  ∀ self self',
    trainers_loop self external_brains tpd brain_names = Done self' →
    NoDup brain_names →
    (∀ b, b ∈ brain_names → b ∉ PyDict.keys (trainers self)) →
    PyDict.keys (trainers self') = PyDict.keys (trainers self) ++ brain_names.
Proof.
  induction brain_names as [|b0 rest IH]; intros self self' Hl Hnd Hnew; simpl in Hl.
  - injection Hl as <-. by rewrite app_nil_r.
  - destruct (create_trainer self external_brains tpd b0) as [self1| |] eqn:Hc;
      simpl in Hl; try discriminate.
    destruct (create_trainer_Done _ _ _ _ _ Hc)
      as (tp0 & kd0 & brain0 & cap0 & _ & _ & _ & _ & _ & Hts1 & _).
    apply NoDup_cons in Hnd as [Hb0 Hnd].
    assert (Hk1 : PyDict.keys (trainers self1) = PyDict.keys (trainers self) ++ [b0]).
    { rewrite Hts1. apply keys_set_absent, get_None_keys, Hnew.
      apply elem_of_cons. by left. }
    rewrite (IH _ _ Hl Hnd), Hk1; [by rewrite <- app_assoc|].
    intros b Hb. rewrite Hk1. rewrite elem_of_app, list_elem_of_singleton.
    intros [Hin| ->]; [|done]. eapply Hnew; [|exact Hin].
    apply elem_of_cons. by right.
Qed.

Lemma trainers_loop_returns external_brains tpd brain_names :
  ∀ self,
    (∀ b, b ∈ brain_names →
       ∃ tp kd, PyDict.get b tpd = Some tp ∧
                PyDict.get "trainer" tp = Some (PStr (kind_name kd)) ∧
                is_Some (PyDict.get b external_brains) ∧
                (kd = PPOTrainer → ∃ c, reward_buff_cap_of self b = Done c)) →
    ∃ self', trainers_loop self external_brains tpd brain_names = Done self'.
Proof.
  induction brain_names as [|b0 rest IH]; intros self Hall; simpl; [by eexists|].
  destruct (Hall b0) as (tp & kd & Htp & Hv & [brain Hbrain] & Hcap);
    [apply elem_of_cons; by left|].
  destruct (create_trainer_returns self external_brains tpd b0 tp kd brain)
    as [self1 Hc]; try done.
  rewrite Hc. simpl. apply IH. intros b Hb.
  destruct (Hall b) as (tp' & kd' & ? & ? & ? & Hcap'); [apply elem_of_cons; by right|].
  exists tp', kd'. split; [done|]. split; [done|]. split; [done|].
  intros Hk. destruct (Hcap' Hk) as [c Hc'']. exists c.
  destruct (create_trainer_Done _ _ _ _ _ Hc) as (? & ? & ? & ? & _ & _ & _ & _ & Hsame & _).
  by rewrite (same_settings_cap _ _ _ Hsame).
Qed.

Lemma trainers_loop_exception external_brains tpd brain_names :
  ∀ self b,
    trainers_loop self external_brains tpd brain_names
      = Fails (UnityEnvironmentException b) →
    b ∈ brain_names ∧
    ∃ tp v, PyDict.get b tpd = Some tp ∧ PyDict.get "trainer" tp = Some v ∧
            v ≠ PStr "offline_bc" ∧ v ≠ PStr "online_bc" ∧ v ≠ PStr "ppo".
Proof.
  induction brain_names as [|b0 rest IH]; intros self b Hl; simpl in Hl;
    [discriminate|].
  destruct (create_trainer self external_brains tpd b0) as [self1|e|] eqn:Hc;
    simpl in Hl; try discriminate.
  - destruct (IH _ _ Hl) as [Hin Hrest]. split; [|done]. apply elem_of_cons. by right.
  - injection Hl as ->. destruct (create_trainer_exception _ _ _ _ _ Hc) as [-> Hv].
    split; [|done]. apply elem_of_cons. by left.
Qed.

(** ** The whole function *)

(** X23.  When [initialize_trainers] returns, every brain of [external_brains]
    has a trainer: of the kind its ["trainer"] parameter names, made from
    the brain's entry of [external_brains], the parameters the first loop
    computed for the brain and the controller's [train_model],
    [load_model], [seed] and [run_id]; a PPO trainer, and only a PPO
    trainer, also has its metrics registered. *)
Theorem initialize_trainers_result fuel self trainer_config external_brains self' b brain :
  initialize_trainers fuel self trainer_config external_brains = Done self' →
  PyDict.get b external_brains = Some brain →
  ∃ tp kd cap,
    brain_parameters fuel self trainer_config b = Done tp ∧
    PyDict.get "trainer" tp = Some (PStr (kind_name kd)) ∧
    reward_buff_cap_arg self b kd cap ∧
    PyDict.get b (trainers self')
    = Some {| kind := kd; arg_brain := brain; arg_reward_buff_cap := cap;
              arg_trainer_parameters := tp; arg_training := train_model self;
              arg_load := load_model self; arg_seed := seed self;
              arg_run_id := run_id self |} ∧
    PyDict.get b (trainer_metrics self')
    = if decide (kd = PPOTrainer) then PyDict.get b (trainers self')
      else PyDict.get b (trainer_metrics self).
Proof.
  unfold initialize_trainers. intros Hi Hbrain.
  destruct (parameters_loop _ _ _ _ _) as [tpd| |] eqn:Hp; simpl in Hi;
    try discriminate.
  assert (Hb : b ∈ PyDict.keys external_brains).
  { apply elem_of_keys_get. by rewrite Hbrain. }
  destruct (parameters_loop_spec _ _ _ _ _ _ Hp) as [Hin _].
  destruct (Hin b Hb) as (tp & Hbp & Htpd).
  destruct (trainers_loop_spec _ _ _ _ _ Hi) as (_ & Hts & _).
  destruct (Hts b Hb) as (tp' & kd & brain' & cap & Htp' & Hv & Hbrain' & Hcap & Ht & Hm).
  rewrite Htpd in Htp'. injection Htp' as <-.
  rewrite Hbrain in Hbrain'. injection Hbrain' as <-.
  exists tp, kd, cap. split; [done|]. split; [done|]. split; [done|].
  split; [exact Ht|]. rewrite Hm, Ht. done.
Qed.

(** X24.  Starting without trainers, [initialize_trainers] leaves one trainer
    per external brain, in the order of [external_brains]. *)
Theorem initialize_trainers_order fuel self trainer_config external_brains self' :
  initialize_trainers fuel self trainer_config external_brains = Done self' →
  NoDup (PyDict.keys external_brains) →
  trainers self = [] →
  PyDict.keys (trainers self') = PyDict.keys external_brains.
Proof.
  unfold initialize_trainers. intros Hi Hnd Hempty.
  destruct (parameters_loop _ _ _ _ _) as [tpd| |] eqn:Hp; simpl in Hi;
    try discriminate.
  rewrite (trainers_loop_keys _ _ _ _ _ Hi Hnd); rewrite Hempty; [done|].
  intros b _. apply not_elem_of_nil.
Qed.

(** X25.  [initialize_trainers] returns exactly when, for every external brain,
    the first loop computes parameters, their ["trainer"] entry is one of
    ["offline_bc"], ["online_bc"] and ["ppo"], and, for ["ppo"] under a
    curriculum, the brain has a curriculum. *)
Theorem initialize_trainers_returns_iff fuel self trainer_config external_brains :
  (∃ self', initialize_trainers fuel self trainer_config external_brains = Done self')
  ↔ ∀ b, b ∈ PyDict.keys external_brains →
      ∃ tp kd,
        brain_parameters fuel self trainer_config b = Done tp ∧
        PyDict.get "trainer" tp = Some (PStr (kind_name kd)) ∧
        (kd = PPOTrainer → ∃ c, reward_buff_cap_of self b = Done c).
Proof.
  unfold initialize_trainers. split.
  - intros [self' Hi] b Hb.
    destruct (parameters_loop _ _ _ _ _) as [tpd| |] eqn:Hp; simpl in Hi;
      try discriminate.
    destruct (parameters_loop_spec _ _ _ _ _ _ Hp) as [Hin _].
    destruct (Hin b Hb) as (tp & Hbp & Htpd).
    destruct (trainers_loop_spec _ _ _ _ _ Hi) as (_ & Hts & _).
    destruct (Hts b Hb) as (tp' & kd & brain' & cap & Htp' & Hv & _ & Hcap & _).
    rewrite Htpd in Htp'. injection Htp' as <-.
    exists tp, kd. split; [done|]. split; [done|].
    intros ->. destruct Hcap as (c & Hc & _). by exists c.
  - intros Hall.
    destruct (parameters_loop_returns fuel self trainer_config
                (PyDict.keys external_brains) []) as [tpd Hp].
    { intros b Hb. destruct (Hall b Hb) as (tp & _ & Hbp & _). by exists tp. }
    rewrite Hp. simpl. apply trainers_loop_returns. intros b Hb.
    destruct (Hall b Hb) as (tp & kd & Hbp & Hv & Hcap).
    destruct (parameters_loop_spec _ _ _ _ _ _ Hp) as [Hin _].
    destruct (Hin b Hb) as (tp' & Hbp' & Htpd).
    rewrite Hbp in Hbp'. injection Hbp' as <-.
    exists tp, kd. split; [done|]. split; [done|]. split; [|done].
    by apply elem_of_keys_get.
Qed.

(** X26.  The [UnityEnvironmentException] names an external brain whose
    parameters the first loop computed and whose ["trainer"] entry is none
    of the three known types. *)
Theorem initialize_trainers_unknown_type fuel self trainer_config external_brains b :
  initialize_trainers fuel self trainer_config external_brains
    = Fails (UnityEnvironmentException b) →
  b ∈ PyDict.keys external_brains ∧
  ∃ tp v,
    brain_parameters fuel self trainer_config b = Done tp ∧
    PyDict.get "trainer" tp = Some v ∧
    v ≠ PStr "offline_bc" ∧ v ≠ PStr "online_bc" ∧ v ≠ PStr "ppo".
Proof.
  unfold initialize_trainers. intros Hi.
  destruct (parameters_loop _ _ _ _ _) as [tpd|e|] eqn:Hp; simpl in Hi;
    try discriminate.
  - destruct (trainers_loop_exception _ _ _ _ _ Hi) as (Hb & tp & v & Htpd & Hv & Hne).
    split; [done|].
    destruct (parameters_loop_spec _ _ _ _ _ _ Hp) as [Hin _].
    destruct (Hin b Hb) as (tp' & Hbp & Htpd').
    rewrite Htpd in Htpd'. injection Htpd' as <-. by exists tp, v.
  - injection Hi as ->.
    destruct (parameters_loop_fails _ _ _ _ _ _ Hp) as (b' & _ & Hf).
    by apply brain_parameters_not_exception in Hf.
Qed.

(** X27.  A brain whose name leads back to itself through the aliases keeps the
    [while] loop turning for ever: the loop is unfinished after any number
    of turns, and [initialize_trainers] does not return for a set of
    external brains that has this brain. *)
Theorem alias_cycle_never_returns trainer_config b :
  tc (alias_of trainer_config) b b →
  (∀ fuel, resolve_alias fuel trainer_config b = Unfinished) ∧
  (∀ fuel self external_brains self',
     b ∈ PyDict.keys external_brains →
     initialize_trainers fuel self trainer_config external_brains ≠ Done self').
Proof.
  intros Hcyc. split; [intros fuel; by apply resolve_alias_cycle|].
  intros fuel self external_brains self' Hb Hi.
  unfold initialize_trainers in Hi.
  destruct (parameters_loop _ _ _ _ _) as [tpd| |] eqn:Hp; simpl in Hi;
    try discriminate.
  destruct (parameters_loop_spec _ _ _ _ _ _ Hp) as [Hin _].
  destruct (Hin b Hb) as (tp & Hbp & _).
  destruct (brain_parameters_Done _ _ _ _ _ Hbp) as (default & _ & _ & Hsec).
  destruct Hsec as [section Hres].
  - inversion Hcyc as [? ? Hal|? ? ? Hal _]; subst; unfold alias_of in Hal;
      by rewrite Hal.
  - by rewrite (resolve_alias_cycle _ fuel b Hcyc) in Hres.
Qed.

(** X28.  Without a ["default"] section nothing is built, even when every brain
    has a section of its own: with at least one external brain the call
    raises [KeyError] when ["default"] is missing and [AttributeError]
    when it is not a section. *)
Theorem initialize_trainers_needs_default fuel self trainer_config external_brains :
  external_brains ≠ [] →
  (∀ d, PyDict.get "default" trainer_config ≠ Some (CfgDict d)) →
  initialize_trainers fuel self trainer_config external_brains
  = Fails match PyDict.get "default" trainer_config with
          | Some _ => ConfigAttributeError
          | None => ConfigKeyError
          end.
Proof.
  intros Hne Hdef. destruct external_brains as [|[b brain] rest]; [done|].
  unfold initialize_trainers. simpl. unfold brain_parameters, getitem.
  destruct (PyDict.get "default" trainer_config) as [[d|s|z]|]; simpl; try done.
  by destruct (Hdef d).
Qed.

(** ** The facts at a concrete configuration *)

Lemma brain_parameters_layers_witness :
  ∃ tp default section,
    brain_parameters 2 example_controller example_config "Goalie" = Done tp ∧
    PyDict.get "default" example_config = Some (CfgDict default) ∧
    match PyDict.get "Goalie" example_config with
    | Some _ => resolve_alias 2 example_config "Goalie" = Done section
    | None => section = []
    end ∧
    PyDict.get "model_path" tp
    = match PyDict.get "model_path" section with
      | Some v => Some v
      | None =>
          match computed_parameter example_controller "Goalie" "model_path" with
          | Some v => Some v
          | None => PyDict.get "model_path" default
          end
      end.
Proof.
  eexists.
  match goal with |- ∃ d s, ?R ∧ _ => assert (Hr : R) by (vm_compute; reflexivity) end.
  destruct (brain_parameters_layers 2 example_controller example_config "Goalie" _
              "model_path" Hr) as (default & section & Hd & Hs & Hk).
  - intros section Hs. vm_compute in Hs. injection Hs as <-. by_computation.
  - exists default, section. split; [exact Hr|]. split; [exact Hd|].
    split; [exact Hs | exact Hk].
Defined.

(** X23 for the trainer of the brain Goalie. *)
Lemma initialize_trainers_result_witness :
  ∃ self' tp kd cap,
    initialize_trainers 2 example_controller example_config example_brains = Done self' ∧
    brain_parameters 2 example_controller example_config "Goalie" = Done tp ∧
    PyDict.get "trainer" tp = Some (PStr (kind_name kd)) ∧
    reward_buff_cap_arg example_controller "Goalie" kd cap ∧
    PyDict.get "Goalie" (trainers self')
    = Some {| kind := kd; arg_brain := 2%Z; arg_reward_buff_cap := cap;
              arg_trainer_parameters := tp;
              arg_training := train_model example_controller;
              arg_load := load_model example_controller;
              arg_seed := seed example_controller;
              arg_run_id := run_id example_controller |} ∧
    PyDict.get "Goalie" (trainer_metrics self')
    = if decide (kd = PPOTrainer) then PyDict.get "Goalie" (trainers self')
      else PyDict.get "Goalie" (trainer_metrics example_controller).
Proof.
  eexists.
  match goal with |- ∃ tp kd cap, ?R ∧ _ =>
    assert (Hr : R) by (vm_compute; reflexivity) end.
  destruct (initialize_trainers_result 2 example_controller example_config
              example_brains _ "Goalie" 2%Z Hr eq_refl) as (tp & kd & cap & H).
  exists tp, kd, cap. split; [exact Hr | exact H].
Defined.

(** X24 for three external brains. *)
Lemma initialize_trainers_order_witness :
  ∃ self',
    initialize_trainers 2 example_controller example_config example_brains = Done self' ∧
    PyDict.keys (trainers self') = PyDict.keys example_brains.
Proof.
  eexists.
  match goal with |- ?R ∧ _ => assert (Hr : R) by (vm_compute; reflexivity) end.
  split; [exact Hr|].
  apply (initialize_trainers_order _ _ _ _ _ Hr); [by_computation | reflexivity].
Defined.

(** X26 for a brain whose section asks for the trainer sac. *)
Lemma initialize_trainers_unknown_type_witness :
  "Odd" ∈ PyDict.keys [("Striker", 1%Z); ("Odd", 4%Z)] ∧
  ∃ tp v,
    brain_parameters 2 example_controller example_config "Odd" = Done tp ∧
    PyDict.get "trainer" tp = Some v ∧
    v ≠ PStr "offline_bc" ∧ v ≠ PStr "online_bc" ∧ v ≠ PStr "ppo".
Proof.
  apply (initialize_trainers_unknown_type 2 example_controller example_config
           [("Striker", 1%Z); ("Odd", 4%Z)] "Odd").
  vm_compute. reflexivity.
Defined.

(** X27 for two entries naming each other. *)
Lemma alias_cycle_never_returns_witness :
  resolve_alias 100 example_config "Ping" = Unfinished.
Proof.
  apply (alias_cycle_never_returns example_config "Ping").
  apply (tc_l _ _ "Pong"); [reflexivity|]. apply tc_once. reflexivity.
Defined.

(** X28 for the example configuration without its default entry. *)
Lemma initialize_trainers_needs_default_witness :
  initialize_trainers 0 example_controller (drop 1 example_config) example_brains
  = Fails ConfigKeyError.
Proof.
  apply (initialize_trainers_needs_default 0 example_controller
           (drop 1 example_config) example_brains).
  - discriminate.
  - intros d. discriminate.
Defined.

End TrainerInitFacts.
